(** * flex-dto: a shallow embedding of [src/index.ts] and its properties

    The development follows the layout of the source file: the case
    converters ([toSnakeCase], [toCamelCase]), the instance model
    ([getClassFields], [findMatchingField]), the populate operation
    ([init]) and the projection ([toPlain]).

    Modelling conventions.
    - Keys are ASCII strings.  [isUpper]/[isLower] are the ASCII letter
      ranges; on ASCII this is exactly what the source's comparisons of a
      character with its [toUpperCase()]/[toLowerCase()] compute.
    - A JavaScript value is a finite tree ([value]): undefined, null,
      booleans, numbers, BigInts, strings, functions, arrays, plain
      objects, instances of [FlexDto] subclasses and the wrapper objects
      [Object(p)] of primitives.  Numbers are carried as integers: the
      library never computes with them.  Symbols, cyclic structures,
      accessors and proxies are outside the model.  A function held in a
      value is opaque and is never called: a payload object does not
      redefine [toString], [valueOf] or [toJSON].
    - An object is the list of its own enumerable string-keyed properties
      in enumeration order; assignment to a property updates it in place
      or appends it ([setProp]).  Property names of instances and tables
      are not array indices (which JavaScript enumerates first); the
      index keys of an array payload are in ascending order as they are.
    - An alias or transform table is a plain object: [table[k]] is the
      own entry for [k] when there is one, and otherwise the member of
      [Object.prototype] named [k], if any ([tableGet]).  An own entry
      holds an array of names, respectively a function.
    - An instance is its own properties, the properties found on its
      prototype chain below [FlexDto.prototype] (methods are
      function-valued entries), and the members inherited from
      [FlexDto.prototype] and [Object.prototype] ([baseMembers]).  It is
      built by the constructor of its class and has no own property named
      [constructor], so that [this.constructor] is the class.  The own
      properties [_opts] and [_strictMode] are kept in record fields of
      their own, with their types; no other key that begins with an
      underscore is read or written by the code, and these two are read
      and written by name only (lines 276-281, 290, 449-454, 505).
    - A transform is a function that returns a value or throws.  What is
      thrown is described by what the [catch] block of [init] does with
      it ([thrown]).
    - [console.warn] appends a [warning] to a log.  A warning records the
      values its text is built from; of [JSON.stringify] only whether it
      throws is modelled.  The ambient [isDevelopmentMode()] is a
      parameter [isDev].  The texts of the engine's own TypeErrors are
      those of V8.
    - A call ends by returning or by throwing ([completion]); [init]
      gives its completion, the instance as the call leaves it, and the
      warnings. *)

From Stdlib Require Import String Ascii List Bool ZArith Lia DecimalString.
Import ListNotations.
Local Open Scope string_scope.
Local Open Scope bool_scope.
Local Open Scope list_scope.

Set Warnings "-register-all".

(* ====================================================================== *)
(** ** Characters and strings *)
(* ====================================================================== *)

Module Chars.

Definition code (c : ascii) : nat := nat_of_ascii c.

(** [char === char.toUpperCase() && char !== char.toLowerCase()] *)
Definition isUpper (c : ascii) : bool :=
  (65 <=? code c)%nat && (code c <=? 90)%nat.

(** [char === char.toLowerCase() && char !== char.toUpperCase()];
    on keys this is the regular expression class [[a-z]]. *)
Definition isLower (c : ascii) : bool :=
  (97 <=? code c)%nat && (code c <=? 122)%nat.

Definition isDigit (c : ascii) : bool :=
  (48 <=? code c)%nat && (code c <=? 57)%nat.

Definition toLowerChar (c : ascii) : ascii :=
  if isUpper c then ascii_of_nat (code c + 32) else c.

Definition toUpperChar (c : ascii) : ascii :=
  if isLower c then ascii_of_nat (code c - 32) else c.

Definition underscore : ascii := "_"%char.

Definition isUnderscore (c : ascii) : bool := Ascii.eqb c underscore.

End Chars.
Import Chars.

(** [s.startsWith("_")] *)
Definition startsWithUnderscore (s : string) : bool :=
  match s with
  | String c _ => isUnderscore c
  | EmptyString => false
  end.

(** [s.includes("_")] *)
Fixpoint includesUnderscore (s : string) : bool :=
  match s with
  | EmptyString => false
  | String c rest => isUnderscore c || includesUnderscore rest
  end.

(** [xs.includes(k)] on an array of strings, [set.has(k)] on a set. *)
Definition includes (k : string) (xs : list string) : bool :=
  existsb (String.eqb k) xs.

Definition isAlnum (c : ascii) : bool := isLower c || isUpper c || isDigit c.

Fixpoint allAlnum (s : string) : bool :=
  match s with
  | EmptyString => true
  | String c rest => isAlnum c && allAlnum rest
  end.

(** The pattern [/^[a-z][a-zA-Z0-9]*$/] by which the source recognises a
    camelCase field name (line 382). *)
Definition camelCasePattern (fieldName : string) : bool :=
  match fieldName with
  | String c rest => isLower c && allAlnum rest
  | EmptyString => false
  end.

(* ====================================================================== *)
(** ** Utility: case conversion (index.ts, lines 110-139) *)
(* ====================================================================== *)

(** The loop of [toSnakeCase].  [prev] is [str[i-1]], absent when [i = 0];
    the head of the remaining string is [str[i]]. *)
Fixpoint toSnakeLoop (prev : option ascii) (str : string) : string :=
  match str with
  | EmptyString => EmptyString
  | String char rest =>
      let next := match rest with String n _ => Some n | EmptyString => None end in
      if isUpper char then
        let prevIsUpper := match prev with Some p => isUpper p | None => false end in
        let nextIsLower := match next with Some n => isLower n | None => false end in
        let positive := match prev with Some _ => true | None => false end in
        let tail := String (toLowerChar char) (toSnakeLoop (Some char) rest) in
        if positive && (negb prevIsUpper || (prevIsUpper && nextIsLower))
        then String underscore tail
        else tail
      else String char (toSnakeLoop (Some char) rest)
  end.

Definition toSnakeCase (str : string) : string :=
  match str with
  | EmptyString => str
  | _ => toSnakeLoop None str
  end.

(** [str.replace(/_([a-z])/g, (_, letter) => letter.toUpperCase())]:
    a left-to-right scan, matches do not overlap. *)
Fixpoint camelReplace (str : string) : string :=
  match str with
  | EmptyString => EmptyString
  | String c rest =>
      match rest with
      | String letter rest' =>
          if isUnderscore c && isLower letter
          then String (toUpperChar letter) (camelReplace rest')
          else String c (camelReplace rest)
      | EmptyString => String c EmptyString
      end
  end.

Definition toCamelCase (str : string) : string :=
  match str with
  | EmptyString => str
  | _ => camelReplace str
  end.

(* ====================================================================== *)
(** ** Values *)
(* ====================================================================== *)

(** The primitives that have a wrapper object. *)
Inductive primitive : Type :=
| PBool (b : bool)
| PNumber (n : Z)
| PBigInt (n : Z)
| PString (s : string).

Inductive value : Type :=
| VUndefined
| VNull
| VBool (b : bool)
| VNumber (n : Z)
| VBigInt (n : Z)
| VString (s : string)
| VFunction (name : string)
| VArray (items : list value)
| VObject (props : list (string * value))
  (** an instance of a [FlexDto] subclass: class name, own properties,
      prototype-chain properties *)
| VDto (cls : string) (own : list (string * value)) (proto : list (string * value))
  (** a wrapper object: [new Boolean(b)], [new Number(n)], [Object(10n)],
      [new String(s)] *)
| VWrapper (p : primitive).

Definition props := list (string * value).

(** [typeof v] *)
Definition typeof (v : value) : string :=
  match v with
  | VUndefined => "undefined"
  | VNull => "object"
  | VBool _ => "boolean"
  | VNumber _ => "number"
  | VBigInt _ => "bigint"
  | VString _ => "string"
  | VFunction _ => "function"
  | VArray _ | VObject _ | VDto _ _ _ | VWrapper _ => "object"
  end.

Definition isFunction (v : value) : bool := typeof v =? "function".

Definition isUndefined (v : value) : bool :=
  match v with VUndefined => true | _ => false end.

Definition isNull (v : value) : bool :=
  match v with VNull => true | _ => false end.

(** [!v] is false, i.e. the value is truthy. *)
Definition truthy (v : value) : bool :=
  match v with
  | VUndefined | VNull => false
  | VBool b => b
  | VNumber n | VBigInt n => negb (Z.eqb n 0)
  | VString s => negb (s =? "")
  | VFunction _ | VArray _ | VObject _ | VDto _ _ _ | VWrapper _ => true
  end.

(** The value is an object (a function is one, [null] is not). *)
Definition isObject (v : value) : bool :=
  match v with
  | VFunction _ | VArray _ | VObject _ | VDto _ _ _ | VWrapper _ => true
  | _ => false
  end.

(** [Object(v)]: a new empty object for undefined and null, the wrapper
    of a primitive, and an object itself. *)
Definition toObject (v : value) : value :=
  match v with
  | VUndefined | VNull => VObject []
  | VBool b => VWrapper (PBool b)
  | VNumber n => VWrapper (PNumber n)
  | VBigInt n => VWrapper (PBigInt n)
  | VString s => VWrapper (PString s)
  | _ => v
  end.

(** Own-property lookup. *)
Fixpoint lookup {A : Type} (k : string) (ps : list (string * A)) : option A :=
  match ps with
  | [] => None
  | (k', v) :: rest => if k =? k' then Some v else lookup k rest
  end.

(** [obj[k] = v]: update in place, or append a new property. *)
Fixpoint setProp {A : Type} (k : string) (v : A) (ps : list (string * A))
  : list (string * A) :=
  match ps with
  | [] => [(k, v)]
  | (k', v') :: rest =>
      if k =? k' then (k, v) :: rest else (k', v') :: setProp k v rest
  end.

(** Object spread [{ ...a, ...b }]. *)
Definition spread {A : Type} (a b : list (string * A)) : list (string * A) :=
  fold_left (fun acc kv => setProp (fst kv) (snd kv) acc) b a.

(** The property names of [Object.prototype]: every plain object, an
    alias or transform table among them, inherits these. *)
Definition objectPrototypeMembers : list string :=
  [ "constructor"; "__defineGetter__"; "__defineSetter__"; "hasOwnProperty";
    "__lookupGetter__"; "__lookupSetter__"; "isPrototypeOf";
    "propertyIsEnumerable"; "toString"; "valueOf"; "__proto__";
    "toLocaleString" ].

(** What [table[k]] finds in a plain object. *)
Inductive member (A : Type) : Type :=
| Own (a : A)
| Inherited (name : string)
| Absent.

Arguments Own {A} a.
Arguments Inherited {A} name.
Arguments Absent {A}.

(** [table[k]] *)
Definition tableGet {A : Type} (k : string) (table : list (string * A)) : member A :=
  match lookup k table with
  | Some a => Own a
  | None => if includes k objectPrototypeMembers then Inherited k else Absent
  end.

(** Members every instance inherits from [FlexDto.prototype] and
    [Object.prototype]; all of them are functions. *)
Definition baseMembers : list string :=
  [ "constructor"; "validateType"; "getClassFields"; "isValidFieldName";
    "findMatchingField"; "init"; "toPlain"; "toJSON";
    "hasOwnProperty"; "isPrototypeOf"; "propertyIsEnumerable";
    "toLocaleString"; "toString"; "valueOf" ].

(** [this[k]] *)
Definition readProp (own proto : props) (k : string) : value :=
  match lookup k own with
  | Some v => v
  | None =>
      match lookup k proto with
      | Some v => v
      | None => if includes k baseMembers then VFunction k else VUndefined
      end
  end.

(** [fields.add(k)] on a [Set], which keeps insertion order. *)
Definition setAdd (k : string) (fields : list string) : list string :=
  if includes k fields then fields else fields ++ [k].

(** [getClassFields] (lines 324-359), on the two property lists. *)
Definition getClassFieldsOf (own proto : props) : list string :=
  let fromInstance :=
    fold_left
      (fun fields prop =>
         if negb (startsWithUnderscore prop)
         then if negb (isFunction (readProp own proto prop))
              then setAdd prop fields else fields
         else fields)
      (map fst own) [] in
  fold_left
    (fun fields pv =>
       let '(prop, v) := pv in
       if negb (prop =? "constructor") && negb (startsWithUnderscore prop)
       then if negb (isFunction v) then setAdd prop fields else fields
       else fields)
    proto fromInstance.

(* ====================================================================== *)
(** ** Types (index.ts, lines 145-268) *)
(* ====================================================================== *)

(** What a [throw] carries, as the [catch] block of [init] looks at it
    (line 517, [error instanceof Error ? error.message : String(error)]
    inside a template literal): an [Error] with its message; another
    value, with the text [String] gives for it; or a value on which that
    expression itself throws [raised], as [String] does on
    [{ toString: null }] and on [Object.create(null)]. *)
Inductive thrown : Type :=
| ErrorObject (message : string)
| ThrownValue (text : string)
| Unprintable (raised : thrown).

(** The [catch] block can print the error. *)
Definition printable (error : thrown) : bool :=
  match error with
  | Unprintable _ => false
  | _ => true
  end.

(** The result of calling a transform. *)
Inductive callResult : Type :=
| Returns (v : value)
| Throws (e : thrown).

Definition TransformFn := value -> callResult.

Definition aliasTable := list (string * list string).
Definition transformTable := list (string * TransformFn).

Record InternalOptions : Type := mkOptions {
  aliases : option aliasTable;
  transforms : option transformTable;
  strictMode : option bool
}.

(** The options object [{}]. *)
Definition noOptions : InternalOptions := mkOptions None None None.

(** One [console.warn] call. *)
Inductive warning : Type :=
| TypeMismatch (cls key expected actual : string) (shown : value)
| TransformFailed (cls key : string) (error : thrown).

Definition isTypeMismatch (w : warning) : bool :=
  match w with TypeMismatch _ _ _ _ _ => true | _ => false end.

(** How a call ends. *)
Inductive completion : Type :=
| Returned
| Threw (e : thrown).

(** The result of a call that returns something, or throws. *)
Inductive outcome (A : Type) : Type :=
| Normal (a : A)
| Abrupt (e : thrown).

Arguments Normal {A} a.
Arguments Abrupt {A} e.

(** The TypeErrors of the engine that the code can run into. *)

(** [JSON.stringify] on a BigInt. *)
Definition bigIntTypeError : thrown :=
  ErrorObject "Do not know how to serialize a BigInt".

(** [fieldAliases.includes(...)] where [fieldAliases] has no such method. *)
Definition includesTypeError : thrown :=
  ErrorObject "fieldAliases.includes is not a function".

(** [transform(value)] where [transform] is not a function. *)
Definition notCallableError : thrown :=
  ErrorObject "transform is not a function".

(** A method of [Object.prototype] called on [undefined]. *)
Definition nullReceiverError : thrown :=
  ErrorObject "Cannot convert undefined or null to object".

(** [Object.prototype.toLocaleString] called on [undefined]. *)
Definition toLocaleStringError : thrown :=
  ErrorObject "Object.prototype.toLocaleString called on null or undefined".

(** [String(error)] on an object that has neither a usable [toString] nor
    a usable [valueOf]. *)
Definition notPrimitiveError : thrown :=
  ErrorObject "Cannot convert object to primitive value".

(** A member of [Object.prototype] called as [transform(value)] (line
    509): a plain call in strict code, so [this] is undefined.
    [toString] answers ["[object Undefined]"], [constructor] is [Object],
    [isPrototypeOf] answers [false] for a primitive before it looks at
    [this]; [__proto__] is not a function; [toLocaleString] refuses an
    undefined [this]; every other member fails to convert [this] to an
    object. *)
Definition objectPrototypeCall (name : string) (v : value) : callResult :=
  if name =? "toString" then Returns (VString "[object Undefined]")
  else if name =? "constructor" then Returns (toObject v)
  else if name =? "isPrototypeOf" then
    if isObject v then Throws nullReceiverError else Returns (VBool false)
  else if name =? "__proto__" then Throws notCallableError
  else if name =? "toLocaleString" then Throws toLocaleStringError
  else Throws nullReceiverError.

(** [transforms[targetKey]], when it is truthy. *)
Definition transformFor (targetKey : string) (transforms : transformTable)
  : option TransformFn :=
  match tableGet targetKey transforms with
  | Own transform => Some transform
  | Inherited name => Some (objectPrototypeCall name)
  | Absent => None
  end.

(* ====================================================================== *)
(** ** FlexDto (index.ts, lines 274-573) *)
(* ====================================================================== *)

(** An instance. Its own properties are [_strictMode] and [_opts] (lines
    276-277), which the code reads and writes by name, and the
    properties listed in [own]; [init] writes [_opts] (line 449, here
    [withOpts]) and properties of [own] (line 530, here [assign]). *)
Record FlexDto : Type := mkDto {
  className : string;              (* this.constructor.name *)
  _strictMode : bool;              (* own property, set by the constructor *)
  _opts : InternalOptions;         (* own property, set by init *)
  own : props;                     (* own properties other than the two above *)
  proto : props;                   (* prototype chain below FlexDto.prototype *)
  aliasMetadata : aliasTable;      (* getAliases(this) *)
  transformMetadata : transformTable (* getTransforms(this) *)
}.

(** [this._opts = o] *)
Definition withOpts (this : FlexDto) (o : InternalOptions) : FlexDto :=
  mkDto (className this) (_strictMode this) o (own this) (proto this)
        (aliasMetadata this) (transformMetadata this).

(** [this[k] = v], for a key other than [_opts] and [_strictMode] (the
    code assigns no key that begins with an underscore, lines 491-494). *)
Definition assign (this : FlexDto) (k : string) (v : value) : FlexDto :=
  mkDto (className this) (_strictMode this) (_opts this)
        (setProp k v (own this)) (proto this)
        (aliasMetadata this) (transformMetadata this).

(** [this[k]], for a key other than [_opts] and [_strictMode] (the code
    reads this way only keys that do not begin with an underscore, lines
    331, 427, 479, 498, 545). *)
Definition get (this : FlexDto) (k : string) : value :=
  readProp (own this) (proto this) k.

Definition getClassFields (this : FlexDto) : list string :=
  getClassFieldsOf (own this) (proto this).

(** [this._opts.strictMode ?? this._strictMode] *)
Definition effectiveStrict (this : FlexDto) : bool :=
  match strictMode (_opts this) with
  | Some b => b
  | None => _strictMode this
  end.

(** Whether [JSON.stringify(v)] throws.  On the values of this model it
    does exactly when serialisation reaches a BigInt (or its wrapper); an
    instance is serialised through [toJSON], which reads its non-private,
    non-function fields. *)
Fixpoint stringifyThrows (v : value) : bool :=
  match v with
  | VBigInt _ => true
  | VWrapper (PBigInt _) => true
  | VArray items => existsb stringifyThrows items
  | VObject ps => existsb (fun kv => stringifyThrows (snd kv)) ps
  | VDto _ o p =>
      existsb (fun kv => negb (startsWithUnderscore (fst kv))
                         && stringifyThrows (snd kv)) o
      || existsb (fun kv => negb (startsWithUnderscore (fst kv))
                            && negb (includes (fst kv) (map fst o))
                            && stringifyThrows (snd kv)) p
  | _ => false
  end.

(** [validateType] (lines 289-312): the completion and the warnings. *)
Definition validateType (isDev : bool) (this : FlexDto)
           (key : string) (v : value) (expectedType : string)
  : completion * list warning :=
  if negb (effectiveStrict this) then (Returned, [])
  else
    let actualType := typeof v in
    let isCompatible :=
      (actualType =? expectedType)
      || ((expectedType =? "object")
          && ((actualType =? "object") || (actualType =? "undefined") || isNull v)) in
    if negb isCompatible then
      if isDev then
        if stringifyThrows v then (Threw bigIntTypeError, [])
        else (Returned,
              [TypeMismatch (className this) key expectedType actualType v])
      else (Returned, [])
    else (Returned, []).

(** [isValidFieldName] (lines 366-383). *)
Definition isValidFieldName (this : FlexDto) (fieldName : string) : bool :=
  if startsWithUnderscore fieldName then false
  else if includes fieldName (getClassFields this) then true
  else if isFunction (get this fieldName) then false
  else camelCasePattern fieldName.

(** Rule 4 of [findMatchingField] (lines 417-422): the scan of the class
    fields.  [aliases[fieldKey]] is truthy also when it is a member
    inherited from [Object.prototype], which has no [includes] method. *)
Fixpoint scanClassFields (dataKey camelKey : string) (aliases : aliasTable)
         (classFields : list string) : outcome (option string) :=
  match classFields with
  | [] => Normal None
  | fieldKey :: rest =>
      match tableGet fieldKey aliases with
      | Own fieldAliases =>
          if includes dataKey fieldAliases || includes camelKey fieldAliases
          then Normal (Some fieldKey)
          else scanClassFields dataKey camelKey aliases rest
      | Inherited _ => Abrupt includesTypeError
      | Absent => scanClassFields dataKey camelKey aliases rest
      end
  end.

(** [findMatchingField] (lines 390-435). *)
Definition findMatchingField (this : FlexDto) (dataKey : string)
           (classFields : list string) (aliases : aliasTable)
  : outcome (option string) :=
  (* 1. exact match *)
  if includes dataKey classFields then Normal (Some dataKey)
  else
    (* 2. camelCase *)
    let camelKey := toCamelCase dataKey in
    if includes camelKey classFields then Normal (Some camelKey)
    else
      (* 3. aliases *)
      match find (fun entry =>
                    includes (fst entry) classFields
                    && (includes dataKey (snd entry) || includes camelKey (snd entry)))
                 aliases with
      | Some entry => Normal (Some (fst entry))
      | None =>
          (* 4. any alias of a class field *)
          match scanClassFields dataKey camelKey aliases classFields with
          | Abrupt e => Abrupt e
          | Normal (Some fieldKey) => Normal (Some fieldKey)
          | Normal None =>
              (* 5. fields without initial values *)
              if negb (camelKey =? "") && negb (camelKey =? dataKey)
                 && negb (startsWithUnderscore camelKey)
              then if negb (isFunction (get this camelKey))
                   then Normal (Some camelKey) else Normal None
              else Normal None
          end
      end.

(** [!targetKey]: no match, or the empty string. *)
Definition isFalsyKey (targetKey : option string) : bool :=
  match targetKey with
  | Some t => t =? ""
  | None => true
  end.

(** Lines 476-486 of [init]: the fallback when no field was found. *)
Definition fallbackTarget (this : FlexDto) (dataKey : string)
           (targetKey : option string) : option string :=
  let camelKey := toCamelCase dataKey in
  if isFalsyKey targetKey && negb (camelKey =? "") && negb (camelKey =? dataKey)
  then if negb (startsWithUnderscore camelKey)
       then if negb (isFunction (get this camelKey))
            then Some camelKey else targetKey
       else targetKey
  else targetKey.

(** Lines 469-486 of [init]: the target key for a data key. *)
Definition targetOf (this : FlexDto) (dataKey : string)
           (classFields : list string) (aliases : aliasTable)
  : outcome (option string) :=
  match findMatchingField this dataKey classFields aliases with
  | Abrupt e => Abrupt e
  | Normal targetKey => Normal (fallbackTarget this dataKey targetKey)
  end.

(** Lines 491-494 of [init]. *)
Definition shouldAssign (targetKey : option string) (dataKey : string) : bool :=
  match targetKey with
  | Some t =>
      negb (t =? "")
      && negb (startsWithUnderscore t)
      && ((t =? toCamelCase dataKey) || negb (includesUnderscore dataKey))
  | None => false
  end.

(** Lines 496-531 of [init]: the value pipeline for a target that is
    assigned.  In the [catch] block the text of the warning is built
    before anything is assigned, and only under diagnostics. *)
Definition pipeline (isDev : bool) (transforms : transformTable)
           (this : FlexDto) (targetKey : string) (v : value)
  : completion * FlexDto * list warning :=
  let currentValue := get this targetKey in
  let expectedType :=
    if negb (isUndefined currentValue) then Some (typeof currentValue) else None in
  let strict := effectiveStrict this in
  match transformFor targetKey transforms with
  | Some transform =>
      match transform v with
      | Returns finalValue => (Returned, assign this targetKey finalValue, [])
      | Throws error =>
          if strict && isDev then
            match error with
            | Unprintable raised => (Threw raised, this, [])
            | _ => (Returned, assign this targetKey v,
                    [TransformFailed (className this) targetKey error])
            end
          else (Returned, assign this targetKey v, [])
      end
  | None =>
      match expectedType with
      | Some expected =>
          if strict then
            match validateType isDev this targetKey v expected with
            | (Returned, ws) => (Returned, assign this targetKey v, ws)
            | (Threw e, ws) => (Threw e, this, ws)
            end
          else (Returned, assign this targetKey v, [])
      | None => (Returned, assign this targetKey v, [])
      end
  end.

(** The body of the [for ... in] loop of [init] (lines 462-531). *)
Definition initKey (isDev : bool) (aliases : aliasTable)
           (transforms : transformTable) (classFields : list string)
           (this : FlexDto) (dataKey : string) (v : value)
  : completion * FlexDto * list warning :=
  if startsWithUnderscore dataKey then (Returned, this, [])
  else if isUndefined v then (Returned, this, [])
  else
    match targetOf this dataKey classFields aliases with
    | Abrupt e => (Threw e, this, [])
    | Normal targetKey =>
        if shouldAssign targetKey dataKey then
          match targetKey with
          | Some t => pipeline isDev transforms this t v
          | None => (Returned, this, [])
          end
        else (Returned, this, [])
    end.

(** The loop itself: it stops at the first key whose processing throws. *)
Fixpoint initLoop (isDev : bool) (aliases : aliasTable)
         (transforms : transformTable) (classFields : list string)
         (this : FlexDto) (entries : props)
  : completion * FlexDto * list warning :=
  match entries with
  | [] => (Returned, this, [])
  | (dataKey, v) :: rest =>
      match initKey isDev aliases transforms classFields this dataKey v with
      | (Returned, this', ws) =>
          match initLoop isDev aliases transforms classFields this' rest with
          | (c, this'', ws') => (c, this'', ws ++ ws')
          end
      | (Threw e, this', ws) => (Threw e, this', ws)
      end
  end.

(** Index keys ["0"], ["1"], ... of an array. *)
Definition indexKey (i : nat) : string :=
  NilEmpty.string_of_uint (Nat.to_uint i).

Fixpoint indexed (i : nat) (items : list value) : props :=
  match items with
  | [] => []
  | x :: rest => (indexKey i, x) :: indexed (S i) rest
  end.

(** The own enumerable properties the [for ... in] loop visits. *)
Definition ownEntries (data : value) : props :=
  match data with
  | VObject ps => ps
  | VArray items => indexed 0 items
  | VDto _ o _ => o
  | VWrapper (PString s) =>
      indexed 0 (map (fun c => VString (String c EmptyString)) (list_ascii_of_string s))
  | _ => []
  end.

Definition orEmpty {A : Type} (t : option (list (string * A))) : list (string * A) :=
  match t with Some x => x | None => [] end.

(** [options || {}] *)
Definition optionsOrEmpty (options : option InternalOptions) : InternalOptions :=
  match options with Some o => o | None => noOptions end.

(** [{ ...decoratorAliases, ...this._opts.aliases }] *)
Definition mergedAliases (this : FlexDto) : aliasTable :=
  spread (aliasMetadata this) (orEmpty (aliases (_opts this))).

(** [{ ...decoratorTransforms, ...this._opts.transforms }] *)
Definition mergedTransforms (this : FlexDto) : transformTable :=
  spread (transformMetadata this) (orEmpty (transforms (_opts this))).

(** [init(data, options)] (lines 445-533). *)
Definition init (isDev : bool) (this : FlexDto) (data : value)
           (options : option InternalOptions)
  : completion * FlexDto * list warning :=
  if negb (truthy data) || negb (typeof data =? "object") then (Returned, this, [])
  else
    let this1 := withOpts this (optionsOrEmpty options) in
    let aliases := mergedAliases this1 in
    let transforms := mergedTransforms this1 in
    let classFields := getClassFields this1 in
    initLoop isDev aliases transforms classFields this1 (ownEntries data).

(** [toPlain(useSnakeCase)] (lines 539-565), on values: an instance is
    projected to a plain object, every other value is returned as it is.
    The field values are projected first and then read back through the
    class fields, which keeps the recursion structural. *)
Fixpoint toPlainValue (useSnakeCase : bool) (v : value) : value :=
  match v with
  | VDto _ o p =>
      let field (x : value) : value :=
        match x with
        | VArray items => VArray (map (toPlainValue useSnakeCase) items)
        | _ => toPlainValue useSnakeCase x
        end in
      let o' := map (fun kv => (fst kv, field (snd kv))) o in
      let p' := map (fun kv => (fst kv, field (snd kv))) p in
      VObject
        (fold_left
           (fun result key =>
              if isFunction (readProp o p key) || startsWithUnderscore key
              then result
              else
                let outputKey := if useSnakeCase then toSnakeCase key else key in
                setProp outputKey (readProp o' p' key) result)
           (getClassFieldsOf o p) [])
  | _ => v
  end.

Definition asValue (this : FlexDto) : value :=
  VDto (className this) (own this) (proto this).

Definition toPlain (useSnakeCase : bool) (this : FlexDto) : value :=
  toPlainValue useSnakeCase (asValue this).

(** [toJSON()] *)
Definition toJSON (this : FlexDto) : value := toPlain false this.

(* ====================================================================== *)
(** ** Notions used in the statements *)
(* ====================================================================== *)

(** *** Results of [init] *)

(** Projections of the result of [init]. *)
Definition completionOf (r : completion * FlexDto * list warning) : completion :=
  fst (fst r).
Definition instanceOf (r : completion * FlexDto * list warning) : FlexDto :=
  snd (fst r).
Definition warningsOf (r : completion * FlexDto * list warning) : list warning :=
  snd r.

(** Two instances with the same properties. *)
Definition sameFields (a b : FlexDto) : Prop :=
  own a = own b /\ proto a = proto b.

(** *** Field names *)

(** No acronym run: a capital that follows a capital is followed by a
    lowercase letter.  [prev] is the character before [s]. *)
Fixpoint noAcronymRun (prev : ascii) (s : string) : bool :=
  match s with
  | EmptyString => true
  | String c rest =>
      (if isUpper prev && isUpper c
       then match rest with
            | String n _ => isLower n
            | EmptyString => false
            end
       else true)
      && noAcronymRun c rest
  end.

(** A camelCase name whose capitals [toSnakeCase] separates one by one. *)
Definition plainCamelCase (f : string) : bool :=
  camelCasePattern f
  && match f with
     | String c rest => noAcronymRun c rest
     | EmptyString => false
     end.

(** *** The resolution order as worded *)

(** Modelled from the words of the resolution order: the rules are tried
    in the order given and the first that matches decides. *)
Definition firstMatch (rules : list (option string)) : option string :=
  fold_right (fun rule later => match rule with Some f => Some f | None => later end)
             None rules.

Definition aliasListHas (k camel : string) (fieldAliases : list string) : bool :=
  includes k fieldAliases || includes camel fieldAliases.

(** The resolver as the resolution order words it, rules (1) to (6). *)
Definition claimedResolver (this : FlexDto) (k : string)
           (declared : list string) (aliases : aliasTable) : option string :=
  let camel := toCamelCase k in
  firstMatch
    [ (* (1) exact match against a declared field name *)
      (if includes k declared then Some k else None);
      (* (2) toCamel(k) against a declared field name *)
      (if includes camel declared then Some camel else None);
      (* (3) forward alias match *)
      option_map fst
        (find (fun entry => includes (fst entry) declared
                            && aliasListHas k camel (snd entry)) aliases);
      (* (4) reverse alias scan over the declared fields *)
      find (fun field => match lookup field aliases with
                         | Some l => aliasListHas k camel l
                         | None => false
                         end) declared;
      (* (5) fallback: toCamel(k) differs from k and is not callable *)
      (if negb (camel =? k) && negb (isFunction (get this camel))
       then Some camel else None)
      (* (6) otherwise no field *) ].

(** *** Projection and re-population *)

Definition keys {A : Type} (ps : list (string * A)) : list string := map fst ps.

(** The properties [toPlain] reports: not private, not function-valued. *)
Definition isFieldEntry (kv : string * value) : bool :=
  negb (startsWithUnderscore (fst kv)) && negb (isFunction (snd kv)).

Definition isDto (v : value) : bool :=
  match v with VDto _ _ _ => true | _ => false end.

(** A value [toPlain] copies as it is: not an instance, and not an array
    that holds an instance. *)
Definition passesThrough (v : value) : bool :=
  match v with
  | VDto _ _ _ => false
  | VArray items => forallb (fun x => negb (isDto x)) items
  | _ => true
  end.

(** A value that is copied as it is and can be reported. *)
Definition plainValue (v : value) : bool :=
  passesThrough v && negb (stringifyThrows v).

(** A payload value that [init] assigns: defined, not a function, plain. *)
Definition wireValue (v : value) : bool :=
  negb (isUndefined v) && negb (isFunction v) && plainValue v.

(** Populating a fresh instance again from the projected entries: an
    entry holding [undefined] is skipped, any other is assigned. *)
Definition replayEntry (o : props) (kv : string * value) : props :=
  if isUndefined (snd kv) then o else setProp (fst kv) (snd kv) o.

Definition replay (entries o : props) : props := fold_left replayEntry entries o.

(** [upd] has the keys of [o0], each value kept or replaced by an
    assigned one. *)
Definition updates (o0 upd : props) : Prop :=
  Forall2 (fun a b => fst a = fst b
                      /\ (snd b = snd a \/ wireValue (snd b) = true)) o0 upd.

(** [o1] is [o0] after assignments of payload values. *)
Definition extends (o0 o1 : props) : Prop :=
  exists upd ext,
    o1 = upd ++ ext
    /\ updates o0 upd
    /\ Forall (fun kv => wireValue (snd kv) = true) ext
    /\ NoDup (keys o1).

Definition projected (useSnakeCase : bool) (x : value) : value :=
  match x with
  | VArray items => VArray (map (toPlainValue useSnakeCase) items)
  | _ => toPlainValue useSnakeCase x
  end.

Definition plainStep (useSnakeCase : bool) (o p o' p' : props)
           (result : props) (key : string) : props :=
  if isFunction (readProp o p key) || startsWithUnderscore key then result
  else setProp (if useSnakeCase then toSnakeCase key else key)
               (readProp o' p' key) result.

(** The property the loop body assigns, if any; resolving the key may
    throw. *)
Definition writeOf (this : FlexDto) (classFields : list string)
           (aliases : aliasTable) (k : string) (v : value)
  : outcome (option string) :=
  if startsWithUnderscore k then Normal None
  else if isUndefined v then Normal None
  else match targetOf this k classFields aliases with
       | Abrupt e => Abrupt e
       | Normal (Some t) =>
           Normal (if shouldAssign (Some t) k then Some t else None)
       | Normal None => Normal None
       end.

(** The table holds no entry of its own for [k], and [k] names a member
    of [Object.prototype]: [table[k]] is that member. *)
Definition inheritsMember {A : Type} (table : list (string * A)) (k : string)
  : bool :=
  match tableGet k table with
  | Inherited _ => true
  | _ => false
  end.

(** No name of the list is the name of a member of [Object.prototype]. *)
Definition ordinaryNames (names : list string) : bool :=
  forallb (fun f => negb (includes f objectPrototypeMembers)) names.

(** Applied to [x], the transform returns [x] itself, or throws. *)
Definition keeps (t : TransformFn) (x : value) : Prop :=
  forall r, t x = Returns r -> r = x.

(** A transform that maps plain values to plain values, returns its own
    results unchanged when applied to them, and throws only what can be
    printed. *)
Definition steady (t : TransformFn) : Prop :=
  forall v, wireValue v = true ->
    match t v with
    | Returns r => wireValue r = true /\ keeps t r
    | Throws e => printable e = true
    end.

(** A field name that survives the round trip through its snake_case
    spelling on an instance with the class fields [declared]: a camelCase
    name without acronym run that names no member of [Object.prototype],
    whose snake_case spelling is no other class field and, if the name
    is not a class field itself, is in no alias list of a class field. *)
Definition roundTripName (declared : list string) (aliases : aliasTable)
           (f : string) : bool :=
  let s := toSnakeCase f in
  plainCamelCase f
  && negb (includes f objectPrototypeMembers)
  && (if includes f declared
      then (s =? f) || negb (includes s declared)
      else negb (includes s declared)
           && negb (existsb (fun entry => includes (fst entry) declared
                                          && includes s (snd entry))
                            aliases)).

(* ====================================================================== *)
(** ** Sample classes *)
(* ====================================================================== *)

(** A freshly constructed instance whose class declares the given
    initialised fields and no decorators. *)
Definition fresh (cls : string) (fields : props) : FlexDto :=
  mkDto cls false noOptions fields [] [] [].

(** [class User extends FlexDto { userId = ''; userName = ''; }] *)
Definition User : FlexDto :=
  fresh "User" [("userId", VString ""); ("userName", VString "")].

Definition strictOn : option InternalOptions :=
  Some (mkOptions None None (Some true)).

Definition strictOff : option InternalOptions :=
  Some (mkOptions None None (Some false)).

(** The transform
    [(v) => { if (v === "invalid") throw new Error("Invalid"); return v; }]. *)
Definition rejectInvalid : TransformFn :=
  fun v =>
    match v with
    | VString "invalid" => Throws (ErrorObject "Invalid")
    | _ => Returns v
    end.

(** The transform [() => { throw { toString: null }; }]: what it throws
    has no usable [toString], and [String] throws a TypeError on it. *)
Definition throwUnprintable : TransformFn :=
  fun _ => Throws (Unprintable notPrimitiveError).

(** [class Product extends FlexDto { price = 0; }] populated with
    [{ strictMode: true, transforms: { price: ... } }]. *)
Definition Product : FlexDto :=
  fresh "Product" [("price", VNumber 0)].

Definition productOptions : InternalOptions :=
  mkOptions None (Some [("price", rejectInvalid)]) (Some true).

Definition brokenOptions (strict : bool) : option InternalOptions :=
  Some (mkOptions None (Some [("price", throwUnprintable)]) (Some strict)).

(** [class Person extends FlexDto { age = 0; name = ''; }] *)
Definition Person : FlexDto :=
  fresh "Person" [("age", VNumber 0); ("name", VString "")].

(** The payload [{ age: 10n, name: "Kim" }]. *)
Definition bigAge : value :=
  VObject [("age", VBigInt 10); ("name", VString "Kim")].

(** [class NoInitialValueDto extends FlexDto { age: number; name: string;
    isActive: boolean; optionalField?: string; }] of the test suite
    (tests, lines 759-769).  Its constructor calls [init] after
    [super()], when the four declared fields have been defined as own
    properties that hold [undefined]. *)
Definition NoInitialValueDto : FlexDto :=
  fresh "NoInitialValueDto"
        [("age", VUndefined); ("name", VUndefined);
         ("isActive", VUndefined); ("optionalField", VUndefined)].

(** [class Doc extends FlexDto {}] *)
Definition Doc : FlexDto := fresh "Doc" [].

(** [class Order extends FlexDto { orderId = ''; }] with the alias list
    [["order_id", "id"]] for [orderId]. *)
Definition Order : FlexDto :=
  mkDto "Order" false noOptions [("orderId", VString "")] []
        [("orderId", ["order_id"; "id"])] [].

(** [class Address extends FlexDto { address_1 = ''; }] *)
Definition Address : FlexDto :=
  fresh "Address" [("address_1", VString "")].

(** [class Account extends FlexDto { userID = ''; }] *)
Definition Account : FlexDto :=
  fresh "Account" [("userID", VString "")].

(** [class Item extends FlexDto { price = 0; }] populated with the
    transform [price: (v) => typeof v === "number" ? v + 10 : v]. *)
Definition addTen : TransformFn :=
  fun v =>
    match v with
    | VNumber n => Returns (VNumber (n + 10))
    | _ => Returns v
    end.

Definition Item : FlexDto := fresh "Item" [("price", VNumber 0)].

Definition itemOptions : option InternalOptions :=
  Some (mkOptions None (Some [("price", addTen)]) None).

(** [class Odd extends FlexDto { valueOf = 0; name = ''; }] *)
Definition Odd : FlexDto :=
  fresh "Odd" [("valueOf", VNumber 0); ("name", VString "")].

(** [class Stock extends FlexDto { level = -1; }] populated with the
    transform [level: (v) => typeof v === "number" && v < 0 ? 0 : v],
    which returns its own results unchanged. *)
Definition noNegative : TransformFn :=
  fun v =>
    match v with
    | VNumber n => if (n <? 0)%Z then Returns (VNumber 0) else Returns v
    | _ => Returns v
    end.

Definition Stock : FlexDto := fresh "Stock" [("level", VNumber (-1))].

Definition stockOptions : option InternalOptions :=
  Some (mkOptions None (Some [("level", noNegative)]) None).

(** [class Cart extends FlexDto { itemCount = 0; }] populated with the
    same transform for [itemCount]. *)
Definition Cart : FlexDto := fresh "Cart" [("itemCount", VNumber 0)].

Definition cartOptions : option InternalOptions :=
  Some (mkOptions None (Some [("itemCount", noNegative)]) (Some true)).

(** The payload [{ user_id: "U1", nick_name: "kim", userName: undefined }]. *)
Definition userPayload : props :=
  [("user_id", VString "U1"); ("nick_name", VString "kim");
   ("userName", VUndefined)].

(* ====================================================================== *)
(** ** Metadata storage, decorators and the environment
       (index.ts, lines 58-104 and 187-218) *)
(* ====================================================================== *)

(** The two [WeakMap]s are keyed by the prototype object of a class; a
    class is identified here by its name.  A store lists, per class, the
    table its decorators have filled. *)
Definition aliasStore := list (string * aliasTable).
Definition transformStore := list (string * transformTable).

(** [aliasMetadata.get(proto) || {}] *)
Definition getAliases (store : aliasStore) (cls : string) : aliasTable :=
  match lookup cls store with Some t => t | None => [] end.

(** [transformMetadata.get(proto) || {}] *)
Definition getTransforms (store : transformStore) (cls : string) : transformTable :=
  match lookup cls store with Some t => t | None => [] end.

(** [@Alias(...aliases)] on the property [propertyKey] of class [cls]. *)
Definition Alias (aliases : list string) (cls propertyKey : string)
           (store : aliasStore) : aliasStore :=
  let existing := getAliases store cls in
  setProp cls (setProp propertyKey aliases existing) store.

(** [@Transform(fn)] on the property [propertyKey] of class [cls]. *)
Definition Transform (fn : TransformFn) (cls propertyKey : string)
           (store : transformStore) : transformStore :=
  let existing := getTransforms store cls in
  setProp cls (setProp propertyKey fn existing) store.

(** What [isDevelopmentMode] reads: [process.env.NODE_ENV] (absent when
    there is no [process], no [env] or no such variable),
    [globalThis.__FLEX_DTO_STRICT__] and
    [globalThis.window.__FLEX_DTO_STRICT__] (undefined when absent). *)
Record Environment : Type := mkEnv {
  NODE_ENV : option string;
  globalStrictFlag : value;
  windowStrictFlag : value
}.

(** [v === true] *)
Definition isTrue (v : value) : bool :=
  match v with VBool true => true | _ => false end.

(** [isDevelopmentMode()] (lines 187-218). *)
Definition isDevelopmentMode (env : Environment) : bool :=
  match NODE_ENV env with
  | Some "development" => true
  | _ => isTrue (globalStrictFlag env) || isTrue (windowStrictFlag env)
  end.

(** [new C()] before the constructor body calls [init]: the base
    constructor samples the environment, the field initialisers of the
    class define its own properties, and the decorator tables are those
    stored for the class itself. *)
Definition construct (env : Environment) (aliasesOf : aliasStore)
           (transformsOf : transformStore) (cls : string)
           (fields protoProps : props) : FlexDto :=
  mkDto cls (isDevelopmentMode env) noOptions fields protoProps
        (getAliases aliasesOf cls) (getTransforms transformsOf cls).

(* ====================================================================== *)
(** ** Further notions used in the statements *)
(* ====================================================================== *)

(** The string holds an uppercase letter. *)
Fixpoint hasUpper (s : string) : bool :=
  match s with
  | EmptyString => false
  | String c rest => isUpper c || hasUpper rest
  end.

(** The string begins with a digraph [toCamelCase] rewrites. *)
Definition startsMatch (s : string) : bool :=
  match s with
  | String c (String l _) => isUnderscore c && isLower l
  | _ => false
  end.

(** No uppercase letter, and no rewritten digraph directly after
    another one. *)
Fixpoint snakeStable (s : string) : bool :=
  match s with
  | EmptyString => true
  | String c rest =>
      negb (isUpper c)
      && match rest with
         | String l r =>
             if isUnderscore c && isLower l
             then negb (startsMatch r) && snakeStable r
             else snakeStable rest
         | EmptyString => true
         end
  end.

(** The call of a transform throws a value that cannot be printed. *)
Definition throwsUnprintable (r : callResult) : bool :=
  match r with
  | Throws (Unprintable _) => true
  | _ => false
  end.

(** Rules 1 to 3 of [findMatchingField] find nothing for the key. *)
Definition reachesScan (dataKey : string) (classFields : list string)
           (aliases : aliasTable) : bool :=
  negb (includes dataKey classFields)
  && negb (includes (toCamelCase dataKey) classFields)
  && negb (existsb (fun entry =>
                      includes (fst entry) classFields
                      && (includes dataKey (snd entry)
                          || includes (toCamelCase dataKey) (snd entry)))
                   aliases).

(** [findMatchingField] with the scan of rule 4 left out. *)
Definition findMatchingFieldWithoutScan (this : FlexDto) (dataKey : string)
           (classFields : list string) (aliases : aliasTable) : option string :=
  if includes dataKey classFields then Some dataKey
  else
    let camelKey := toCamelCase dataKey in
    if includes camelKey classFields then Some camelKey
    else
      match find (fun entry =>
                    includes (fst entry) classFields
                    && (includes dataKey (snd entry) || includes camelKey (snd entry)))
                 aliases with
      | Some entry => Some (fst entry)
      | None =>
          if negb (camelKey =? "") && negb (camelKey =? dataKey)
             && negb (startsWithUnderscore camelKey)
          then if negb (isFunction (get this camelKey))
               then Some camelKey else None
          else None
      end.

(** The target [init] works with when the scan of rule 4 does not
    throw. *)
Definition resolved (this : FlexDto) (dataKey : string)
           (classFields : list string) (aliases : aliasTable) : option string :=
  fallbackTarget this dataKey
    (findMatchingFieldWithoutScan this dataKey classFields aliases).

(** The fields a data key can be resolved to: the key, its camelCase
    projection, and the owners of the alias lists that hold either. *)
Definition mayTarget (aliases : aliasTable) (k f : string) : bool :=
  (f =? k) || (f =? toCamelCase k)
  || existsb (fun entry => (fst entry =? f)
                           && aliasListHas k (toCamelCase k) (snd entry))
             aliases.

(** What [toPlain] keeps of the class fields. *)
Definition reported (o p : props) (key : string) : bool :=
  negb (isFunction (readProp o p key) || startsWithUnderscore key).

(** [useSnakeCase ? toSnakeCase(key) : key] *)
Definition outputKeyOf (useSnakeCase : bool) (key : string) : string :=
  if useSnakeCase then toSnakeCase key else key.

(** A key that [toCamelCase] leaves unchanged, that is no class field
    and that no alias list of a class field holds. *)
Definition unknownPlainKey (classFields : list string) (aliases : aliasTable)
           (k : string) : bool :=
  (toCamelCase k =? k)
  && negb (includes k classFields)
  && negb (existsb (fun entry => includes (fst entry) classFields
                                 && includes k (snd entry)) aliases).

(** [class Payment extends FlexDto { paymentId = ''; }] populated with
    the aliases [paymentId: ["pay_id", "payId", "id"]] (README, "Custom
    Aliases"). *)
Definition Payment : FlexDto :=
  fresh "Payment" [("paymentId", VString "")].

Definition paymentOptions : option InternalOptions :=
  Some (mkOptions (Some [("paymentId", ["pay_id"; "payId"; "id"])]) None None).

(** A production environment: [NODE_ENV] is ["production"], no flag. *)
Definition production : Environment :=
  mkEnv (Some "production") VUndefined VUndefined.

(* ====================================================================== *)
(** ** Scenarios of the test suite, evaluated on the embedding *)
(* ====================================================================== *)

(** [new User({ user_id: 'U001', user_name: 'John' })] and
    [toPlain(true)] (tests, "Scenario6"; README, "Output to Plain
    Object"). *)
Example snake_case_payload :
  let user := instanceOf (init false User
                               (VObject [("user_id", VString "U001");
                                         ("user_name", VString "John")]) None) in
  get user "userId" = VString "U001"
  /\ get user "userName" = VString "John"
  /\ toPlain true user
     = VObject [("user_id", VString "U001"); ("user_name", VString "John")]
  /\ toJSON user
     = VObject [("userId", VString "U001"); ("userName", VString "John")].
Proof. repeat split. Qed.

(** Aliases: [{ order_id: "O001" }] and [{ id: "O001" }] both populate
    [orderId]. *)
Example alias_payloads :
  get (instanceOf (init false Order (VObject [("order_id", VString "O001")]) None))
      "orderId" = VString "O001"
  /\ get (instanceOf (init false Order (VObject [("id", VString "O001")]) None))
         "orderId" = VString "O001".
Proof. repeat split. Qed.

(** [price = 0] with a transform that throws on ["invalid"] (tests,
    "Scenario4"): the raw value is kept and the failure is reported. *)
Example transform_failure_payload :
  init true Product (VObject [("price", VString "invalid")]) (Some productOptions)
  = (Returned,
     assign (withOpts Product productOptions) "price" (VString "invalid"),
     [TransformFailed "Product" "price" (ErrorObject "Invalid")]).
Proof. reflexivity. Qed.

(** [age = 0], no transform, diagnostics on: [{ age: "30" }] is assigned
    unchanged and one type mismatch naming [age] is reported. *)
Example type_mismatch_payload :
  init true Person (VObject [("age", VString "30")]) strictOn
  = (Returned,
     assign (withOpts Person (mkOptions None None (Some true))) "age" (VString "30"),
     [TypeMismatch "Person" "age" "number" "string" (VString "30")]).
Proof. reflexivity. Qed.

(* ====================================================================== *)
(** ** The populate loop: frame properties *)
(* ====================================================================== *)

Section Loop.

Variable isDev : bool.
Variable aliases : aliasTable.
Variable transforms : transformTable.
Variable classFields : list string.

Lemma initKey_private this k v :
  startsWithUnderscore k = true ->
  initKey isDev aliases transforms classFields this k v = (Returned, this, []).
Proof. intros H. unfold initKey. now rewrite H. Qed.

Lemma initKey_undefined this k :
  initKey isDev aliases transforms classFields this k VUndefined
  = (Returned, this, []).
Proof. unfold initKey. now destruct (startsWithUnderscore k). Qed.

Lemma initLoop_skip this before k after :
  initLoop isDev aliases transforms classFields this
           (before ++ (k, VUndefined) :: after)
  = initLoop isDev aliases transforms classFields this (before ++ after).
Proof.
  revert this. induction before as [|[k0 v0] before IH]; intros this; simpl.
  - rewrite initKey_undefined.
    destruct (initLoop isDev aliases transforms classFields this after)
      as [[c t] ws]. reflexivity.
  - destruct (initKey isDev aliases transforms classFields this k0 v0)
      as [[[|e] t] ws]; [|reflexivity].
    now rewrite IH.
Qed.

End Loop.

(** On a payload with a single key, [init] is the loop body run on the
    instance that carries the options. *)
Lemma init_single_key isDev this k v options :
  let this1 := withOpts this (optionsOrEmpty options) in
  init isDev this (VObject [(k, v)]) options
  = initKey isDev (mergedAliases this1) (mergedTransforms this1)
            (getClassFields this1) this1 k v.
Proof.
  unfold init. simpl.
  destruct (initKey isDev _ _ _ _ k v) as [[[|e] t] ws]; [|reflexivity].
  now rewrite app_nil_r.
Qed.

(* ====================================================================== *)
(** ** Data that is not an object *)
(* ====================================================================== *)

(** C10. If the data argument of [init] is null, undefined or not of
    object type, [init] returns at once: the instance (fields and private
    state alike) is unchanged and no warning is emitted. *)
Theorem init_ignores_non_object_data :
  forall (isDev : bool) (this : FlexDto) (data : value)
         (options : option InternalOptions),
    data = VNull \/ data = VUndefined \/ typeof data <> "object" ->
    init isDev this data options = (Returned, this, []).
Proof.
  intros isDev this data options [-> | [-> | H]]; try reflexivity.
  unfold init. destruct data; simpl in *; try reflexivity;
    try (exfalso; apply H; reflexivity);
    now rewrite orb_true_r.
Qed.

Lemma init_ignores_non_object_data_witness :
  (VString "U001" = VNull \/ VString "U001" = VUndefined
   \/ typeof (VString "U001") <> "object")
  /\ init true User (VString "U001") strictOn = (Returned, User, []).
Proof.
  split.
  - right; right; discriminate.
  - apply (init_ignores_non_object_data true User (VString "U001") strictOn).
    right; right; discriminate.
Defined.

(* ====================================================================== *)
(** ** Keys whose value is undefined *)
(* ====================================================================== *)

(** C9. A payload key whose value is undefined is skipped before any
    resolution: the loop body leaves the instance as it is and emits no
    warning, whatever the alias table, the transform table (so no
    transform result can show) and the class fields are; and a payload
    with such a key is populated exactly like the payload without it. *)
Theorem init_skips_undefined_values :
  forall (isDev : bool) (this : FlexDto) (k : string),
    (forall aliases transforms classFields,
        initKey isDev aliases transforms classFields this k VUndefined
        = (Returned, this, []))
    /\ (forall before after options,
           init isDev this (VObject (before ++ (k, VUndefined) :: after)) options
           = init isDev this (VObject (before ++ after)) options).
Proof.
  intros isDev this k. split.
  - intros. apply initKey_undefined.
  - intros. unfold init. simpl. apply initLoop_skip.
Qed.

(* ====================================================================== *)
(** ** Lists of names and property lists *)
(* ====================================================================== *)

Lemma includes_In k xs : includes k xs = true <-> In k xs.
Proof.
  unfold includes. rewrite existsb_exists. split.
  - intros [x [Hx He]]. apply String.eqb_eq in He. now subst.
  - intros H. exists k. split; [assumption | apply String.eqb_refl].
Qed.

Lemma includes_false k xs : ~ In k xs -> includes k xs = false.
Proof.
  intros H. destruct (includes k xs) eqn:E; [|reflexivity].
  apply includes_In in E. contradiction.
Qed.

Lemma find_none_of_existsb {A : Type} (f : A -> bool) (l : list A) :
  existsb f l = false -> find f l = None.
Proof.
  intros H. destruct (find f l) as [x|] eqn:E; [|reflexivity].
  apply find_some in E as [Hin Hf].
  assert (existsb f l = true) by (apply existsb_exists; now exists x).
  congruence.
Qed.

Lemma eqb_false_of_neq (a b : string) : a <> b -> (a =? b) = false.
Proof.
  intros H. destruct (a =? b) eqn:E; [|reflexivity].
  apply String.eqb_eq in E. contradiction.
Qed.

Section PropertyLists.

Context {A : Type}.
Implicit Types (ps : list (string * A)) (k : string) (v : A).

Lemma lookup_setProp_same k v ps : lookup k (setProp k v ps) = Some v.
Proof.
  induction ps as [|[k' v'] t IH]; simpl.
  - now rewrite String.eqb_refl.
  - destruct (k =? k') eqn:E; simpl.
    + now rewrite String.eqb_refl.
    + now rewrite E.
Qed.

Lemma lookup_setProp_other k k' v ps :
  k <> k' -> lookup k' (setProp k v ps) = lookup k' ps.
Proof.
  intros Hne. induction ps as [|[k0 v0] t IH]; simpl.
  - destruct (k' =? k) eqn:E; [|reflexivity].
    apply String.eqb_eq in E. congruence.
  - destruct (k =? k0) eqn:E; simpl.
    + apply String.eqb_eq in E. subst k0.
      destruct (k' =? k) eqn:E'; [|reflexivity].
      apply String.eqb_eq in E'. congruence.
    + destruct (k' =? k0); [reflexivity | exact IH].
Qed.

Lemma lookup_None k ps : ~ In k (keys ps) -> lookup k ps = None.
Proof.
  induction ps as [|[k' v'] t IH]; simpl; intros H; [reflexivity|].
  destruct (k =? k') eqn:E.
  - apply String.eqb_eq in E. subst. exfalso. apply H. now left.
  - apply IH. intros Hin. apply H. now right.
Qed.

Lemma lookup_In k v ps :
  NoDup (keys ps) -> In (k, v) ps -> lookup k ps = Some v.
Proof.
  induction ps as [|[k' v'] t IH]; simpl; intros Hnd Hin; [contradiction|].
  inversion Hnd as [|? ? Hnotin Hnd']; subst.
  destruct Hin as [Heq | Hin].
  - injection Heq as -> ->. now rewrite String.eqb_refl.
  - destruct (k =? k') eqn:E.
    + apply String.eqb_eq in E. subst k'. exfalso. apply Hnotin.
      change k with (fst (k, v)). now apply in_map.
    + now apply IH.
Qed.

Lemma setProp_notin k v ps :
  ~ In k (keys ps) -> setProp k v ps = ps ++ [(k, v)].
Proof.
  induction ps as [|[k' v'] t IH]; simpl; intros H; [reflexivity|].
  destruct (k =? k') eqn:E.
  - apply String.eqb_eq in E. subst. exfalso. apply H. now left.
  - f_equal. apply IH. intros Hin. apply H. now right.
Qed.

Lemma keys_setProp_in k v ps :
  In k (keys ps) -> keys (setProp k v ps) = keys ps.
Proof.
  induction ps as [|[k' v'] t IH]; simpl; intros H; [contradiction|].
  destruct (k =? k') eqn:E; simpl.
  - apply String.eqb_eq in E. now subst.
  - f_equal. apply IH. destruct H as [H | H]; [|assumption].
    subst. now rewrite String.eqb_refl in E.
Qed.

Lemma setProp_app_in k v ps qs :
  In k (keys ps) -> setProp k v (ps ++ qs) = setProp k v ps ++ qs.
Proof.
  induction ps as [|[k' v'] t IH]; simpl; intros H; [contradiction|].
  destruct (k =? k') eqn:E; simpl; [reflexivity|].
  f_equal. apply IH. destruct H as [H | H]; [|assumption].
  subst. now rewrite String.eqb_refl in E.
Qed.

Lemma setProp_app_notin k v ps qs :
  ~ In k (keys ps) -> setProp k v (ps ++ qs) = ps ++ setProp k v qs.
Proof.
  induction ps as [|[k' v'] t IH]; simpl; intros H; [reflexivity|].
  destruct (k =? k') eqn:E.
  - apply String.eqb_eq in E. subst. exfalso. apply H. now left.
  - f_equal. apply IH. intros Hin. apply H. now right.
Qed.

Lemma NoDup_keys_setProp k v ps :
  NoDup (keys ps) -> NoDup (keys (setProp k v ps)).
Proof.
  intros Hnd. destruct (in_dec string_dec k (keys ps)) as [Hin | Hnotin].
  - now rewrite keys_setProp_in.
  - rewrite (setProp_notin k v ps Hnotin). unfold keys. rewrite map_app.
    simpl. apply NoDup_app; [assumption | repeat constructor; intros [] | ].
    intros x Hx [Hx' | []]. subst. contradiction.
Qed.

Lemma Forall_setProp (P : string * A -> Prop) k v ps :
  P (k, v) -> Forall P ps -> Forall P (setProp k v ps).
Proof.
  intros Hp. induction 1 as [|[k' v'] t Hh Ht IH]; simpl.
  - repeat constructor. assumption.
  - destruct (k =? k'); constructor; assumption.
Qed.

End PropertyLists.

Lemma lookup_Some_In {A : Type} (k : string) (v : A) (ps : list (string * A)) :
  lookup k ps = Some v -> In (k, v) ps.
Proof.
  induction ps as [|[k' v'] t IH]; simpl; [discriminate|].
  destruct (k =? k') eqn:E.
  - apply String.eqb_eq in E. subst. intros H. injection H as ->. now left.
  - intros H. right. now apply IH.
Qed.

(* ====================================================================== *)
(** ** Tables *)
(* ====================================================================== *)

Lemma tableGet_Own {A : Type} (k : string) (table : list (string * A)) a :
  tableGet k table = Own a <-> lookup k table = Some a.
Proof.
  unfold tableGet. destruct (lookup k table) as [a'|].
  - split; intros H; injection H as ->; reflexivity.
  - destruct (includes k objectPrototypeMembers); split; discriminate.
Qed.

Lemma tableGet_Inherited {A : Type} (k : string) (table : list (string * A)) name :
  tableGet k table = Inherited name
  <-> lookup k table = None /\ includes k objectPrototypeMembers = true
      /\ name = k.
Proof.
  unfold tableGet. destruct (lookup k table) as [a'|].
  - split; [discriminate | intros [H _]; discriminate].
  - destruct (includes k objectPrototypeMembers).
    + split; [intros H; injection H as <-; now repeat split|].
      intros [_ [_ ->]]. reflexivity.
    + split; [discriminate | intros [_ [H _]]; discriminate].
Qed.

Lemma tableGet_Absent {A : Type} (k : string) (table : list (string * A)) :
  tableGet k table = Absent
  <-> lookup k table = None /\ includes k objectPrototypeMembers = false.
Proof.
  unfold tableGet. destruct (lookup k table) as [a'|].
  - split; [discriminate | intros [H _]; discriminate].
  - destruct (includes k objectPrototypeMembers).
    + split; [discriminate | intros [_ H]; discriminate].
    + split; [now split | reflexivity].
Qed.

Lemma inheritsMember_spec {A : Type} (table : list (string * A)) k :
  inheritsMember table k = true
  <-> lookup k table = None /\ includes k objectPrototypeMembers = true.
Proof.
  unfold inheritsMember, tableGet. destruct (lookup k table) as [a'|].
  - split; [discriminate | intros [H _]; discriminate].
  - destruct (includes k objectPrototypeMembers).
    + split; [now split | reflexivity].
    + split; [discriminate | intros [_ H]; discriminate].
Qed.

Lemma ordinaryNames_spec names f :
  ordinaryNames names = true -> In f names ->
  includes f objectPrototypeMembers = false.
Proof.
  unfold ordinaryNames. rewrite forallb_forall. intros H Hin.
  apply negb_true_iff. now apply H.
Qed.

(** With ordinary names, no lookup in a table reaches an inherited
    member. *)
Lemma ordinaryNames_inherit {A : Type} (table : list (string * A)) names :
  ordinaryNames names = true -> existsb (inheritsMember table) names = false.
Proof.
  intros H. destruct (existsb (inheritsMember table) names) eqn:E;
    [|reflexivity].
  apply existsb_exists in E as [f [Hin Hf]].
  apply inheritsMember_spec in Hf as [_ Hf].
  rewrite (ordinaryNames_spec names f H Hin) in Hf. discriminate.
Qed.

(** A member of [Object.prototype] called as a transform throws a
    TypeError or returns; what it throws can be printed. *)
Lemma objectPrototypeCall_printable name v e :
  objectPrototypeCall name v = Throws e -> printable e = true.
Proof.
  unfold objectPrototypeCall.
  destruct (name =? "toString"); [discriminate|].
  destruct (name =? "constructor"); [discriminate|].
  destruct (name =? "isPrototypeOf").
  { destruct (isObject v); [|discriminate].
    intros H. injection H as <-. reflexivity. }
  destruct (name =? "__proto__"); [intros H; injection H as <-; reflexivity|].
  destruct (name =? "toLocaleString"); intros H; injection H as <-;
    reflexivity.
Qed.

Lemma transformFor_cases targetKey transforms f :
  transformFor targetKey transforms = Some f ->
  lookup targetKey transforms = Some f
  \/ (lookup targetKey transforms = None
      /\ includes targetKey objectPrototypeMembers = true
      /\ f = objectPrototypeCall targetKey).
Proof.
  unfold transformFor, tableGet.
  destruct (lookup targetKey transforms) as [t|].
  - intros H. injection H as ->. now left.
  - destruct (includes targetKey objectPrototypeMembers); [|discriminate].
    intros H. injection H as <-. right. now repeat split.
Qed.

Lemma transformFor_registered targetKey transforms t :
  lookup targetKey transforms = Some t ->
  transformFor targetKey transforms = Some t.
Proof. unfold transformFor, tableGet. now intros ->. Qed.

Lemma transformFor_None targetKey transforms :
  transformFor targetKey transforms = None
  <-> lookup targetKey transforms = None
      /\ includes targetKey objectPrototypeMembers = false.
Proof.
  unfold transformFor. rewrite <- tableGet_Absent.
  destruct (tableGet targetKey transforms); split; try discriminate;
    reflexivity.
Qed.

(** Only a registered transform can throw what cannot be printed. *)
Lemma transformFor_unprintable targetKey transforms f v e :
  transformFor targetKey transforms = Some f ->
  f v = Throws (Unprintable e) ->
  lookup targetKey transforms = Some f.
Proof.
  intros Hf Hv. destruct (transformFor_cases _ _ _ Hf) as [H | [_ [_ ->]]];
    [assumption|].
  apply objectPrototypeCall_printable in Hv. discriminate.
Qed.

(* ====================================================================== *)
(** ** Field resolution *)
(* ====================================================================== *)

Lemma camelReplace_nonempty c rest : camelReplace (String c rest) <> "".
Proof.
  simpl. destruct rest as [|l r]; [discriminate|].
  destruct (isUnderscore c && isLower l); discriminate.
Qed.

Lemma toCamelCase_empty k : toCamelCase k = "" -> k = "".
Proof.
  destruct k as [|c rest]; [reflexivity|].
  intros H. exfalso. exact (camelReplace_nonempty _ _ H).
Qed.

Lemma toCamelCase_keeps_first k :
  startsWithUnderscore k = false ->
  startsWithUnderscore (toCamelCase k) = false.
Proof.
  destruct k as [|c rest]; [reflexivity|]. simpl. intros Hc.
  destruct rest as [|l r]; simpl; [assumption|].
  rewrite Hc. simpl. assumption.
Qed.

(** *** The scan of rule 4 *)

Lemma scanClassFields_throws k camel aliases cf e :
  scanClassFields k camel aliases cf = Abrupt e ->
  e = includesTypeError /\ existsb (inheritsMember aliases) cf = true.
Proof.
  induction cf as [|f rest IH]; simpl; [discriminate|].
  unfold inheritsMember at 1.
  destruct (tableGet f aliases) as [l | name |].
  - destruct (includes k l || includes camel l); [discriminate|]. exact IH.
  - intros H. injection H as <-. now split.
  - exact IH.
Qed.

Lemma scanClassFields_found k camel aliases cf f :
  scanClassFields k camel aliases cf = Normal (Some f) ->
  In f cf
  /\ exists l, lookup f aliases = Some l /\ aliasListHas k camel l = true.
Proof.
  induction cf as [|f0 rest IH]; simpl; [discriminate|].
  destruct (tableGet f0 aliases) as [l | name |] eqn:Hg.
  - destruct (includes k l || includes camel l) eqn:Hl.
    + intros H. injection H as <-. split; [now left|].
      exists l. split; [now apply tableGet_Own | exact Hl].
    + intros H. destruct (IH H) as [Hin Hex]. split; [now right | exact Hex].
  - discriminate.
  - intros H. destruct (IH H) as [Hin Hex]. split; [now right | exact Hex].
Qed.

(** After the forward alias match of rule 3 has found nothing, the scan
    selects no field: it runs to the end, unless it comes across a class
    field for which the table only has an inherited member. *)
Lemma scanClassFields_after_forward k camel (aliases : aliasTable) all cf :
  (forall f, In f cf -> In f all) ->
  find (fun entry : string * list string =>
          includes (fst entry) all
          && (includes k (snd entry) || includes camel (snd entry)))
       aliases = None ->
  scanClassFields k camel aliases cf
  = if existsb (inheritsMember aliases) cf
    then Abrupt includesTypeError else Normal None.
Proof.
  intros Hsub Hnone. induction cf as [|f rest IH]; [reflexivity|].
  assert (IH' := IH (fun g Hg => Hsub g (or_intror Hg))).
  simpl. unfold inheritsMember at 1.
  destruct (tableGet f aliases) as [l | name |] eqn:Hg; simpl.
  - apply tableGet_Own in Hg. apply lookup_Some_In in Hg.
    pose proof (find_none _ _ Hnone (f, l) Hg) as Hfalse. simpl in Hfalse.
    rewrite (proj2 (includes_In f all) (Hsub f (or_introl eq_refl))) in Hfalse.
    simpl in Hfalse. rewrite Hfalse. exact IH'.
  - reflexivity.
  - exact IH'.
Qed.

Lemma find_none_existsb {A : Type} (f : A -> bool) (l : list A) :
  find f l = None -> existsb f l = false.
Proof.
  intros H. destruct (existsb f l) eqn:E; [|reflexivity].
  apply existsb_exists in E as [x [Hin Hf]].
  rewrite (find_none _ _ H x Hin) in Hf. discriminate.
Qed.

Lemma find_some_existsb {A : Type} (f : A -> bool) (l : list A) x :
  find f l = Some x -> existsb f l = true.
Proof.
  intros H. apply find_some in H as [Hin Hf]. apply existsb_exists. now exists x.
Qed.

(** [findMatchingField] returns what rules 1, 2, 3 and 5 give, unless the
    scan of rule 4 is reached and throws. *)
Lemma findMatchingField_scan this k cf aliases :
  findMatchingField this k cf aliases
  = if reachesScan k cf aliases && existsb (inheritsMember aliases) cf
    then Abrupt includesTypeError
    else Normal (findMatchingFieldWithoutScan this k cf aliases).
Proof.
  unfold findMatchingField, findMatchingFieldWithoutScan, reachesScan.
  destruct (includes k cf); [reflexivity|].
  destruct (includes (toCamelCase k) cf); [reflexivity|]. simpl.
  destruct (find _ aliases) as [entry|] eqn:Hfwd.
  - now rewrite (find_some_existsb _ _ _ Hfwd).
  - rewrite (find_none_existsb _ _ Hfwd). simpl.
    rewrite (scanClassFields_after_forward k (toCamelCase k) aliases cf cf
               (fun f H => H) Hfwd).
    destruct (existsb (inheritsMember aliases) cf); [reflexivity|].
    destruct (negb (toCamelCase k =? "") && negb (toCamelCase k =? k)
              && negb (startsWithUnderscore (toCamelCase k))); [|reflexivity].
    now destruct (negb (isFunction (get this (toCamelCase k)))).
Qed.

Lemma findMatchingField_normal this k cf aliases :
  existsb (inheritsMember aliases) cf = false ->
  findMatchingField this k cf aliases
  = Normal (findMatchingFieldWithoutScan this k cf aliases).
Proof.
  intros H. rewrite findMatchingField_scan, H. now rewrite andb_false_r.
Qed.

Lemma targetOf_scan this k cf aliases :
  targetOf this k cf aliases
  = if reachesScan k cf aliases && existsb (inheritsMember aliases) cf
    then Abrupt includesTypeError
    else Normal (resolved this k cf aliases).
Proof.
  unfold targetOf, resolved. rewrite findMatchingField_scan.
  now destruct (reachesScan k cf aliases && existsb (inheritsMember aliases) cf).
Qed.

Lemma targetOf_normal this k cf aliases :
  existsb (inheritsMember aliases) cf = false ->
  targetOf this k cf aliases = Normal (resolved this k cf aliases).
Proof.
  intros H. rewrite targetOf_scan, H. now rewrite andb_false_r.
Qed.

Lemma targetOf_returns this k cf aliases r :
  targetOf this k cf aliases = Normal r -> r = resolved this k cf aliases.
Proof.
  rewrite targetOf_scan.
  destruct (reachesScan k cf aliases && existsb (inheritsMember aliases) cf);
    [discriminate|].
  intros H. now injection H as <-.
Qed.

Lemma targetOf_throws this k cf aliases e :
  targetOf this k cf aliases = Abrupt e ->
  e = includesTypeError
  /\ reachesScan k cf aliases = true
  /\ existsb (inheritsMember aliases) cf = true.
Proof.
  rewrite targetOf_scan.
  destruct (reachesScan k cf aliases) eqn:Hr; simpl; [|discriminate].
  destruct (existsb (inheritsMember aliases) cf); [|discriminate].
  intros H. injection H as <-. now repeat split.
Qed.

(** When a key is resolved by rule 1, 2 or 3, the scan is not reached. *)
Lemma targetOf_before_scan this k cf aliases :
  reachesScan k cf aliases = false ->
  targetOf this k cf aliases = Normal (resolved this k cf aliases).
Proof. intros H. rewrite targetOf_scan, H. reflexivity. Qed.

(** *** The target when the scan does not throw *)

(** When the forward alias match of rule 3 finds nothing, neither does
    rule (4) of the resolution order as worded. *)
Lemma reverse_scan_finds_nothing k camel classFields (aliases : aliasTable) :
  find (fun entry : string * list string =>
          includes (fst entry) classFields
          && (includes k (snd entry) || includes camel (snd entry)))
       aliases = None ->
  find (fun fieldKey =>
          match lookup fieldKey aliases with
          | Some fieldAliases =>
              includes k fieldAliases || includes camel fieldAliases
          | None => false
          end)
       classFields = None.
Proof.
  intros Hnone.
  destruct (find _ classFields) as [fieldKey|] eqn:Hscan; [|reflexivity].
  apply find_some in Hscan as [Hin Hp].
  destruct (lookup fieldKey aliases) as [l|] eqn:Hl; [|discriminate].
  apply lookup_Some_In in Hl.
  pose proof (find_none _ _ Hnone (fieldKey, l) Hl) as Hfalse.
  simpl in Hfalse. rewrite Hp, andb_true_r in Hfalse.
  apply includes_In in Hin. congruence.
Qed.

(** Rules 1, 2, 3 and 5 give what the resolution order as worded gives,
    for a key that does not begin with an underscore. *)
Lemma withoutScan_claimed this k classFields aliases :
  startsWithUnderscore k = false ->
  findMatchingFieldWithoutScan this k classFields aliases
  = claimedResolver this k classFields aliases.
Proof.
  intros Hk. unfold findMatchingFieldWithoutScan, claimedResolver, firstMatch,
    aliasListHas. simpl.
  destruct (includes k classFields); [reflexivity|].
  destruct (includes (toCamelCase k) classFields); [reflexivity|].
  destruct (find _ aliases) as [entry|] eqn:Hfwd; [reflexivity|]. simpl.
  rewrite (reverse_scan_finds_nothing k (toCamelCase k) classFields aliases Hfwd).
  rewrite (toCamelCase_keeps_first k Hk). simpl. rewrite andb_true_r.
  destruct (toCamelCase k =? "") eqn:He; simpl.
  - apply String.eqb_eq in He. rewrite He.
    apply toCamelCase_empty in He. subst k. reflexivity.
  - destruct (negb (toCamelCase k =? k)); simpl; [|reflexivity].
    destruct (negb (isFunction (get this (toCamelCase k)))); reflexivity.
Qed.

(** The fallback repeated in [init] (lines 476-486) adds nothing to
    [findMatchingField], unless the field found is the empty string. *)
Lemma resolved_withoutScan this k classFields aliases :
  findMatchingFieldWithoutScan this k classFields aliases <> Some "" ->
  resolved this k classFields aliases
  = findMatchingFieldWithoutScan this k classFields aliases.
Proof.
  intros Hne. unfold resolved, fallbackTarget.
  destruct (findMatchingFieldWithoutScan this k classFields aliases)
    as [t|] eqn:Hf.
  - simpl. destruct (t =? "") eqn:E; [|reflexivity].
    apply String.eqb_eq in E. subst. now exfalso.
  - simpl. unfold findMatchingFieldWithoutScan in Hf.
    destruct (includes k classFields); [discriminate|].
    destruct (includes (toCamelCase k) classFields); [discriminate|].
    destruct (find _ aliases); [discriminate|].
    destruct (negb (toCamelCase k =? "")); simpl in *; [|reflexivity].
    destruct (negb (toCamelCase k =? k)); simpl in *; [|reflexivity].
    destruct (negb (startsWithUnderscore (toCamelCase k))); simpl in *;
      [|reflexivity].
    destruct (negb (isFunction (get this (toCamelCase k)))); simpl in *;
      [discriminate | reflexivity].
Qed.

Lemma resolved_found this k classFields aliases t :
  findMatchingFieldWithoutScan this k classFields aliases = Some t -> t <> "" ->
  resolved this k classFields aliases = Some t.
Proof.
  intros Hf Hne. rewrite resolved_withoutScan; [assumption|].
  rewrite Hf. congruence.
Qed.

(** A target that is not the empty string was found by
    [findMatchingField], or is the camelCase key accepted by the
    fallback. *)
Lemma resolved_inv this k classFields aliases t :
  resolved this k classFields aliases = Some t -> t <> "" ->
  findMatchingFieldWithoutScan this k classFields aliases = Some t
  \/ (findMatchingFieldWithoutScan this k classFields aliases = Some ""
      /\ t = toCamelCase k /\ toCamelCase k <> k
      /\ startsWithUnderscore t = false
      /\ isFunction (get this t) = false).
Proof.
  intros Ht Hne.
  destruct (findMatchingFieldWithoutScan this k classFields aliases)
    as [t0|] eqn:Hf.
  - destruct (string_dec t0 "") as [-> | Hne0].
    + unfold resolved, fallbackTarget in Ht. rewrite Hf in Ht. simpl in Ht.
      destruct (toCamelCase k =? "") eqn:E1; simpl in Ht;
        [injection Ht as <-; now exfalso|].
      destruct (toCamelCase k =? k) eqn:E2; simpl in Ht;
        [injection Ht as <-; now exfalso|].
      destruct (startsWithUnderscore (toCamelCase k)) eqn:E3; simpl in Ht;
        [injection Ht as <-; now exfalso|].
      destruct (isFunction (get this (toCamelCase k))) eqn:E4; simpl in Ht;
        [injection Ht as <-; now exfalso|].
      injection Ht as <-. right. repeat split; try assumption.
      intros Heq. rewrite Heq, String.eqb_refl in E2. discriminate.
    + rewrite (resolved_found this k classFields aliases t0 Hf Hne0) in Ht.
      now left.
  - rewrite resolved_withoutScan in Ht; [|rewrite Hf; discriminate].
    rewrite Hf in Ht. discriminate.
Qed.

(** A resolved target that is the data key itself is a class field. *)
Lemma withoutScan_self this k classFields aliases :
  findMatchingFieldWithoutScan this k classFields aliases = Some k ->
  toCamelCase k = k ->
  includes k classFields = true.
Proof.
  unfold findMatchingFieldWithoutScan. intros H Hc. rewrite Hc in H.
  destruct (includes k classFields) eqn:Hin; [reflexivity|].
  destruct (find _ aliases) as [entry|] eqn:Ha.
  - injection H as H. apply find_some in Ha as [_ Ha].
    apply andb_true_iff in Ha as [Ha _]. rewrite H in Ha. congruence.
  - rewrite String.eqb_refl in H. simpl in H.
    rewrite andb_false_r in H. discriminate.
Qed.

Lemma withoutScan_cases this k classFields aliases t :
  findMatchingFieldWithoutScan this k classFields aliases = Some t ->
  In t classFields
  \/ (t = toCamelCase k /\ t <> k /\ startsWithUnderscore t = false
      /\ isFunction (get this t) = false
      /\ reachesScan k classFields aliases = true).
Proof.
  unfold findMatchingFieldWithoutScan, reachesScan.
  destruct (includes k classFields) eqn:H1.
  { intros H. injection H as <-. left. now apply includes_In. }
  destruct (includes (toCamelCase k) classFields) eqn:H2.
  { intros H. injection H as <-. left. now apply includes_In. }
  destruct (find _ aliases) as [entry|] eqn:H3.
  { intros H. injection H as <-. apply find_some in H3 as [_ H3].
    apply andb_true_iff in H3 as [H3 _]. left. now apply includes_In. }
  rewrite (find_none_existsb _ _ H3).
  destruct (toCamelCase k =? "") eqn:E1; simpl; [discriminate|].
  destruct (toCamelCase k =? k) eqn:E2; simpl; [discriminate|].
  destruct (startsWithUnderscore (toCamelCase k)) eqn:E3; simpl; [discriminate|].
  destruct (isFunction (get this (toCamelCase k))) eqn:E4; simpl; [discriminate|].
  intros H. injection H as <-. right. repeat split; try assumption.
  intros Heq. rewrite Heq, String.eqb_refl in E2. discriminate.
Qed.

Lemma resolved_cases this k classFields aliases t :
  resolved this k classFields aliases = Some t ->
  In t classFields
  \/ (t = toCamelCase k /\ t <> k /\ startsWithUnderscore t = false
      /\ isFunction (get this t) = false).
Proof.
  unfold resolved, fallbackTarget.
  assert (Hw : findMatchingFieldWithoutScan this k classFields aliases = Some t ->
               In t classFields
               \/ (t = toCamelCase k /\ t <> k /\ startsWithUnderscore t = false
                   /\ isFunction (get this t) = false)).
  { intros H. destruct (withoutScan_cases _ _ _ _ _ H)
      as [Hin | [H1 [H2 [H3 [H4 _]]]]]; [now left | right; now repeat split]. }
  destruct (isFalsyKey (findMatchingFieldWithoutScan this k classFields aliases)
            && negb (toCamelCase k =? "") && negb (toCamelCase k =? k)) eqn:E;
    [|exact Hw].
  apply andb_true_iff in E as [_ E2]. apply negb_true_iff in E2.
  destruct (startsWithUnderscore (toCamelCase k)) eqn:E3; simpl; [exact Hw|].
  destruct (isFunction (get this (toCamelCase k))) eqn:E4; simpl; [exact Hw|].
  intros H. injection H as <-. right. repeat split; try assumption.
  intros Heq. rewrite Heq, String.eqb_refl in E2. discriminate.
Qed.

Lemma withoutScan_mayTarget this k classFields aliases t :
  findMatchingFieldWithoutScan this k classFields aliases = Some t ->
  mayTarget aliases k t = true.
Proof.
  unfold findMatchingFieldWithoutScan, mayTarget.
  destruct (includes k classFields).
  { intros H. injection H as <-. now rewrite String.eqb_refl. }
  destruct (includes (toCamelCase k) classFields).
  { intros H. injection H as <-. rewrite String.eqb_refl. apply orb_true_iff.
    left. apply orb_true_r. }
  destruct (find _ aliases) as [entry|] eqn:H3.
  { intros H. injection H as <-. apply find_some in H3 as [Hin H3].
    apply andb_true_iff in H3 as [_ H3].
    apply orb_true_iff. right. apply existsb_exists. exists entry.
    split; [assumption|]. unfold aliasListHas.
    now rewrite String.eqb_refl, H3. }
  destruct (negb (toCamelCase k =? "") && negb (toCamelCase k =? k)
            && negb (startsWithUnderscore (toCamelCase k))); [|discriminate].
  destruct (negb (isFunction (get this (toCamelCase k)))); [|discriminate].
  intros H. injection H as <-. rewrite String.eqb_refl.
  apply orb_true_iff. left. apply orb_true_r.
Qed.

Lemma resolved_mayTarget this k classFields aliases t :
  resolved this k classFields aliases = Some t ->
  mayTarget aliases k t = true.
Proof.
  unfold resolved, fallbackTarget.
  destruct (isFalsyKey (findMatchingFieldWithoutScan this k classFields aliases)
            && negb (toCamelCase k =? "") && negb (toCamelCase k =? k));
    [|apply withoutScan_mayTarget].
  destruct (negb (startsWithUnderscore (toCamelCase k)));
    [|apply withoutScan_mayTarget].
  destruct (negb (isFunction (get this (toCamelCase k))));
    [|apply withoutScan_mayTarget].
  intros H. injection H as <-. unfold mayTarget. rewrite String.eqb_refl.
  apply orb_true_iff. left. apply orb_true_r.
Qed.

(** Resolution looks at the instance only to probe the camelCase name. *)
Lemma withoutScan_stable a b s classFields aliases t :
  (isFunction (get a (toCamelCase s)) = false ->
   isFunction (get b (toCamelCase s)) = false) ->
  findMatchingFieldWithoutScan a s classFields aliases = Some t ->
  findMatchingFieldWithoutScan b s classFields aliases = Some t.
Proof.
  intros Hab. unfold findMatchingFieldWithoutScan.
  destruct (includes s classFields); [trivial|].
  destruct (includes (toCamelCase s) classFields); [trivial|].
  destruct (find _ aliases); [trivial|].
  destruct (negb (toCamelCase s =? "") && negb (toCamelCase s =? s)
            && negb (startsWithUnderscore (toCamelCase s))); [|trivial].
  destruct (isFunction (get a (toCamelCase s))) eqn:Ha; simpl;
    [discriminate|].
  now rewrite (Hab eq_refl).
Qed.

Lemma resolved_stable a b s classFields aliases t :
  (isFunction (get a (toCamelCase s)) = false ->
   isFunction (get b (toCamelCase s)) = false) ->
  t <> "" ->
  resolved a s classFields aliases = Some t ->
  resolved b s classFields aliases = Some t.
Proof.
  intros Hab Hne Ht.
  destruct (resolved_inv a s classFields aliases t Ht Hne)
    as [Hf | [Hf [-> [Hdiff [Hu Hfun]]]]].
  - apply resolved_found; [|assumption].
    exact (withoutScan_stable a b s classFields aliases t Hab Hf).
  - pose proof (withoutScan_stable a b s classFields aliases "" Hab Hf) as Hfb.
    unfold resolved, fallbackTarget. rewrite Hfb. simpl.
    rewrite (eqb_false_of_neq _ _ Hne), (eqb_false_of_neq _ _ Hdiff).
    rewrite Hu, (Hab Hfun). reflexivity.
Qed.

Lemma get_sameFields a b k : sameFields a b -> get a k = get b k.
Proof. intros [Ho Hp]. unfold get. now rewrite Ho, Hp. Qed.

Lemma targetOf_sameFields a b k classFields aliases :
  sameFields a b ->
  targetOf a k classFields aliases = targetOf b k classFields aliases.
Proof.
  intros H. rewrite !targetOf_scan.
  unfold resolved, fallbackTarget, findMatchingFieldWithoutScan.
  now rewrite (get_sameFields a b (toCamelCase k) H).
Qed.

Lemma assign_sameFields a b t v :
  sameFields a b -> sameFields (assign a t v) (assign b t v).
Proof. intros [Ho Hp]. split; simpl; [now rewrite Ho | assumption]. Qed.

Lemma get_assign this k v c :
  get (assign this k v) c = if c =? k then v else get this c.
Proof.
  unfold get, assign, readProp. simpl.
  destruct (c =? k) eqn:E.
  - apply String.eqb_eq in E. subst. now rewrite lookup_setProp_same.
  - rewrite lookup_setProp_other; [reflexivity|].
    intros ->. now rewrite String.eqb_refl in E.
Qed.

(** *** The assignment guard *)

Lemma shouldAssign_true t k :
  shouldAssign (Some t) k = true ->
  t <> ""
  /\ startsWithUnderscore t = false
  /\ (t = toCamelCase k \/ includesUnderscore k = false).
Proof.
  unfold shouldAssign. intros H.
  apply andb_true_iff in H as [H H2].
  apply andb_true_iff in H as [H0 H1].
  apply negb_true_iff in H0. apply negb_true_iff in H1.
  split; [intros ->; discriminate|]. split; [assumption|].
  apply orb_true_iff in H2 as [H2 | H2].
  - left. now apply String.eqb_eq.
  - right. now apply negb_true_iff.
Qed.

(** *** What the loop body writes *)

Lemma writeOf_Some this classFields aliases k v t :
  writeOf this classFields aliases k v = Normal (Some t) ->
  startsWithUnderscore k = false /\ isUndefined v = false
  /\ targetOf this k classFields aliases = Normal (Some t)
  /\ resolved this k classFields aliases = Some t
  /\ shouldAssign (Some t) k = true.
Proof.
  unfold writeOf.
  destruct (startsWithUnderscore k); [discriminate|].
  destruct (isUndefined v); [discriminate|].
  destruct (targetOf this k classFields aliases) as [[t0|]|e] eqn:Ht;
    [|discriminate|discriminate].
  destruct (shouldAssign (Some t0) k) eqn:Hs; [|discriminate].
  intros H. injection H as <-. repeat split; try assumption.
  symmetry. exact (targetOf_returns _ _ _ _ _ Ht).
Qed.

Lemma writeOf_throws this classFields aliases k v e :
  writeOf this classFields aliases k v = Abrupt e ->
  e = includesTypeError
  /\ existsb (inheritsMember aliases) classFields = true.
Proof.
  unfold writeOf.
  destruct (startsWithUnderscore k); [discriminate|].
  destruct (isUndefined v); [discriminate|].
  destruct (targetOf this k classFields aliases) as [[t0|]|e0] eqn:Ht;
    [discriminate|discriminate|].
  intros H. injection H as <-.
  destruct (targetOf_throws _ _ _ _ _ Ht) as [He [_ Hi]]. now split.
Qed.

(** The loop body in terms of [writeOf]: nothing happens when no
    property is to be assigned, the pipeline runs when one is, and the
    error of the resolution is passed on. *)
Lemma initKey_writeOf isDev aliases transforms classFields this k v :
  initKey isDev aliases transforms classFields this k v
  = match writeOf this classFields aliases k v with
    | Normal (Some t) => pipeline isDev transforms this t v
    | Normal None => (Returned, this, [])
    | Abrupt e => (Threw e, this, [])
    end.
Proof.
  unfold initKey, writeOf.
  destruct (startsWithUnderscore k); [reflexivity|].
  destruct (isUndefined v); [reflexivity|].
  destruct (targetOf this k classFields aliases) as [[t|]|e]; try reflexivity.
  destruct (shouldAssign (Some t) k); reflexivity.
Qed.

(* ====================================================================== *)
(** ** The populate operation: what one run can do *)
(* ====================================================================== *)

Ltac split_all := repeat match goal with |- _ /\ _ => split end.

(** Reporting a type mismatch is the only step of [validateType] that
    can throw. *)
Lemma validateType_returns isDev this key v expected :
  isDev && effectiveStrict this && stringifyThrows v = false ->
  fst (validateType isDev this key v expected) = Returned.
Proof.
  unfold validateType. intros H.
  destruct (effectiveStrict this); simpl; [|reflexivity].
  match goal with |- context [negb ?b] => destruct b end; simpl;
    [reflexivity|].
  destruct isDev; simpl in *; [|reflexivity].
  now rewrite H.
Qed.

Lemma validateType_facts isDev this key v expected :
  let r := validateType isDev this key v expected in
  (length (snd r) <= 1)%nat
  /\ (isDev && effectiveStrict this = false -> r = (Returned, []))
  /\ (forall e, fst r = Threw e ->
                e = bigIntTypeError /\ isDev = true
                /\ effectiveStrict this = true /\ stringifyThrows v = true
                /\ snd r = []).
Proof.
  cbv zeta. unfold validateType.
  destruct (effectiveStrict this); simpl;
    [|split_all; try lia; try reflexivity; discriminate].
  match goal with |- context [negb ?b] => destruct b end; simpl;
    [split_all; try lia; try reflexivity; discriminate|].
  destruct isDev; simpl;
    [|split_all; try lia; try reflexivity; discriminate].
  destruct (stringifyThrows v); simpl; split_all; try lia; try discriminate.
  intros e H. injection H as <-. now repeat split.
Qed.

(** What the pipeline can do: assign the target or leave the instance
    alone; emit at most one warning, and none without diagnostics; throw
    only under diagnostics, either the TypeError of [JSON.stringify] or
    what [String] throws on the error of a registered transform. *)
Lemma pipeline_facts isDev transforms this t v :
  let r := pipeline isDev transforms this t v in
  (instanceOf r = this \/ exists v', instanceOf r = assign this t v')
  /\ (length (warningsOf r) <= 1)%nat
  /\ (isDev && effectiveStrict this = false ->
      warningsOf r = [] /\ completionOf r = Returned)
  /\ (forall e, completionOf r = Threw e ->
                isDev = true /\ effectiveStrict this = true
                /\ instanceOf r = this
                /\ ((e = bigIntTypeError /\ stringifyThrows v = true
                     /\ transformFor t transforms = None)
                    \/ (exists f, lookup t transforms = Some f
                                  /\ f v = Throws (Unprintable e))))
  /\ (transformFor t transforms = None -> completionOf r = Returned ->
      instanceOf r = assign this t v).
Proof.
  cbv zeta. unfold pipeline.
  destruct (transformFor t transforms) as [f|] eqn:Hf.
  - destruct (f v) as [res | err] eqn:Hv.
    + unfold instanceOf, warningsOf, completionOf; simpl. split_all;
        try (right; eexists; reflexivity); try lia; try discriminate.
      intros _. now split.
    + destruct (effectiveStrict this) eqn:Hs, isDev; simpl;
        try (unfold instanceOf, warningsOf, completionOf; simpl; split_all;
             try (right; eexists; reflexivity); try lia; try discriminate;
             intros _; now split).
      destruct err as [message | text | raised];
        unfold instanceOf, warningsOf, completionOf; simpl; split_all;
        try (right; eexists; reflexivity); try (left; reflexivity);
        try lia; try discriminate.
      intros e H. injection H as <-. split_all; try reflexivity.
      right. exists f. split; [|exact Hv].
      exact (transformFor_unprintable t transforms f v raised Hf Hv).
  - destruct (negb (isUndefined (get this t)));
      [|unfold instanceOf, warningsOf, completionOf; simpl; split_all;
        try (right; eexists; reflexivity); try lia; try discriminate;
        try reflexivity; intros _; now split].
    destruct (effectiveStrict this) eqn:Hs;
      [|unfold instanceOf, warningsOf, completionOf; simpl; split_all;
        try (right; eexists; reflexivity); try lia; try discriminate;
        try reflexivity; intros _; now split].
    destruct (validateType_facts isDev this t v (typeof (get this t)))
      as [Hl [Hq Ht]]. rewrite Hs, andb_true_r in Hq. rewrite Hs in Ht.
    destruct (validateType isDev this t v (typeof (get this t)))
      as [[|e0] ws]; unfold instanceOf, warningsOf, completionOf; simpl in *;
      split_all; try (right; eexists; reflexivity); try (left; reflexivity);
      try assumption; try discriminate; try reflexivity.
    + intros Hoff. rewrite andb_true_r in Hoff. specialize (Hq Hoff).
      injection Hq as ->. now split.
    + intros Hoff. rewrite andb_true_r in Hoff. specialize (Hq Hoff).
      discriminate.
    + intros e H. injection H as <-.
      destruct (Ht e0 eq_refl) as [H1 [H2 [_ [H4 _]]]].
      split_all; try assumption; try reflexivity. left. now repeat split.
Qed.

Lemma initKey_facts isDev aliases transforms classFields this k v :
  let r := initKey isDev aliases transforms classFields this k v in
  (instanceOf r = this
   \/ exists t v', instanceOf r = assign this t v'
                   /\ writeOf this classFields aliases k v = Normal (Some t))
  /\ (length (warningsOf r) <= 1)%nat
  /\ (isDev && effectiveStrict this = false -> warningsOf r = [])
  /\ (forall e, completionOf r = Threw e ->
        instanceOf r = this
        /\ ((e = includesTypeError
             /\ existsb (inheritsMember aliases) classFields = true)
            \/ (isDev = true /\ effectiveStrict this = true
                /\ ((e = bigIntTypeError /\ stringifyThrows v = true)
                    \/ (exists f t, lookup f transforms = Some t
                                    /\ isUndefined v = false
                                    /\ t v = Throws (Unprintable e)))))).
Proof.
  cbv zeta. rewrite initKey_writeOf.
  destruct (writeOf this classFields aliases k v) as [[t|]|e0] eqn:Hw.
  - destruct (pipeline_facts isDev transforms this t v)
      as [Hi [Hl [Hq [Ht _]]]].
    split; [|split; [assumption | split]].
    + destruct Hi as [Hi | [v' Hi]]; [now left|].
      right. exists t, v'. now split.
    + intros Hoff. exact (proj1 (Hq Hoff)).
    + intros e He. destruct (Ht e He) as [H1 [H2 [H3 H4]]].
      split; [assumption | right]. split_all; try assumption.
      destruct H4 as [[H4 [H5 _]] | [f [H4 H5]]].
      * left. now split.
      * right. exists t, f.
        destruct (writeOf_Some _ _ _ _ _ _ Hw) as [_ [Hv _]]. now repeat split.
  - unfold instanceOf, warningsOf, completionOf; simpl.
    split_all; try (now left); try lia; try reflexivity; discriminate.
  - destruct (writeOf_throws _ _ _ _ _ _ Hw) as [-> Hi].
    unfold instanceOf, warningsOf, completionOf; simpl.
    split_all; try (now left); try lia; try reflexivity.
    intros e H. injection H as <-. split; [reflexivity | left; now split].
Qed.

(** The loop body never touches the private state, the prototype chain
    or the decorator tables. *)
Lemma initKey_private_state isDev aliases transforms classFields this k v :
  let this' := instanceOf (initKey isDev aliases transforms classFields this k v) in
  _opts this' = _opts this /\ _strictMode this' = _strictMode this
  /\ className this' = className this /\ proto this' = proto this
  /\ aliasMetadata this' = aliasMetadata this
  /\ transformMetadata this' = transformMetadata this.
Proof.
  cbv zeta.
  destruct (initKey_facts isDev aliases transforms classFields this k v)
    as [[-> | [t [v' [-> _]]]] _]; repeat split.
Qed.

Lemma effectiveStrict_initKey isDev aliases transforms classFields this k v :
  effectiveStrict
    (instanceOf (initKey isDev aliases transforms classFields this k v))
  = effectiveStrict this.
Proof.
  destruct (initKey_private_state isDev aliases transforms classFields this k v)
    as [Ho [Hs _]].
  unfold effectiveStrict. now rewrite Ho, Hs.
Qed.

Lemma initLoop_facts isDev aliases transforms classFields entries :
  forall this,
    let r := initLoop isDev aliases transforms classFields this entries in
    (length (warningsOf r) <= length entries)%nat
    /\ (isDev && effectiveStrict this = false -> warningsOf r = [])
    /\ (forall e, completionOf r = Threw e ->
          (e = includesTypeError
           /\ existsb (inheritsMember aliases) classFields = true)
          \/ (isDev = true /\ effectiveStrict this = true
              /\ ((e = bigIntTypeError
                   /\ existsb (fun kv => stringifyThrows (snd kv)) entries = true)
                  \/ (exists k v f t,
                         In (k, v) entries /\ lookup f transforms = Some t
                         /\ isUndefined v = false
                         /\ t v = Throws (Unprintable e))))).
Proof.
  induction entries as [|[k v] rest IH]; intros this.
  - unfold warningsOf, completionOf; simpl. repeat split; try lia; discriminate.
  - cbv zeta. simpl initLoop.
    destruct (initKey_facts isDev aliases transforms classFields this k v)
      as [_ [Hl [Hq Ht]]].
    pose proof (effectiveStrict_initKey isDev aliases transforms classFields
                  this k v) as He.
    destruct (initKey isDev aliases transforms classFields this k v)
      as [[[|e0] this'] ws]; unfold instanceOf, warningsOf, completionOf in *;
      simpl in *.
    + specialize (IH this'). cbv zeta in IH.
      destruct (initLoop isDev aliases transforms classFields this' rest)
        as [[c this''] ws']. simpl in *.
      destruct IH as [IHl [IHq IHt]]. rewrite He in IHq, IHt.
      split; [rewrite length_app; lia|]. split.
      * intros Hoff. now rewrite (Hq Hoff), (IHq Hoff).
      * intros e Hc.
        destruct (IHt e Hc) as [H | [H1 [H2 [[H3 H4] | [k' [v' [f [t [H3 H4]]]]]]]]].
        -- now left.
        -- right. split_all; try assumption. left. split; [assumption|].
           rewrite H4. apply orb_true_r.
        -- right. split_all; try assumption. right.
           exists k', v', f, t. split; [now right | assumption].
    + split; [lia|]. split; [assumption|].
      intros e Hc.
      destruct (Ht e Hc) as [_ [H | [H1 [H2 [[H3 H4] | [f [t [H3 H4]]]]]]]].
      * now left.
      * right. split_all; try assumption. left. split; [assumption|].
        now rewrite H4.
      * right. split_all; try assumption. right.
        exists k, v, f, t. split; [now left | now split].
Qed.

Lemma init_facts isDev this data options :
  let this1 := withOpts this (optionsOrEmpty options) in
  let r := init isDev this data options in
  (length (warningsOf r) <= length (ownEntries data))%nat
  /\ (isDev && effectiveStrict this1 = false -> warningsOf r = [])
  /\ (forall e, completionOf r = Threw e ->
        (e = includesTypeError
         /\ existsb (inheritsMember (mergedAliases this1))
                    (getClassFields this1) = true)
        \/ (isDev = true /\ effectiveStrict this1 = true
            /\ ((e = bigIntTypeError
                 /\ existsb (fun kv => stringifyThrows (snd kv))
                            (ownEntries data) = true)
                \/ (exists k v f t,
                       In (k, v) (ownEntries data)
                       /\ lookup f (mergedTransforms this1) = Some t
                       /\ isUndefined v = false
                       /\ t v = Throws (Unprintable e))))).
Proof.
  cbv zeta. unfold init.
  destruct (negb (truthy data) || negb (typeof data =? "object")).
  - unfold warningsOf, completionOf; simpl. repeat split; try lia; discriminate.
  - apply initLoop_facts.
Qed.

(** A property of the instance kept by every run of the loop body is
    kept by the loop. *)
Lemma initLoop_invariant isDev aliases transforms classFields
      (P : FlexDto -> Prop) :
  (forall this k v,
      P this ->
      P (instanceOf (initKey isDev aliases transforms classFields this k v))) ->
  forall entries this,
    P this ->
    P (instanceOf (initLoop isDev aliases transforms classFields this entries)).
Proof.
  intros Hstep. induction entries as [|[k v] rest IH]; intros this HP;
    [assumption|].
  simpl. specialize (Hstep this k v HP).
  destruct (initKey isDev aliases transforms classFields this k v)
    as [[[|e] this'] ws]; unfold instanceOf in *; simpl in *; [|assumption].
  specialize (IH this' Hstep).
  destruct (initLoop isDev aliases transforms classFields this' rest)
    as [[c this''] ws']. exact IH.
Qed.

(** The same, for a property that may depend on the payload entry being
    processed. *)
Lemma initLoop_invariant_entries isDev aliases transforms classFields
      (P : FlexDto -> Prop) entries :
  (forall this k v,
      In (k, v) entries -> P this ->
      P (instanceOf (initKey isDev aliases transforms classFields this k v))) ->
  forall this,
    P this ->
    P (instanceOf (initLoop isDev aliases transforms classFields this entries)).
Proof.
  induction entries as [|[k v] rest IH]; intros Hstep this HP; [assumption|].
  simpl. pose proof (Hstep this k v (or_introl eq_refl) HP) as Hk.
  destruct (initKey isDev aliases transforms classFields this k v)
    as [[[|e] this'] ws]; unfold instanceOf in *; simpl in *; [|assumption].
  specialize (IH (fun st k0 v0 Hin => Hstep st k0 v0 (or_intror Hin)) this' Hk).
  destruct (initLoop isDev aliases transforms classFields this' rest)
    as [[c this''] ws']. exact IH.
Qed.

Lemma init_invariant isDev this data options (P : FlexDto -> Prop) :
  P this ->
  P (withOpts this (optionsOrEmpty options)) ->
  (forall aliases transforms classFields st k v,
      P st ->
      P (instanceOf (initKey isDev aliases transforms classFields st k v))) ->
  P (instanceOf (init isDev this data options)).
Proof.
  intros H0 H1 Hstep. unfold init.
  destruct (negb (truthy data) || negb (typeof data =? "object"));
    [exact H0|].
  apply initLoop_invariant; [apply Hstep | exact H1].
Qed.

Lemma initLoop_cons isDev aliases transforms classFields this k v rest :
  completionOf (initKey isDev aliases transforms classFields this k v) = Returned ->
  let next := instanceOf (initKey isDev aliases transforms classFields this k v) in
  let r := initLoop isDev aliases transforms classFields this ((k, v) :: rest) in
  let r' := initLoop isDev aliases transforms classFields next rest in
  completionOf r = completionOf r' /\ instanceOf r = instanceOf r'.
Proof.
  simpl.
  destruct (initKey isDev aliases transforms classFields this k v)
    as [[c this'] ws]. unfold completionOf, instanceOf. simpl.
  intros ->.
  destruct (initLoop isDev aliases transforms classFields this' rest)
    as [[c' this''] ws']. split; reflexivity.
Qed.

(* ====================================================================== *)
(** ** The class fields *)
(* ====================================================================== *)

Lemma setAdd_In k x acc : In k (setAdd x acc) <-> k = x \/ In k acc.
Proof.
  unfold setAdd. destruct (includes x acc) eqn:E.
  - apply includes_In in E. split; [now right|]. intros [-> | H]; assumption.
  - rewrite in_app_iff. simpl. intuition.
Qed.

Lemma setAdd_NoDup x acc : NoDup acc -> NoDup (setAdd x acc).
Proof.
  intros Hnd. unfold setAdd. destruct (includes x acc) eqn:E; [assumption|].
  apply NoDup_app; [assumption | repeat constructor; intros [] |].
  intros y Hy [Heq | []]. subst y.
  apply (proj2 (includes_In x acc)) in Hy. congruence.
Qed.

Section ConditionalAdd.

Context {A : Type}.
Variable test : A -> bool.
Variable name : A -> string.

Let condAdd (acc : list string) (x : A) : list string :=
  if test x then setAdd (name x) acc else acc.

Lemma condAdd_In acc x k :
  In k (condAdd acc x) <-> In k acc \/ (test x = true /\ name x = k).
Proof.
  unfold condAdd. destruct (test x).
  - rewrite setAdd_In. split.
    + intros [-> | H]; [right; now split | now left].
    + intros [H | [_ <-]]; [now right | now left].
  - split; [now left | intros [H | [H _]]; [assumption | discriminate]].
Qed.

Lemma fold_condAdd_In l : forall acc k,
  In k (fold_left condAdd l acc)
  <-> In k acc \/ exists x, In x l /\ test x = true /\ name x = k.
Proof.
  induction l as [|x l IH]; intros acc k; simpl.
  - split; [now left | intros [H | [x [[] _]]]; assumption].
  - rewrite IH, condAdd_In. split.
    + intros [[H | [Ht Hn]] | [y [Hy [Ht Hn]]]].
      * now left.
      * right. exists x. repeat split; [now left | assumption | assumption].
      * right. exists y. repeat split; [now right | assumption | assumption].
    + intros [H | [y [[-> | Hy] [Ht Hn]]]].
      * left. now left.
      * left. right. now split.
      * right. exists y. repeat split; assumption.
Qed.

Lemma fold_condAdd_NoDup l : forall acc,
  NoDup acc -> NoDup (fold_left condAdd l acc).
Proof.
  induction l as [|x l IH]; intros acc Hnd; [assumption|]. simpl.
  apply IH. unfold condAdd. destruct (test x); [now apply setAdd_NoDup | assumption].
Qed.

End ConditionalAdd.

Lemma fold_left_pointwise {A B : Type} (f g : A -> B -> A) l :
  (forall a b, f a b = g a b) ->
  forall a, fold_left f l a = fold_left g l a.
Proof.
  intros H. induction l as [|b l IH]; intros a; [reflexivity|].
  simpl. now rewrite H, IH.
Qed.

(** [getClassFieldsOf] as two conditional additions. *)
Lemma getClassFieldsOf_folds o p :
  getClassFieldsOf o p
  = fold_left
      (fun acc (pv : string * value) =>
         if negb (fst pv =? "constructor") && negb (startsWithUnderscore (fst pv))
            && negb (isFunction (snd pv))
         then setAdd (fst pv) acc else acc)
      p
      (fold_left
         (fun acc prop =>
            if negb (startsWithUnderscore prop)
               && negb (isFunction (readProp o p prop))
            then setAdd prop acc else acc)
         (keys o) []).
Proof.
  unfold getClassFieldsOf, keys.
  rewrite (fold_left_pointwise
             (fun fields prop =>
                if negb (startsWithUnderscore prop)
                then if negb (isFunction (readProp o p prop))
                     then setAdd prop fields else fields
                else fields)
             (fun acc prop =>
                if negb (startsWithUnderscore prop)
                   && negb (isFunction (readProp o p prop))
                then setAdd prop acc else acc)).
  - apply fold_left_pointwise. intros a [k v]. simpl.
    destruct (negb (k =? "constructor") && negb (startsWithUnderscore k)),
      (negb (isFunction v)); reflexivity.
  - intros a b.
    destruct (negb (startsWithUnderscore b)),
      (negb (isFunction (readProp o p b))); reflexivity.
Qed.

Lemma getClassFieldsOf_In o p k :
  In k (getClassFieldsOf o p)
  <-> startsWithUnderscore k = false
      /\ ((In k (keys o) /\ isFunction (readProp o p k) = false)
          \/ (k <> "constructor"
              /\ exists v, In (k, v) p /\ isFunction v = false)).
Proof.
  rewrite getClassFieldsOf_folds.
  rewrite (fold_condAdd_In
             (fun pv : string * value =>
                negb (fst pv =? "constructor")
                && negb (startsWithUnderscore (fst pv))
                && negb (isFunction (snd pv))) fst).
  rewrite (fold_condAdd_In
             (fun prop => negb (startsWithUnderscore prop)
                          && negb (isFunction (readProp o p prop)))
             (fun prop => prop)).
  split.
  - intros [[[] | [x [Hx [Ht <-]]]] | [[k' v] [Hx [Ht Hn]]]].
    + apply andb_true_iff in Ht as [Hu Hf].
      apply negb_true_iff in Hu. apply negb_true_iff in Hf.
      split; [assumption | left; now split].
    + simpl in Hn, Ht. subst k'.
      apply andb_true_iff in Ht as [Ht Hf].
      apply andb_true_iff in Ht as [Hc Hu].
      apply negb_true_iff in Hc. apply negb_true_iff in Hu.
      apply negb_true_iff in Hf.
      split; [assumption | right]. split.
      * intros ->. discriminate.
      * now exists v.
  - intros [Hu [[Hin Hf] | [Hc [v [Hin Hf]]]]].
    + left. right. exists k. rewrite Hu, Hf. repeat split. assumption.
    + right. exists (k, v). simpl. rewrite Hu, Hf.
      assert (E : (k =? "constructor") = false).
      { destruct (k =? "constructor") eqn:E; [|reflexivity].
        apply String.eqb_eq in E. contradiction. }
      rewrite E. repeat split. assumption.
Qed.

Lemma getClassFieldsOf_NoDup o p : NoDup (getClassFieldsOf o p).
Proof.
  rewrite getClassFieldsOf_folds.
  apply (fold_condAdd_NoDup
           (fun pv : string * value =>
              negb (fst pv =? "constructor")
              && negb (startsWithUnderscore (fst pv))
              && negb (isFunction (snd pv))) fst).
  apply (fold_condAdd_NoDup
           (fun prop => negb (startsWithUnderscore prop)
                        && negb (isFunction (readProp o p prop)))
           (fun prop => prop)).
  constructor.
Qed.


(* ====================================================================== *)
(** ** Transforms *)
(* ====================================================================== *)

(** C2. Under diagnostics ([strictMode: true], development environment)
    a transform that throws a value without a usable [toString] makes
    [init] throw: the [catch] block builds the text of its warning with
    [String(error)], which throws a TypeError on such a value, and
    nothing catches that.  The raw value is not assigned: [price] keeps
    its default.  With [strictMode: false] the same call returns and
    assigns the raw value. *)
Theorem init_throws_when_transform_error_unprintable :
  let payload := VObject [("price", VString "abc")] in
  let on := init true Product payload (brokenOptions true) in
  let off := init true Product payload (brokenOptions false) in
  throwUnprintable (VString "abc") = Throws (Unprintable notPrimitiveError)
  /\ completionOf on = Threw notPrimitiveError
  /\ get (instanceOf on) "price" = VNumber 0
  /\ warningsOf on = []
  /\ completionOf off = Returned
  /\ get (instanceOf off) "price" = VString "abc".
Proof. repeat split. Qed.

Lemma get_assign_same this f x : get (assign this f x) f = x.
Proof. rewrite get_assign. now rewrite String.eqb_refl. Qed.

Lemma get_assign_other this f x c : c <> f -> get (assign this f x) c = get this c.
Proof. intros H. rewrite get_assign. now rewrite (eqb_false_of_neq c f H). Qed.

(** X22. When a data key resolves to a field [f] that is assigned and a
    transform [t] is registered for [f], the loop body calls [t] on the
    raw value [v].  If [t v] returns, the result is assigned and nothing
    is warned about.  If [t v] throws, the raw value is assigned and the
    failure is reported under diagnostics; except that, under
    diagnostics, an error that cannot be printed makes the loop body
    throw and assign nothing.  No type mismatch is ever reported, and no
    other property is touched. *)
Theorem transform_result_or_raw_value :
  forall (isDev : bool) (aliases : aliasTable) (transforms : transformTable)
         (classFields : list string) (this : FlexDto)
         (k f : string) (v : value) (t : TransformFn),
    startsWithUnderscore k = false ->
    v <> VUndefined ->
    targetOf this k classFields aliases = Normal (Some f) ->
    shouldAssign (Some f) k = true ->
    lookup f transforms = Some t ->
    let r := initKey isDev aliases transforms classFields this k v in
    forallb (fun w => negb (isTypeMismatch w)) (warningsOf r) = true
    /\ (forall c, c <> f -> get (instanceOf r) c = get this c)
    /\ match t v with
       | Returns result =>
           completionOf r = Returned
           /\ get (instanceOf r) f = result
           /\ own (instanceOf r) = setProp f result (own this)
           /\ warningsOf r = []
       | Throws error =>
           if effectiveStrict this && isDev
           then match error with
                | Unprintable raised =>
                    completionOf r = Threw raised
                    /\ instanceOf r = this
                    /\ warningsOf r = []
                | _ =>
                    completionOf r = Returned
                    /\ get (instanceOf r) f = v
                    /\ own (instanceOf r) = setProp f v (own this)
                    /\ warningsOf r
                       = [TransformFailed (className this) f error]
                end
           else completionOf r = Returned
                /\ get (instanceOf r) f = v
                /\ own (instanceOf r) = setProp f v (own this)
                /\ warningsOf r = []
       end.
Proof.
  intros isDev aliases transforms classFields this k f v t Hk Hv Ht Hs Hl r.
  subst r. unfold initKey. rewrite Hk.
  assert (Hu : isUndefined v = false) by (destruct v; congruence || reflexivity).
  rewrite Hu, Ht, Hs. unfold pipeline.
  rewrite (transformFor_registered f transforms t Hl).
  destruct (t v) as [result | error].
  - unfold instanceOf, warningsOf, completionOf; simpl. split_all;
      try reflexivity.
    + intros c Hc. now apply get_assign_other.
    + apply get_assign_same.
  - destruct (effectiveStrict this && isDev);
      [destruct error as [message | text | raised]|];
      unfold instanceOf, warningsOf, completionOf; simpl; split_all;
      try reflexivity; try apply get_assign_same;
      intros c Hc; now apply get_assign_other.
Qed.

Lemma transform_result_or_raw_value_witness :
  let this1 := withOpts Product productOptions in
  let r := initKey true [] [("price", rejectInvalid)] ["price"] this1
                   "price" (VString "invalid") in
  forallb (fun w => negb (isTypeMismatch w)) (warningsOf r) = true
  /\ (forall c, c <> "price" -> get (instanceOf r) c = get this1 c)
  /\ completionOf r = Returned
  /\ get (instanceOf r) "price" = VString "invalid"
  /\ own (instanceOf r) = setProp "price" (VString "invalid") (own this1)
  /\ warningsOf r = [TransformFailed "Product" "price" (ErrorObject "Invalid")].
Proof.
  exact (transform_result_or_raw_value true [] [("price", rejectInvalid)]
           ["price"] (withOpts Product productOptions) "price" "price"
           (VString "invalid") rejectInvalid eq_refl
           ltac:(discriminate) eq_refl eq_refl eq_refl).
Defined.

(* ====================================================================== *)
(** ** When [init] returns normally *)
(* ====================================================================== *)

(** [init] returns normally when the alias table has an entry of its own
    for every class field that is named like a member of
    [Object.prototype], and diagnostics are off or else no payload value
    holds a BigInt and no registered transform throws, on a payload
    value, what cannot be printed. *)
Lemma init_returns isDev this data options :
  let this1 := withOpts this (optionsOrEmpty options) in
  existsb (inheritsMember (mergedAliases this1)) (getClassFields this1) = false ->
  isDev && effectiveStrict this1 = false
  \/ (forallb (fun kv => negb (stringifyThrows (snd kv))) (ownEntries data) = true
      /\ forall k v f t,
           In (k, v) (ownEntries data) ->
           lookup f (mergedTransforms this1) = Some t ->
           isUndefined v = false ->
           throwsUnprintable (t v) = false) ->
  completionOf (init isDev this data options) = Returned.
Proof.
  cbv zeta. intros Hscan Hdiag.
  destruct (init_facts isDev this data options) as [_ [_ Hthrow]].
  destruct (completionOf (init isDev this data options)) as [|e];
    [reflexivity|].
  exfalso.
  destruct (Hthrow e eq_refl)
    as [[_ H] | [H1 [H2 [[_ H3] | [k [v [f [t [H3 [H4 [H5 H6]]]]]]]]]]].
  - congruence.
  - destruct Hdiag as [Hoff | [Hb _]].
    + rewrite H1, H2 in Hoff. discriminate.
    + apply existsb_exists in H3 as [kv [Hin Hkv]].
      rewrite forallb_forall in Hb. specialize (Hb kv Hin).
      rewrite Hkv in Hb. discriminate.
  - destruct Hdiag as [Hoff | [_ Hp]].
    + rewrite H1, H2 in Hoff. discriminate.
    + specialize (Hp k v f t H3 H4 H5). rewrite H6 in Hp. discriminate.
Qed.

(** Diagnostics settings do not influence what the loop body assigns, as
    long as reporting does not throw. *)
Lemma initKey_sameFields devA devB aliases transforms classFields a b k v :
  sameFields a b ->
  let ra := initKey devA aliases transforms classFields a k v in
  let rb := initKey devB aliases transforms classFields b k v in
  completionOf ra = Returned -> completionOf rb = Returned ->
  sameFields (instanceOf ra) (instanceOf rb).
Proof.
  intros H. simpl. unfold initKey.
  destruct (startsWithUnderscore k); [intros; assumption|].
  destruct (isUndefined v); [intros; assumption|].
  rewrite (targetOf_sameFields a b k classFields aliases H).
  destruct (targetOf b k classFields aliases) as [targetKey|e];
    [|intros Ha; discriminate].
  destruct (shouldAssign targetKey k); [|intros; assumption].
  destruct targetKey as [t|]; [|intros; assumption].
  unfold pipeline. rewrite (get_sameFields a b t H).
  destruct (transformFor t transforms) as [f|].
  - destruct (f v) as [res | err]; [intros _ _; now apply assign_sameFields|].
    destruct (effectiveStrict a && devA), (effectiveStrict b && devB), err;
      simpl; intros Ha Hb; try discriminate; now apply assign_sameFields.
  - destruct (negb (isUndefined (get b t))).
    + destruct (effectiveStrict a), (effectiveStrict b);
        repeat match goal with
               | |- context [validateType ?d ?x ?t ?v ?e] =>
                   destruct (validateType d x t v e) as [[|?] ?]
               end; simpl; intros Ha Hb; try discriminate;
        now apply assign_sameFields.
    + intros _ _. now apply assign_sameFields.
Qed.

Lemma initLoop_sameFields devA devB aliases transforms classFields entries :
  forall a b,
    sameFields a b ->
    let ra := initLoop devA aliases transforms classFields a entries in
    let rb := initLoop devB aliases transforms classFields b entries in
    completionOf ra = Returned -> completionOf rb = Returned ->
    sameFields (instanceOf ra) (instanceOf rb).
Proof.
  induction entries as [|[k v] rest IH]; intros a b H; simpl;
    [intros; assumption|].
  pose proof (initKey_sameFields devA devB aliases transforms classFields
                a b k v H) as Hk. simpl in Hk.
  destruct (initKey devA aliases transforms classFields a k v) as [[[|ea] a'] wa];
    [|discriminate].
  destruct (initKey devB aliases transforms classFields b k v) as [[[|eb] b'] wb];
    [|intros _; discriminate].
  specialize (IH a' b' (Hk eq_refl eq_refl)). simpl in IH.
  destruct (initLoop devA aliases transforms classFields a' rest) as [[ca a''] wa'].
  destruct (initLoop devB aliases transforms classFields b' rest) as [[cb b''] wb'].
  exact IH.
Qed.

(** Whenever both runs return normally, the value of [strictMode] and
    the environment make no difference to the properties of the
    instance. *)
Lemma init_fields_independent_of_diagnostics
      devA devB this data aliasOpt transformOpt strictA strictB :
  let ra := init devA this data (Some (mkOptions aliasOpt transformOpt strictA)) in
  let rb := init devB this data (Some (mkOptions aliasOpt transformOpt strictB)) in
  completionOf ra = Returned -> completionOf rb = Returned ->
  sameFields (instanceOf ra) (instanceOf rb).
Proof.
  simpl. unfold init.
  destruct (negb (truthy data) || negb (typeof data =? "object"));
    [intros; split; reflexivity|].
  apply initLoop_sameFields. split; reflexivity.
Qed.

(* ====================================================================== *)
(** ** Diagnostics and the serialisation of the reported value *)
(* ====================================================================== *)

(** C3. Under diagnostics ([strictMode: true], development environment)
    the payload [{ age: 10n, name: "Kim" }] makes [init] throw: the type
    mismatch on [age] is reported through [JSON.stringify], which throws
    a TypeError on a BigInt, and nothing catches it. *)
Theorem init_throws_when_reporting_bigint :
  init true Person bigAge strictOn
  = (Threw bigIntTypeError,
     withOpts Person (mkOptions None None (Some true)), []).
Proof. reflexivity. Qed.

(** C6. The same payload populated with diagnostics off and on: with
    [strictMode: false] both fields receive the payload values; with
    [strictMode: true] in a development environment [init] throws while
    reporting [age], and both fields keep their defaults. *)
Theorem diagnostics_change_final_fields :
  let off := init true Person bigAge strictOff in
  let on := init true Person bigAge strictOn in
  completionOf off = Returned
  /\ get (instanceOf off) "age" = VBigInt 10
  /\ get (instanceOf off) "name" = VString "Kim"
  /\ completionOf on = Threw bigIntTypeError
  /\ get (instanceOf on) "age" = VNumber 0
  /\ get (instanceOf on) "name" = VString "".
Proof. repeat split. Qed.

(* ====================================================================== *)
(** ** Fields declared without an initial value *)
(* ====================================================================== *)

Lemma includesUnderscore_first f :
  includesUnderscore f = false -> startsWithUnderscore f = false.
Proof.
  destruct f as [|c rest]; [reflexivity|]. simpl. intros H.
  now apply orb_false_iff in H as [H _].
Qed.

(** An own property that holds a value other than a function, under a
    name that does not begin with an underscore, is a class field. *)
Lemma own_property_is_class_field this f x :
  lookup f (own this) = Some x ->
  isFunction x = false ->
  startsWithUnderscore f = false ->
  includes f (getClassFields this) = true.
Proof.
  intros Hl Hx Hu. apply includes_In. apply getClassFieldsOf_In.
  split; [assumption | left]. split.
  - apply lookup_Some_In in Hl. change f with (fst (f, x)). now apply in_map.
  - unfold readProp. now rewrite Hl.
Qed.

Lemma init_class_field_key isDev this options f v :
  let this1 := withOpts this (optionsOrEmpty options) in
  includes f (getClassFields this1) = true ->
  f <> "" -> startsWithUnderscore f = false ->
  includesUnderscore f = false ->
  isUndefined v = false ->
  init isDev this (VObject [(f, v)]) options
  = pipeline isDev (mergedTransforms this1) this1 f v.
Proof.
  cbv zeta. intros Hin Hne Hu Hnu Hv. rewrite init_single_key.
  unfold initKey. rewrite Hu, Hv.
  unfold targetOf, findMatchingField. rewrite Hin.
  unfold fallbackTarget. simpl. rewrite (eqb_false_of_neq f "" Hne). simpl.
  unfold shouldAssign. rewrite (eqb_false_of_neq f "" Hne), Hu, Hnu.
  simpl. now rewrite orb_true_r.
Qed.

(** C7. Let a field [f] be declared without an initial value, so that
    the instance has the own property [f] holding [undefined], and let
    no transform be found for it.  Then [init] with the payload
    [{ f: v }] assigns [v] to [f] and emits no diagnostic, under any
    diagnostics setting: as the field holds no defined value, no expected
    type is established and nothing is validated.  The name [f] is any
    name without an underscore, such as [age]. *)
Theorem uninitialised_field_assigned_without_diagnostic :
  forall (isDev : bool) (this : FlexDto) (options : option InternalOptions)
         (f : string) (v : value),
    let this1 := withOpts this (optionsOrEmpty options) in
    let r := init isDev this (VObject [(f, v)]) options in
    lookup f (own this) = Some VUndefined ->
    f <> "" ->
    includesUnderscore f = false ->
    isUndefined v = false ->
    transformFor f (mergedTransforms this1) = None ->
    completionOf r = Returned
    /\ get (instanceOf r) f = v
    /\ own (instanceOf r) = setProp f v (own this)
    /\ warningsOf r = [].
Proof.
  intros isDev this options f v this1 r Hown Hne Hnu Hv Htr. subst r.
  pose proof (includesUnderscore_first f Hnu) as Hu.
  rewrite (init_class_field_key isDev this options f v); fold this1;
    try assumption.
  2:{ apply (own_property_is_class_field this1 f VUndefined);
        [exact Hown | reflexivity | exact Hu]. }
  unfold pipeline. rewrite Htr.
  assert (Hget : get this1 f = VUndefined).
  { unfold get, readProp. simpl. now rewrite Hown. }
  rewrite Hget. simpl.
  unfold instanceOf, warningsOf, completionOf; simpl. split_all;
    try reflexivity.
  apply (get_assign_same this1).
Qed.

Lemma uninitialised_field_assigned_without_diagnostic_witness :
  let r := init true NoInitialValueDto (VObject [("age", VString "30")])
                strictOn in
  completionOf r = Returned
  /\ get (instanceOf r) "age" = VString "30"
  /\ own (instanceOf r)
     = setProp "age" (VString "30") (own NoInitialValueDto)
  /\ warningsOf r = [].
Proof.
  exact (uninitialised_field_assigned_without_diagnostic
           true NoInitialValueDto strictOn "age" (VString "30")
           eq_refl ltac:(discriminate) eq_refl eq_refl eq_refl).
Defined.

(** The other keys of that scenario (tests, lines 771-808): the
    snake_case key [is_active] populates [isActive], and the instance
    keeps its four properties. *)
Example uninitialised_fields_payload :
  let r := init true NoInitialValueDto
                (VObject [("age", VNumber 30); ("name", VString "Hong");
                          ("is_active", VBool true)]) strictOn in
  completionOf r = Returned
  /\ own (instanceOf r)
     = [("age", VNumber 30); ("name", VString "Hong");
        ("isActive", VBool true); ("optionalField", VUndefined)]
  /\ warningsOf r = [].
Proof. repeat split. Qed.

(* ====================================================================== *)
(** ** The resolution order *)
(* ====================================================================== *)

(** C4. On the class [Odd], which declares a field named [valueOf], the
    key [foo] matches no rule of the resolution order, which would have
    it dropped silently.  Instead the scan of rule 4 looks up
    [aliases["valueOf"]], finds the function inherited from
    [Object.prototype], and calls its missing [includes] method:
    [findMatchingField] throws a TypeError, and so does [init], outside
    a development environment and without diagnostics. *)
Theorem init_throws_in_reverse_alias_scan :
  let r := init false Odd (VObject [("foo", VNumber 1)]) strictOff in
  getClassFields Odd = ["valueOf"; "name"]
  /\ claimedResolver Odd "foo" (getClassFields Odd) [] = None
  /\ findMatchingField Odd "foo" (getClassFields Odd) []
     = Abrupt includesTypeError
  /\ completionOf r = Threw includesTypeError
  /\ own (instanceOf r) = own Odd
  /\ warningsOf r = [].
Proof. repeat split. Qed.

(** X23. The resolution order.  Let the alias table have an entry of its
    own for every class field that is named like a member of
    [Object.prototype] (as it does when no class field has such a name).
    Then for every raw key that does not begin with an underscore, the
    field [findMatchingField] returns is the one selected by trying in
    order: exact match, camelCase match, forward alias match, reverse
    alias scan, camelCase fallback; [init] works with that field (an
    empty field name apart, which [init] takes for no match); and when no
    rule applies the key is dropped: the loop body returns normally,
    leaves the instance unchanged and warns about nothing.  Whatever the
    table, a key that begins with an underscore is skipped before any
    resolution, and a target that is not a class field is the camelCase
    projection of the key and does not begin with an underscore. *)
Theorem resolution_order :
  forall (this : FlexDto) (k : string) (classFields : list string)
         (aliases : aliasTable),
    (existsb (inheritsMember aliases) classFields = false ->
     startsWithUnderscore k = false ->
     findMatchingField this k classFields aliases
     = Normal (claimedResolver this k classFields aliases)
     /\ (claimedResolver this k classFields aliases <> Some "" ->
         targetOf this k classFields aliases
         = Normal (claimedResolver this k classFields aliases))
     /\ (claimedResolver this k classFields aliases = None ->
         forall isDev transforms v,
           initKey isDev aliases transforms classFields this k v
           = (Returned, this, [])))
    /\ (startsWithUnderscore k = true ->
        forall isDev transforms v,
          initKey isDev aliases transforms classFields this k v
          = (Returned, this, []))
    /\ (forall t, targetOf this k classFields aliases = Normal (Some t) ->
                  In t classFields
                  \/ (t = toCamelCase k /\ startsWithUnderscore t = false)).
Proof.
  intros this k classFields aliases. split; [|split].
  - intros Hscan Hk.
    pose proof (withoutScan_claimed this k classFields aliases Hk) as Hc.
    pose proof (findMatchingField_normal this k classFields aliases Hscan) as Hf.
    pose proof (targetOf_normal this k classFields aliases Hscan) as Ht.
    rewrite Hc in Hf. split; [assumption|].
    assert (Hr : claimedResolver this k classFields aliases <> Some "" ->
                 resolved this k classFields aliases
                 = claimedResolver this k classFields aliases).
    { intros Hne. rewrite <- Hc. apply resolved_withoutScan. now rewrite Hc. }
    split.
    + intros Hne. now rewrite Ht, (Hr Hne).
    + intros Hnone isDev transforms v. unfold initKey.
      rewrite Hk, Ht, Hr; [|rewrite Hnone; discriminate].
      rewrite Hnone. simpl. now destruct (isUndefined v).
  - intros Hk isDev transforms v. unfold initKey. now rewrite Hk.
  - intros t Ht. apply targetOf_returns in Ht. symmetry in Ht.
    destruct (resolved_cases this k classFields aliases t Ht)
      as [Hin | [Hc [_ [Hu _]]]]; [now left | right; now split].
Qed.

Lemma resolution_order_witness :
  findMatchingField Order "id" (getClassFields Order) (aliasMetadata Order)
  = Normal (Some "orderId")
  /\ claimedResolver Order "id" (getClassFields Order) (aliasMetadata Order)
     = Some "orderId".
Proof.
  destruct (resolution_order Order "id" (getClassFields Order)
              (aliasMetadata Order)) as [H _].
  destruct (H eq_refl eq_refl) as [Hf _].
  split; [rewrite Hf; reflexivity | reflexivity].
Defined.

(* ====================================================================== *)
(** ** The assignment guard *)
(* ====================================================================== *)

(** C5, as stated, fails for a key whose underscores are not followed by
    a lowercase letter: [toCamel] leaves [address_1] unchanged, so the
    declared field [address_1] is written from the raw key [address_1],
    under that very spelling. *)
Lemma underscore_key_written_verbatim :
  includesUnderscore "address_1" = true
  /\ init false Address (VObject [("address_1", VString "Main St")]) None
     = (Returned,
        assign (withOpts Address noOptions) "address_1" (VString "Main St"),
        [])
  /\ lookup "address_1"
            (own (instanceOf
                    (init false Address
                          (VObject [("address_1", VString "Main St")]) None)))
     = Some (VString "Main St").
Proof. repeat split. Qed.

(** C5 (amended). Processing a raw key [k] either leaves the instance
    unchanged or assigns exactly one property, the resolved target [t],
    and then [t] is [toCamel k] or [k] contains no underscore.  Hence a
    key that contains an underscore is written only under its [toCamel]
    projection; that projection is the key's own spelling only when
    [toCamel] leaves the key unchanged, and then the key is itself a
    class field (it is never a property the instance did not declare).
    This holds whatever the alias table contains. *)
Theorem guard_writes_camel_projection :
  forall (isDev : bool) (aliases : aliasTable) (transforms : transformTable)
         (classFields : list string) (this : FlexDto) (k : string) (v : value),
    let r := initKey isDev aliases transforms classFields this k v in
    instanceOf r = this
    \/ exists (t : string) (v' : value),
        instanceOf r = assign this t v'
        /\ targetOf this k classFields aliases = Normal (Some t)
        /\ startsWithUnderscore t = false
        /\ (t = toCamelCase k \/ includesUnderscore k = false)
        /\ (includesUnderscore k = true ->
            t = toCamelCase k /\ (t = k -> includes k classFields = true)).
Proof.
  intros isDev aliases transforms classFields this k v r. subst r.
  destruct (initKey_facts isDev aliases transforms classFields this k v)
    as [[H | [t [v' [H Hw]]]] _]; [now left|].
  right. exists t, v'.
  destruct (writeOf_Some _ _ _ _ _ _ Hw) as [_ [_ [Ht [Hr Hs]]]].
  destruct (shouldAssign_true t k Hs) as [Hne [Hu Hg]].
  split; [assumption|]. split; [assumption|].
  split; [assumption|]. split; [assumption|].
  intros Hk.
  assert (Hc : t = toCamelCase k).
  { destruct Hg as [Hg | Hg]; [assumption | congruence]. }
  split; [assumption|].
  intros ->.
  destruct (resolved_inv this k classFields aliases k Hr Hne)
    as [Hf | [_ [_ [Hdiff _]]]].
  - exact (withoutScan_self this k classFields aliases Hf (eq_sym Hc)).
  - exfalso. apply Hdiff. now symmetry.
Qed.

(* ====================================================================== *)
(** ** Case conversion: from camelCase to snake_case and back *)
(* ====================================================================== *)

Lemma upper_lower_char c :
  isUpper c = true ->
  isLower (toLowerChar c) = true /\ toUpperChar (toLowerChar c) = c.
Proof.
  destruct c as [[] [] [] [] [] [] [] []]; vm_compute; intros H;
    try discriminate H; split; reflexivity.
Qed.

Lemma alnum_not_underscore c : isAlnum c = true -> isUnderscore c = false.
Proof.
  destruct c as [[] [] [] [] [] [] [] []]; vm_compute; intros H;
    try discriminate H; reflexivity.
Qed.

Lemma lower_not_upper c : isLower c = true -> isUpper c = false.
Proof.
  destruct c as [[] [] [] [] [] [] [] []]; vm_compute; intros H;
    try discriminate H; reflexivity.
Qed.

Lemma lower_is_alnum c : isLower c = true -> isAlnum c = true.
Proof. unfold isAlnum. now intros ->. Qed.

Lemma toSnakeLoop_nil prev s : toSnakeLoop prev s = "" -> s = "".
Proof.
  destruct s as [|c rest]; [reflexivity|]. simpl.
  destruct (isUpper c); [|discriminate].
  match goal with |- (if ?b then _ else _) = _ -> _ => destruct b end;
    discriminate.
Qed.

(** [camelReplace] undoes [toSnakeLoop] after a character [prev], on
    alphanumeric names without acronym runs. *)
Lemma camelReplace_toSnakeLoop s :
  forall prev,
    allAlnum s = true ->
    noAcronymRun prev s = true ->
    camelReplace (toSnakeLoop (Some prev) s) = s.
Proof.
  induction s as [|c rest IH]; intros prev Ha Hr; [reflexivity|].
  simpl in Ha, Hr.
  apply andb_true_iff in Ha as [Hc Ha].
  apply andb_true_iff in Hr as [Hrun Hr].
  specialize (IH c Ha Hr).
  cbn [toSnakeLoop].
  destruct (isUpper c) eqn:Hu.
  - destruct (upper_lower_char c Hu) as [Hl Hul].
    assert (Hsep : (true && (negb (isUpper prev)
                     || isUpper prev
                        && match match rest with
                                 | String n _ => Some n
                                 | EmptyString => None
                                 end with
                           | Some n => isLower n
                           | None => false
                           end)) = true).
    { destruct (isUpper prev); simpl in *; [|reflexivity].
      destruct rest; [discriminate | assumption]. }
    rewrite Hsep.
    cbn [camelReplace]. unfold underscore at 1.
    change (isUnderscore "_"%char) with true. rewrite Hl. simpl.
    rewrite Hul. f_equal. exact IH.
  - pose proof (alnum_not_underscore c Hc) as Hnu.
    destruct (toSnakeLoop (Some c) rest) as [|l r] eqn:Hs.
    + apply toSnakeLoop_nil in Hs. subst rest. reflexivity.
    + cbn [camelReplace]. rewrite Hnu. simpl. f_equal. exact IH.
Qed.

Lemma plainCamelCase_roundtrip f :
  plainCamelCase f = true -> toCamelCase (toSnakeCase f) = f.
Proof.
  unfold plainCamelCase, camelCasePattern.
  destruct f as [|c rest]; [discriminate|].
  intros H. apply andb_true_iff in H as [H Hr].
  apply andb_true_iff in H as [Hc Ha].
  pose proof (lower_not_upper c Hc) as Hu.
  pose proof (alnum_not_underscore c (lower_is_alnum c Hc)) as Hnu.
  unfold toSnakeCase. cbn [toSnakeLoop]. rewrite Hu.
  unfold toCamelCase.
  pose proof (camelReplace_toSnakeLoop rest c Ha Hr) as IH.
  destruct (toSnakeLoop (Some c) rest) as [|l r] eqn:Hs.
  - apply toSnakeLoop_nil in Hs. subst rest. reflexivity.
  - cbn [camelReplace]. rewrite Hnu. simpl. f_equal. exact IH.
Qed.

Lemma camelReplace_alnum s : allAlnum s = true -> camelReplace s = s.
Proof.
  induction s as [|c rest IH]; [reflexivity|]. simpl. intros H.
  apply andb_true_iff in H as [Hc Ha].
  destruct rest as [|l r]; [reflexivity|].
  rewrite (alnum_not_underscore c Hc). simpl. f_equal. exact (IH Ha).
Qed.

Lemma camelCasePattern_fixed f :
  camelCasePattern f = true ->
  toCamelCase f = f /\ startsWithUnderscore f = false
  /\ startsWithUnderscore (toSnakeCase f) = false.
Proof.
  unfold camelCasePattern. destruct f as [|c rest]; [discriminate|].
  intros H. apply andb_true_iff in H as [Hc Ha].
  pose proof (alnum_not_underscore c (lower_is_alnum c Hc)) as Hnu.
  repeat split.
  - unfold toCamelCase. apply camelReplace_alnum. simpl.
    now rewrite (lower_is_alnum c Hc).
  - exact Hnu.
  - unfold toSnakeCase. cbn [toSnakeLoop].
    rewrite (lower_not_upper c Hc). exact Hnu.
Qed.

Section SameField.

Variable isDev : bool.
Variable aliases : aliasTable.
Variable transforms : transformTable.
Variable classFields : list string.
Variable this : FlexDto.
Variable f : string.

Hypothesis f_camel : plainCamelCase f = true.
Hypothesis f_declared : includes f classFields = true.
Hypothesis no_collision :
  toSnakeCase f = f \/ includes (toSnakeCase f) classFields = false.

Lemma f_pattern : camelCasePattern f = true.
Proof.
  unfold plainCamelCase in f_camel.
  now apply andb_true_iff in f_camel as [H _].
Qed.

Lemma f_nonempty : f <> "".
Proof. intros He. pose proof f_pattern as H. now rewrite He in H. Qed.

Lemma target_of_camel_key :
  targetOf this f classFields aliases = Normal (Some f).
Proof.
  rewrite targetOf_before_scan.
  - f_equal. apply resolved_found; [|exact f_nonempty].
    unfold findMatchingFieldWithoutScan. now rewrite f_declared.
  - unfold reachesScan. now rewrite f_declared.
Qed.

Lemma target_of_snake_key :
  targetOf this (toSnakeCase f) classFields aliases = Normal (Some f).
Proof.
  destruct no_collision as [He | Hn].
  - rewrite He. apply target_of_camel_key.
  - rewrite targetOf_before_scan.
    + f_equal. apply resolved_found; [|exact f_nonempty].
      unfold findMatchingFieldWithoutScan.
      rewrite Hn, (plainCamelCase_roundtrip f f_camel).
      now rewrite f_declared.
    + unfold reachesScan.
      rewrite (plainCamelCase_roundtrip f f_camel), f_declared.
      now rewrite andb_false_r.
Qed.

Lemma initKey_snake_as_camel v :
  initKey isDev aliases transforms classFields this (toSnakeCase f) v
  = initKey isDev aliases transforms classFields this f v.
Proof.
  destruct (camelCasePattern_fixed f f_pattern) as [Hc [Hu Hus]].
  unfold initKey.
  rewrite Hu, Hus, target_of_camel_key, target_of_snake_key.
  unfold shouldAssign.
  rewrite Hc, (plainCamelCase_roundtrip f f_camel), String.eqb_refl.
  reflexivity.
Qed.

End SameField.

(** C1, as stated, fails for a camelCase field with an acronym run:
    [userID] matches the source's camelCase pattern and is a class field,
    its snake_case spelling is [user_id], and [toCamel] of that is
    [userId]; populating with [{ user_id: "U1" }] leaves [userID] at its
    default, populating with [{ userID: "U1" }] sets it. *)
Lemma acronym_field_not_recovered :
  camelCasePattern "userID" = true
  /\ includes "userID" (getClassFields Account) = true
  /\ toSnakeCase "userID" = "user_id"
  /\ toCamelCase (toSnakeCase "userID") <> "userID"
  /\ get (instanceOf (init false Account
                           (VObject [(toSnakeCase "userID", VString "U1")]) None))
         "userID" = VString ""
  /\ get (instanceOf (init false Account
                           (VObject [("userID", VString "U1")]) None))
         "userID" = VString "U1".
Proof. repeat split. discriminate. Qed.

(** C1 (amended). For every class field [f] written in camelCase without
    an acronym run (a lowercase letter followed by letters and digits, in
    which a capital that follows a capital is followed by a lowercase
    letter) whose snake_case spelling is not itself another class field:
    [toCamel (toSnake f) = f], and [init] on the single-key payload
    [{ toSnake f : v }] ends exactly as [init] on [{ f : v }] does: same
    completion, same instance, same warnings. *)
Theorem snake_and_camel_spelling_populate_alike :
  forall (isDev : bool) (this : FlexDto) (options : option InternalOptions)
         (f : string) (v : value),
    plainCamelCase f = true ->
    includes f (getClassFields this) = true ->
    (toSnakeCase f = f
     \/ includes (toSnakeCase f) (getClassFields this) = false) ->
    toCamelCase (toSnakeCase f) = f
    /\ init isDev this (VObject [(toSnakeCase f, v)]) options
       = init isDev this (VObject [(f, v)]) options.
Proof.
  intros isDev this options f v Hf Hd Hn. split.
  - exact (plainCamelCase_roundtrip f Hf).
  - unfold init. simpl.
    rewrite (initKey_snake_as_camel isDev _ _ _ _ f Hf Hd Hn v).
    reflexivity.
Qed.

Lemma snake_and_camel_spelling_populate_alike_witness :
  toCamelCase (toSnakeCase "userName") = "userName"
  /\ init true User (VObject [(toSnakeCase "userName", VNumber 7)]) strictOn
     = init true User (VObject [("userName", VNumber 7)]) strictOn.
Proof.
  exact (snake_and_camel_spelling_populate_alike
           true User strictOn "userName" (VNumber 7)
           eq_refl eq_refl (or_intror eq_refl)).
Defined.

(* ====================================================================== *)
(** ** Case conversion: further properties *)
(* ====================================================================== *)

Lemma upper_char_facts l :
  isLower l = true ->
  isLower (toUpperChar l) = false
  /\ isUnderscore (toUpperChar l) = false
  /\ isUpper (toUpperChar l) = true
  /\ toLowerChar (toUpperChar l) = l.
Proof.
  destruct l as [[] [] [] [] [] [] [] []]; vm_compute; intros H;
    try discriminate H; repeat split.
Qed.

Lemma lower_char_not_upper c : isUpper (toLowerChar c) = false.
Proof. destruct c as [[] [] [] [] [] [] [] []]; reflexivity. Qed.

Lemma lower_char_not_underscore c :
  isUpper c = true -> isUnderscore (toLowerChar c) = false.
Proof.
  destruct c as [[] [] [] [] [] [] [] []]; vm_compute; intros H;
    try discriminate H; reflexivity.
Qed.

Lemma isUnderscore_eq c : isUnderscore c = true -> c = underscore.
Proof. unfold isUnderscore. apply Ascii.eqb_eq. Qed.

Lemma underscore_not_upper c : isUnderscore c = true -> isUpper c = false.
Proof. intros H. apply isUnderscore_eq in H. now subst. Qed.

(** The first character of [camelReplace] is the first character of the
    input, or a capital. *)
Lemma camelReplace_head l r :
  exists h t,
    camelReplace (String l r) = String h t
    /\ (h = l \/ isLower h = false).
Proof.
  simpl. destruct r as [|m r'].
  - exists l, EmptyString. split; [reflexivity | now left].
  - destruct (isUnderscore l && isLower m) eqn:E.
    + apply andb_true_iff in E as [_ Hm].
      destruct (upper_char_facts m Hm) as [Hl _].
      eexists _, _. split; [reflexivity | now right].
    + eexists _, _. split; [reflexivity | now left].
Qed.

Lemma camelReplace_cons_plain c s :
  isUnderscore c = false -> camelReplace (String c s) = String c (camelReplace s).
Proof. intros H. destruct s as [|l r]; [reflexivity|]. simpl. now rewrite H. Qed.

Lemma camelReplace_cons_nomatch c s :
  startsMatch (String c s) = false ->
  camelReplace (String c s) = String c (camelReplace s).
Proof.
  destruct s as [|l r]; [reflexivity|]. simpl. now intros ->.
Qed.

Lemma camelReplace_cons_match c l r :
  isUnderscore c && isLower l = true ->
  camelReplace (String c (String l r)) = String (toUpperChar l) (camelReplace r).
Proof. simpl. now intros ->. Qed.

Lemma camelReplace_idempotent s :
  camelReplace (camelReplace s) = camelReplace s
  /\ forall c, camelReplace (camelReplace (String c s))
               = camelReplace (String c s).
Proof.
  induction s as [|l r [IH1 IH2]].
  - split; [reflexivity | intros c; reflexivity].
  - split; [apply IH2|]. intros c.
    destruct (isUnderscore c && isLower l) eqn:E.
    + rewrite (camelReplace_cons_match c l r E).
      apply andb_true_iff in E as [_ Hl].
      destruct (upper_char_facts l Hl) as [_ [Hu _]].
      rewrite (camelReplace_cons_plain _ _ Hu). now rewrite IH1.
    + rewrite (camelReplace_cons_nomatch c (String l r) E).
      destruct (camelReplace_head l r) as [h [t [Hh Hcase]]].
      rewrite Hh.
      assert (Hno : startsMatch (String c (String h t)) = false).
      { simpl. destruct Hcase as [-> | Hlow]; [exact E|].
        rewrite Hlow. apply andb_false_r. }
      rewrite (camelReplace_cons_nomatch c _ Hno). f_equal.
      rewrite <- Hh. apply IH2.
Qed.

Lemma camelReplace_no_underscore s :
  includesUnderscore s = false -> camelReplace s = s.
Proof.
  induction s as [|c rest IH]; [reflexivity|]. simpl. intros H.
  apply orb_false_iff in H as [Hc Hr].
  destruct rest as [|l r]; [reflexivity|].
  rewrite Hc. simpl. f_equal. exact (IH Hr).
Qed.

(** X1. [toCamelCase] is idempotent, and it leaves every string without
    an underscore as it is. *)
Theorem toCamelCase_idempotent :
  forall s : string,
    toCamelCase (toCamelCase s) = toCamelCase s
    /\ (includesUnderscore s = false -> toCamelCase s = s).
Proof.
  intros s. split.
  - destruct s as [|c rest]; [reflexivity|].
    unfold toCamelCase at 2 3.
    destruct (camelReplace_head c rest) as [h [t [Hh _]]].
    unfold toCamelCase. rewrite Hh, <- Hh.
    apply (camelReplace_idempotent (String c rest)).
  - intros H. destruct s as [|c rest]; [reflexivity|].
    unfold toCamelCase. now apply camelReplace_no_underscore.
Qed.

Lemma toSnakeLoop_no_upper s : forall prev, hasUpper (toSnakeLoop prev s) = false.
Proof.
  induction s as [|c rest IH]; intros prev; [reflexivity|].
  cbn [toSnakeLoop].
  destruct (isUpper c) eqn:Hu.
  - match goal with |- context [if ?b then _ else _] => destruct b end;
      cbn [hasUpper]; rewrite ?lower_char_not_upper, IH; reflexivity.
  - cbn [hasUpper]. now rewrite Hu, IH.
Qed.

Lemma toSnakeLoop_lowercase s :
  forall prev, hasUpper s = false -> toSnakeLoop prev s = s.
Proof.
  induction s as [|c rest IH]; intros prev H; [reflexivity|].
  simpl in H. apply orb_false_iff in H as [Hc Hr].
  cbn [toSnakeLoop]. rewrite Hc. f_equal. now apply IH.
Qed.

Lemma toSnakeCase_no_upper s : hasUpper (toSnakeCase s) = false.
Proof.
  destruct s as [|c rest]; [reflexivity|]. apply toSnakeLoop_no_upper.
Qed.

Lemma toSnakeCase_lowercase s : hasUpper s = false -> toSnakeCase s = s.
Proof.
  destruct s as [|c rest]; [reflexivity|]. apply toSnakeLoop_lowercase.
Qed.

(** X2. The result of [toSnakeCase] holds no uppercase letter; a string
    without uppercase letters is returned as it is; hence [toSnakeCase]
    is idempotent. *)
Theorem toSnakeCase_lowercases :
  forall s : string,
    hasUpper (toSnakeCase s) = false
    /\ (hasUpper s = false -> toSnakeCase s = s)
    /\ toSnakeCase (toSnakeCase s) = toSnakeCase s.
Proof.
  intros s. split; [apply toSnakeCase_no_upper|].
  split; [apply toSnakeCase_lowercase|].
  apply toSnakeCase_lowercase, toSnakeCase_no_upper.
Qed.

Lemma toSnakeLoop_plain prev c s :
  isUpper c = false ->
  toSnakeLoop prev (String c s) = String c (toSnakeLoop (Some c) s).
Proof. intros H. cbn [toSnakeLoop]. now rewrite H. Qed.

Lemma toSnakeLoop_capital p c s :
  isUpper c = true -> isUpper p = false ->
  toSnakeLoop (Some p) (String c s)
  = String underscore (String (toLowerChar c) (toSnakeLoop (Some c) s)).
Proof. intros Hc Hp. cbn [toSnakeLoop]. now rewrite Hc, Hp. Qed.

Lemma snakeStable_cons c s :
  snakeStable (String c s) = true ->
  isUpper c = false
  /\ (startsMatch (String c s) = false -> snakeStable s = true)
  /\ (forall l r, s = String l r -> isUnderscore c && isLower l = true ->
                  startsMatch r = false /\ snakeStable r = true).
Proof.
  cbn [snakeStable]. intros H. apply andb_true_iff in H as [Hc H].
  apply negb_true_iff in Hc. split; [assumption|]. split.
  - destruct s as [|l r]; [reflexivity|]. simpl. intros E.
    now rewrite E in H.
  - intros l r -> E. rewrite E in H.
    apply andb_true_iff in H as [H1 H2]. apply negb_true_iff in H1.
    now split.
Qed.

(** [toSnakeLoop] undoes [camelReplace] after a character [p], provided
    no rewritten digraph comes directly after a capital. *)
Lemma toSnakeLoop_camelReplace s :
  (forall p, snakeStable s = true ->
             (isUpper p = true -> startsMatch s = false) ->
             toSnakeLoop (Some p) (camelReplace s) = s)
  /\ (forall c p, snakeStable (String c s) = true ->
                  (isUpper p = true -> startsMatch (String c s) = false) ->
                  toSnakeLoop (Some p) (camelReplace (String c s)) = String c s).
Proof.
  induction s as [|l r [IH1 IH2]].
  - split; [reflexivity|]. intros c p Hs _.
    destruct (snakeStable_cons c "" Hs) as [Hc _].
    simpl camelReplace. now rewrite (toSnakeLoop_plain (Some p) c "" Hc).
  - split; [apply IH2|]. intros c p Hs Hp.
    destruct (snakeStable_cons c (String l r) Hs) as [Hc [Hno Hyes]].
    destruct (isUnderscore c && isLower l) eqn:E.
    + rewrite (camelReplace_cons_match c l r E).
      destruct (Hyes l r eq_refl E) as [Hr1 Hr2].
      apply andb_true_iff in E as [Hu Hl].
      destruct (upper_char_facts l Hl) as [_ [_ [Hup Hlow]]].
      assert (Hpf : isUpper p = false).
      { destruct (isUpper p) eqn:Hpu; [|reflexivity].
        specialize (Hp eq_refl). simpl in Hp. rewrite Hu, Hl in Hp.
        discriminate. }
      rewrite (toSnakeLoop_capital p _ _ Hup Hpf), Hlow.
      rewrite (IH1 (toUpperChar l) Hr2 (fun _ => Hr1)).
      now rewrite (isUnderscore_eq c Hu).
    + rewrite (camelReplace_cons_nomatch c (String l r) E).
      rewrite (toSnakeLoop_plain (Some p) c _ Hc). f_equal.
      apply IH2; [exact (Hno E)|]. intros Hcu. congruence.
Qed.

(** X3. From snake_case to camelCase and back: for a string without
    uppercase letters that does not begin with a rewritten digraph and
    in which no rewritten digraph directly follows another,
    [toSnakeCase (toCamelCase s)] is [s]. *)
Theorem snake_camel_snake_round_trip :
  forall s : string,
    snakeStable s = true ->
    startsMatch s = false ->
    toSnakeCase (toCamelCase s) = s.
Proof.
  intros s Hs Hm. destruct s as [|c rest]; [reflexivity|].
  destruct (snakeStable_cons c rest Hs) as [Hc [Hno _]].
  unfold toCamelCase. rewrite (camelReplace_cons_nomatch c rest Hm).
  unfold toSnakeCase. rewrite (toSnakeLoop_plain None c _ Hc). f_equal.
  apply (proj1 (toSnakeLoop_camelReplace rest)); [exact (Hno Hm)|].
  intros Hcu. congruence.
Qed.

Lemma snake_camel_snake_round_trip_witness :
  toSnakeCase (toCamelCase "created_at_utc") = "created_at_utc".
Proof.
  exact (snake_camel_snake_round_trip "created_at_utc" eq_refl eq_refl).
Defined.

Lemma camelReplace_length s :
  (String.length (camelReplace s) <= String.length s)%nat
  /\ forall c, (String.length (camelReplace (String c s))
                <= String.length (String c s))%nat.
Proof.
  induction s as [|l r [IH1 IH2]].
  - split; [apply le_n | intros c; apply le_n].
  - split; [apply IH2|]. intros c.
    destruct (isUnderscore c && isLower l) eqn:E.
    + rewrite (camelReplace_cons_match c l r E). simpl. lia.
    + rewrite (camelReplace_cons_nomatch c (String l r) E).
      specialize (IH2 l). simpl in *. lia.
Qed.

Lemma toSnakeLoop_length s :
  forall prev,
    (String.length s <= String.length (toSnakeLoop prev s)
     <= 2 * String.length s)%nat.
Proof.
  induction s as [|c rest IH]; intros prev; [simpl; lia|].
  cbn [toSnakeLoop]. specialize (IH (Some c)).
  destruct (isUpper c);
    [match goal with |- context [if ?b then _ else _] => destruct b end|];
    simpl; lia.
Qed.

Lemma toSnakeCase_first s :
  startsWithUnderscore (toSnakeCase s) = startsWithUnderscore s.
Proof.
  destruct s as [|c rest]; [reflexivity|].
  unfold toSnakeCase. cbn [toSnakeLoop].
  destruct (isUpper c) eqn:Hu; [|reflexivity]. simpl.
  rewrite (lower_char_not_underscore c Hu).
  destruct (isUnderscore c) eqn:E; [|reflexivity].
  apply underscore_not_upper in E. congruence.
Qed.

(** X4. [toCamelCase] never lengthens a string; [toSnakeCase] never
    shortens one and at most doubles its length; and [toSnakeCase] puts
    no separator before the first character: the result begins with an
    underscore exactly when the input does. *)
Theorem case_conversion_bounds :
  forall s : string,
    (String.length (toCamelCase s) <= String.length s)%nat
    /\ (String.length s <= String.length (toSnakeCase s))%nat
    /\ (String.length (toSnakeCase s) <= 2 * String.length s)%nat
    /\ startsWithUnderscore (toSnakeCase s) = startsWithUnderscore s.
Proof.
  intros s. split; [|split; [|split]].
  - destruct s as [|c rest]; [apply le_n|].
    apply (proj2 (camelReplace_length rest)).
  - destruct s as [|c rest]; [apply le_n|].
    apply (toSnakeLoop_length (String c rest) None).
  - destruct s as [|c rest]; [simpl; lia|].
    apply (toSnakeLoop_length (String c rest) None).
  - apply toSnakeCase_first.
Qed.

(* ====================================================================== *)
(** ** Decorators and the merge with the options *)
(* ====================================================================== *)

Lemma getAliases_setProp {A : Type} (cls cls' : string) (t : list (string * A))
      (store : list (string * list (string * A))) :
  lookup cls' (setProp cls t store)
  = if cls' =? cls then Some t else lookup cls' store.
Proof.
  destruct (cls' =? cls) eqn:E.
  - apply String.eqb_eq in E. subst. apply lookup_setProp_same.
  - apply lookup_setProp_other. intros ->. now rewrite String.eqb_refl in E.
Qed.

(** X5. A decorator fills the table of its own class only: after
    [@Alias] (or [@Transform]) on a property, the table of the class
    holds the new entry for that property, its entries for other
    properties are as before, and the table of every other class, a
    subclass included, is unchanged. *)
Theorem decorators_register_per_class :
  forall (aliasesOf : aliasStore) (transformsOf : transformStore)
         (names : list string) (fn : TransformFn) (cls propertyKey : string),
    let aliasesOf' := Alias names cls propertyKey aliasesOf in
    let transformsOf' := Transform fn cls propertyKey transformsOf in
    lookup propertyKey (getAliases aliasesOf' cls) = Some names
    /\ lookup propertyKey (getTransforms transformsOf' cls) = Some fn
    /\ (forall other, other <> propertyKey ->
          lookup other (getAliases aliasesOf' cls)
          = lookup other (getAliases aliasesOf cls)
          /\ lookup other (getTransforms transformsOf' cls)
             = lookup other (getTransforms transformsOf cls))
    /\ (forall cls', cls' <> cls ->
          getAliases aliasesOf' cls' = getAliases aliasesOf cls'
          /\ getTransforms transformsOf' cls' = getTransforms transformsOf cls').
Proof.
  intros aliasesOf transformsOf names fn cls propertyKey. cbv zeta.
  unfold Alias, Transform, getAliases, getTransforms.
  unfold aliasStore, transformStore, aliasTable, transformTable in *.
  rewrite !getAliases_setProp, !String.eqb_refl.
  split; [apply lookup_setProp_same|].
  split; [apply lookup_setProp_same|]. split.
  - intros other Hne.
    split; (apply lookup_setProp_other; congruence).
  - intros cls' Hne. rewrite !getAliases_setProp.
    assert (E : (cls' =? cls) = false).
    { destruct (cls' =? cls) eqn:E; [|reflexivity].
      apply String.eqb_eq in E. contradiction. }
    rewrite E. split; reflexivity.
Qed.

Lemma lookup_spread {A : Type} (b : list (string * A)) :
  forall (a : list (string * A)) (k : string),
    NoDup (keys b) ->
    lookup k (spread a b)
    = match lookup k b with Some v => Some v | None => lookup k a end.
Proof.
  induction b as [|[k0 v0] b IH]; intros a k Hnd; [reflexivity|].
  inversion Hnd as [|? ? Hnotin Hnd']; subst.
  change (spread a ((k0, v0) :: b)) with (spread (setProp k0 v0 a) b).
  rewrite (IH _ k Hnd'). simpl.
  destruct (k =? k0) eqn:E.
  - apply String.eqb_eq in E. subst k0.
    rewrite (lookup_None k b Hnotin). apply lookup_setProp_same.
  - destruct (lookup k b); [reflexivity|].
    apply lookup_setProp_other. intros ->. now rewrite String.eqb_refl in E.
Qed.

(** X6. The tables [init] works with are the decorator tables overridden
    by the options: for every field, the alias list (the transform) given
    in the options is used when there is one, and the decorator's
    otherwise. *)
Theorem options_override_decorators :
  forall (this : FlexDto) (f : string),
    NoDup (keys (orEmpty (aliases (_opts this)))) ->
    NoDup (keys (orEmpty (transforms (_opts this)))) ->
    lookup f (mergedAliases this)
    = match lookup f (orEmpty (aliases (_opts this))) with
      | Some names => Some names
      | None => lookup f (aliasMetadata this)
      end
    /\ lookup f (mergedTransforms this)
       = match lookup f (orEmpty (transforms (_opts this))) with
         | Some fn => Some fn
         | None => lookup f (transformMetadata this)
         end.
Proof.
  intros this f Ha Ht. unfold mergedAliases, mergedTransforms.
  split; now apply lookup_spread.
Qed.

Lemma options_override_decorators_witness :
  lookup "orderId" (mergedAliases (withOpts Order (mkOptions (Some [("orderId", ["no"])]) None None)))
  = Some ["no"]
  /\ lookup "orderId" (mergedTransforms (withOpts Order (mkOptions (Some [("orderId", ["no"])]) None None)))
     = None.
Proof.
  apply (options_override_decorators
           (withOpts Order (mkOptions (Some [("orderId", ["no"])]) None None))
           "orderId").
  - repeat constructor. intros [].
  - constructor.
Defined.

(* ====================================================================== *)
(** ** Projection followed by re-population *)
(* ====================================================================== *)

Lemma wireValue_defined v : wireValue v = true -> isUndefined v = false.
Proof.
  unfold wireValue. intros H.
  apply andb_true_iff in H as [H _]. apply andb_true_iff in H as [H _].
  now apply negb_true_iff.
Qed.

Lemma wireValue_not_function v : wireValue v = true -> isFunction v = false.
Proof.
  unfold wireValue. intros H.
  apply andb_true_iff in H as [H _]. apply andb_true_iff in H as [_ H].
  now apply negb_true_iff.
Qed.

Lemma wireValue_plain v : wireValue v = true -> plainValue v = true.
Proof. unfold wireValue. intros H. now apply andb_true_iff in H as [_ H]. Qed.

Lemma updates_keys o0 upd : updates o0 upd -> keys upd = keys o0.
Proof.
  induction 1 as [|a b o0 upd [Hk _] _ IH]; simpl; [reflexivity|].
  now rewrite IH, Hk.
Qed.

Lemma updates_refl o : updates o o.
Proof. induction o; constructor; [split; [reflexivity | now left] | assumption]. Qed.

Lemma updates_setProp o0 upd k v :
  updates o0 upd -> wireValue v = true -> In k (keys upd) ->
  updates o0 (setProp k v upd).
Proof.
  intros Hu Hv. induction Hu as [|a [k' b] o0 upd [Hk Hb] Hu IH]; simpl;
    intros Hin; [contradiction|].
  destruct (k =? k') eqn:E.
  - apply String.eqb_eq in E. subst k'. constructor; [|assumption].
    split; [exact Hk | now right].
  - constructor; [split; assumption|]. apply IH.
    destruct Hin as [Hin | Hin]; [|assumption].
    simpl in Hin. subst. now rewrite String.eqb_refl in E.
Qed.

Lemma extends_refl o : NoDup (keys o) -> extends o o.
Proof.
  intros Hnd. exists o, []. rewrite app_nil_r.
  repeat split; [apply updates_refl | constructor | assumption].
Qed.

Lemma extends_setProp o0 o1 k v :
  extends o0 o1 -> wireValue v = true -> extends o0 (setProp k v o1).
Proof.
  intros [upd [ext [-> [Hu [He Hnd]]]]] Hv.
  destruct (in_dec string_dec k (keys upd)) as [Hin | Hnotin].
  - exists (setProp k v upd), ext. rewrite <- (setProp_app_in k v upd ext Hin).
    repeat split.
    + now apply updates_setProp.
    + assumption.
    + now apply NoDup_keys_setProp.
  - exists upd, (setProp k v ext).
    rewrite <- (setProp_app_notin k v upd ext Hnotin).
    repeat split.
    + assumption.
    + now apply Forall_setProp.
    + now apply NoDup_keys_setProp.
Qed.

Lemma replay_app l1 l2 o : replay (l1 ++ l2) o = replay l2 (replay l1 o).
Proof. unfold replay. apply fold_left_app. Qed.

Lemma keys_filter_In (f : string * value -> bool) k l :
  In k (keys (filter f l)) -> In k (keys l).
Proof.
  unfold keys. rewrite !in_map_iff. intros [x [Hx Hin]].
  apply filter_In in Hin as [Hin _]. now exists x.
Qed.

Lemma NoDup_keys_filter (f : string * value -> bool) l :
  NoDup (keys l) -> NoDup (keys (filter f l)).
Proof.
  induction l as [|[k v] t IH]; simpl; intros Hnd; [constructor|].
  inversion Hnd as [|? ? Hnotin Hnd']; subst.
  destruct (f (k, v)); simpl; [|now apply IH].
  constructor; [|now apply IH].
  intros Hin. apply Hnotin. exact (keys_filter_In f k t Hin).
Qed.

Lemma replay_cons kv l o : replay (kv :: l) o = replay l (replayEntry o kv).
Proof. reflexivity. Qed.

(** Entries for other keys leave the first property where it is. *)
Lemma replay_cons_notin l : forall k x t,
  ~ In k (keys l) -> replay l ((k, x) :: t) = (k, x) :: replay l t.
Proof.
  induction l as [|[k' v'] l IH]; intros k x t Hnotin; [reflexivity|].
  rewrite !replay_cons. unfold replayEntry. cbn [fst snd setProp].
  assert (Hne : (k' =? k) = false).
  { destruct (k' =? k) eqn:E; [|reflexivity].
    apply String.eqb_eq in E. subst. exfalso. apply Hnotin. now left. }
  destruct (isUndefined v').
  - apply IH. intros Hin. apply Hnotin. now right.
  - rewrite Hne. apply IH. intros Hin. apply Hnotin. now right.
Qed.

(** Replaying the reported entries of [upd] on [o0] rebuilds them. *)
Lemma replay_updates o0 upd :
  updates o0 upd -> NoDup (keys upd) ->
  keys (replay (filter isFieldEntry upd) o0) = keys o0
  /\ filter isFieldEntry (replay (filter isFieldEntry upd) o0)
     = filter isFieldEntry upd.
Proof.
  induction 1 as [|[k va] [k' vb] o0 upd [Hk Hb] Hu IH]; intros Hnd;
    [split; reflexivity|].
  simpl in Hk, Hb. subst k'.
  inversion Hnd as [|? ? Hnotin Hnd']; subst.
  specialize (IH Hnd') as [IHk IHf].
  assert (Hfresh : ~ In k (keys (filter isFieldEntry upd))).
  { intros Hin. apply Hnotin. exact (keys_filter_In _ k upd Hin). }
  cbn [filter].
  destruct (isFieldEntry (k, vb)) eqn:Hfe.
  - rewrite replay_cons. unfold replayEntry. cbn [fst snd].
    assert (Hhead : forall T (a b : T),
               b = a \/ isUndefined vb = false ->
               (if isUndefined vb then a else b) = b).
    { intros T a b [-> | ->]; [now destruct (isUndefined vb) | reflexivity]. }
    rewrite Hhead.
    2:{ destruct (isUndefined vb) eqn:Hund; [left | now right].
        destruct Hb as [Hb | Hb]; [|apply wireValue_defined in Hb; congruence].
        subst vb. simpl. now rewrite String.eqb_refl. }
    cbn [setProp]. rewrite String.eqb_refl.
    rewrite (replay_cons_notin _ k vb o0 Hfresh). split.
    + simpl. now rewrite IHk.
    + cbn [filter]. rewrite Hfe. now rewrite IHf.
  - rewrite (replay_cons_notin _ k va o0 Hfresh). split.
    + simpl. now rewrite IHk.
    + cbn [filter].
      assert (Hfa : isFieldEntry (k, va) = false).
      { destruct Hb as [Hb | Hb]; [now rewrite <- Hb|].
        unfold isFieldEntry in *. simpl in *.
        apply wireValue_not_function in Hb. rewrite Hb in Hfe.
        destruct (startsWithUnderscore k); [reflexivity | discriminate]. }
      now rewrite Hfa.
Qed.

(** Replaying defined entries under new keys appends them. *)
Lemma replay_new l : forall o,
  NoDup (keys l) ->
  (forall k, In k (keys l) -> ~ In k (keys o)) ->
  Forall (fun kv => isUndefined (snd kv) = false) l ->
  replay l o = o ++ l.
Proof.
  induction l as [|[k v] l IH]; intros o Hnd Hdis Hdef;
    [now rewrite app_nil_r|].
  inversion Hnd as [|? ? Hnotin Hnd']; subst.
  inversion Hdef as [|? ? Hv Hdef']; subst. simpl in Hv.
  rewrite replay_cons. unfold replayEntry. cbn [fst snd]. rewrite Hv.
  rewrite (setProp_notin k v o (Hdis k (or_introl eq_refl))).
  rewrite IH; [now rewrite <- app_assoc | assumption | | assumption].
  intros k' Hin Hin'. unfold keys in Hin'. rewrite map_app in Hin'.
  apply in_app_or in Hin' as [Hin' | [Hin' | []]].
  - exact (Hdis k' (or_intror Hin) Hin').
  - simpl in Hin'. subst. contradiction.
Qed.

Lemma NoDup_app_disjoint (l1 l2 : list string) x :
  NoDup (l1 ++ l2) -> In x l1 -> In x l2 -> False.
Proof.
  induction l1 as [|a l1 IH]; simpl; intros Hnd H1 H2; [contradiction|].
  inversion Hnd as [|? ? Hnotin Hnd']; subst.
  destruct H1 as [-> | H1].
  - apply Hnotin. apply in_or_app. now right.
  - exact (IH Hnd' H1 H2).
Qed.

(** Replaying what [toPlain] reports of [o1] on [o0] gives an object that
    reports the same. *)
Lemma replay_fields o0 o1 :
  extends o0 o1 ->
  filter isFieldEntry (replay (filter isFieldEntry o1) o0)
  = filter isFieldEntry o1
  /\ NoDup (keys (replay (filter isFieldEntry o1) o0)).
Proof.
  intros [upd [ext [-> [Hu [He Hnd]]]]].
  assert (Hnd' := Hnd). unfold keys in Hnd'. rewrite map_app in Hnd'.
  pose proof (NoDup_app_remove_r _ _ Hnd') as Hndu.
  pose proof (NoDup_app_remove_l _ _ Hnd') as Hnde.
  destruct (replay_updates o0 upd Hu Hndu) as [Hk Hf].
  rewrite filter_app, replay_app.
  assert (Hnew : replay (filter isFieldEntry ext)
                        (replay (filter isFieldEntry upd) o0)
                 = replay (filter isFieldEntry upd) o0 ++ filter isFieldEntry ext).
  { apply replay_new.
    - now apply NoDup_keys_filter.
    - intros k Hin Hin'. rewrite Hk, <- (updates_keys o0 upd Hu) in Hin'.
      apply keys_filter_In in Hin.
      exact (NoDup_app_disjoint _ _ k Hnd' Hin' Hin).
    - apply Forall_forall. intros kv Hin.
      apply filter_In in Hin as [Hin _].
      rewrite Forall_forall in He. apply wireValue_defined. now apply He. }
  rewrite Hnew. split.
  - rewrite filter_app, Hf. f_equal.
    apply forallb_filter_id. apply forallb_forall. intros kv Hin.
    now apply filter_In in Hin as [_ Hin].
  - unfold keys. rewrite map_app. apply NoDup_app.
    + fold (keys (replay (filter isFieldEntry upd) o0)).
      rewrite Hk, <- (updates_keys o0 upd Hu). exact Hndu.
    + now apply (NoDup_keys_filter isFieldEntry ext).
    + intros k Hin Hin'.
      fold (keys (replay (filter isFieldEntry upd) o0)) in Hin.
      rewrite Hk, <- (updates_keys o0 upd Hu) in Hin.
      apply (keys_filter_In isFieldEntry k ext) in Hin'.
      exact (NoDup_app_disjoint _ _ k Hnd' Hin Hin').
Qed.

(** *** The projection of an instance with plain values *)

Lemma toPlainValue_dto useSnakeCase cls o p :
  toPlainValue useSnakeCase (VDto cls o p)
  = VObject
      (fold_left
         (plainStep useSnakeCase o p
            (map (fun kv => (fst kv, projected useSnakeCase (snd kv))) o)
            (map (fun kv => (fst kv, projected useSnakeCase (snd kv))) p))
         (getClassFieldsOf o p) []).
Proof. reflexivity. Qed.

Lemma toPlainValue_not_dto useSnakeCase x :
  isDto x = false -> toPlainValue useSnakeCase x = x.
Proof. destruct x; simpl; intros H; try reflexivity; discriminate. Qed.

Lemma projected_passesThrough useSnakeCase x :
  passesThrough x = true -> projected useSnakeCase x = x.
Proof.
  destruct x; simpl; intros H; try reflexivity; try discriminate.
  f_equal. induction items as [|i items IH]; [reflexivity|].
  simpl in *. apply andb_true_iff in H as [Hi H].
  apply negb_true_iff in Hi.
  now rewrite (toPlainValue_not_dto useSnakeCase i Hi), IH.
Qed.

Lemma projected_all useSnakeCase (ps : props) :
  Forall (fun kv => passesThrough (snd kv) = true) ps ->
  map (fun kv => (fst kv, projected useSnakeCase (snd kv))) ps = ps.
Proof.
  induction 1 as [|[k v] t Hv Ht IH]; [reflexivity|]. simpl in *.
  now rewrite (projected_passesThrough useSnakeCase v Hv), IH.
Qed.

Lemma function_passesThrough v : isFunction v = true -> passesThrough v = true.
Proof. destruct v; simpl; intros H; try reflexivity; discriminate. Qed.

Lemma proto_fields (p : props) :
  Forall (fun kv => isFunction (snd kv) = true) p ->
  forall acc,
    fold_left
      (fun fields pv =>
         let '(prop, v) := pv in
         if negb (prop =? "constructor") && negb (startsWithUnderscore prop)
         then if negb (isFunction v) then setAdd prop fields else fields
         else fields)
      p acc = acc.
Proof.
  induction 1 as [|[k v] t Hv Ht IH]; intros acc; [reflexivity|].
  simpl in *. rewrite Hv. simpl.
  destruct (negb (k =? "constructor") && negb (startsWithUnderscore k));
    apply IH.
Qed.

Section ClassFields.

Variables o p : props.
Hypothesis o_nodup : NoDup (keys o).
Hypothesis p_methods : Forall (fun kv => isFunction (snd kv) = true) p.

Lemma readProp_own k v : In (k, v) o -> readProp o p k = v.
Proof. intros H. unfold readProp. now rewrite (lookup_In k v o o_nodup H). Qed.

Let instanceStep (fields : list string) (prop : string) : list string :=
  if negb (startsWithUnderscore prop)
  then if negb (isFunction (readProp o p prop))
       then setAdd prop fields else fields
  else fields.

Lemma instance_fields l : forall acc,
  (forall k v, In (k, v) l -> In (k, v) o) ->
  NoDup (keys l) ->
  (forall k, In k (keys l) -> ~ In k acc) ->
  fold_left instanceStep (keys l) acc = acc ++ keys (filter isFieldEntry l).
Proof.
  induction l as [|[k v] l IH]; intros acc Hsub Hnd Hdis;
    [now rewrite app_nil_r|].
  inversion Hnd as [|? ? Hnotin Hnd']; subst.
  cbn [keys map fold_left fst filter]. fold (keys l).
  assert (Hstep : instanceStep acc k
                  = if isFieldEntry (k, v) then acc ++ [k] else acc).
  { unfold instanceStep, isFieldEntry, setAdd. cbn [fst snd].
    rewrite (readProp_own k v (Hsub k v (or_introl eq_refl))).
    rewrite (includes_false k acc (Hdis k (or_introl eq_refl))).
    destruct (negb (startsWithUnderscore k)), (negb (isFunction v));
      reflexivity. }
  rewrite Hstep.
  assert (Hsub' : forall k0 v0, In (k0, v0) l -> In (k0, v0) o)
    by (intros; apply Hsub; now right).
  destruct (isFieldEntry (k, v)).
  - rewrite IH; [cbn [keys map fst]; now rewrite <- app_assoc | assumption
                 | assumption | ].
    intros k' Hin Hin'. apply in_app_or in Hin' as [Hin' | [Hin' | []]].
    + exact (Hdis k' (or_intror Hin) Hin').
    + subst. contradiction.
  - apply IH; [assumption | assumption | ].
    intros k' Hin. apply Hdis. now right.
Qed.

(** With methods only on the prototype chain, the class fields are the
    reported own properties, in order. *)
Lemma getClassFieldsOf_own :
  getClassFieldsOf o p = keys (filter isFieldEntry o).
Proof.
  unfold getClassFieldsOf. rewrite (proto_fields p p_methods).
  exact (instance_fields o [] (fun k v H => H) o_nodup (fun k _ H => H)).
Qed.

Hypothesis o_plain : Forall (fun kv => passesThrough (snd kv) = true) o.

Variable useSnakeCase : bool.

Let outputKey (key : string) : string :=
  if useSnakeCase then toSnakeCase key else key.

Lemma plain_fields l : forall acc,
  (forall kv, In kv l -> In kv o /\ isFieldEntry kv = true) ->
  NoDup (map outputKey (keys l)) ->
  (forall k, In k (keys l) -> ~ In (outputKey k) (keys acc)) ->
  fold_left (plainStep useSnakeCase o p o p) (keys l) acc
  = acc ++ map (fun kv => (outputKey (fst kv), snd kv)) l.
Proof.
  induction l as [|[k v] l IH]; intros acc Hsub Hnd Hdis;
    [now rewrite app_nil_r|].
  cbn [keys map fst] in Hnd. fold (keys l) in Hnd.
  inversion Hnd as [|? ? Hnotin Hnd']; subst.
  destruct (Hsub (k, v) (or_introl eq_refl)) as [Hin Hfe].
  unfold isFieldEntry in Hfe. cbn [fst snd] in Hfe.
  apply andb_true_iff in Hfe as [Hu Hf].
  apply negb_true_iff in Hu. apply negb_true_iff in Hf.
  cbn [keys map fold_left fst snd]. fold (keys l).
  unfold plainStep at 2. rewrite (readProp_own k v Hin), Hf, Hu.
  cbn [orb]. fold (outputKey k).
  rewrite (setProp_notin (outputKey k) v acc (Hdis k (or_introl eq_refl))).
  rewrite IH; [now rewrite <- app_assoc | | assumption | ].
  - intros kv Hkv. apply Hsub. now right.
  - intros k' Hin' Hacc. unfold keys in Hacc. rewrite map_app in Hacc.
    apply in_app_or in Hacc as [Hacc | [Hacc | []]].
    + exact (Hdis k' (or_intror Hin') Hacc).
    + simpl in Hacc. apply Hnotin. rewrite Hacc.
      now apply in_map.
Qed.

(** [toPlain] of such an instance lists its reported own properties. *)
Lemma toPlainValue_fields cls :
  NoDup (map outputKey (keys (filter isFieldEntry o))) ->
  toPlainValue useSnakeCase (VDto cls o p)
  = VObject (map (fun kv => (outputKey (fst kv), snd kv))
                 (filter isFieldEntry o)).
Proof.
  intros Hnd. rewrite toPlainValue_dto.
  rewrite (projected_all useSnakeCase o o_plain).
  rewrite (projected_all useSnakeCase p).
  2:{ eapply Forall_impl; [|exact p_methods].
      intros kv. apply function_passesThrough. }
  rewrite getClassFieldsOf_own.
  rewrite (plain_fields (filter isFieldEntry o) []); [reflexivity | | assumption | ].
  - intros kv Hin. now apply filter_In in Hin.
  - intros k _ [].
Qed.

End ClassFields.

Lemma stringifyThrows_payload v :
  isUndefined v = true \/ wireValue v = true -> stringifyThrows v = false.
Proof.
  intros [H | H].
  - destruct v; try discriminate. reflexivity.
  - apply wireValue_plain in H. unfold plainValue in H.
    apply andb_true_iff in H as [_ H]. now apply negb_true_iff.
Qed.

Lemma extends_Forall (P : value -> Prop) o0 o1 :
  (forall v, wireValue v = true -> P v) ->
  Forall (fun kv => P (snd kv)) o0 ->
  extends o0 o1 ->
  Forall (fun kv => P (snd kv)) o1.
Proof.
  intros HW H0 [upd [ext [-> [Hu [He _]]]]]. apply Forall_app. split.
  - induction Hu as [|a b o0 upd [_ Hb] Hu IH]; [constructor|].
    inversion H0; subst. constructor; [|now apply IH].
    destruct Hb as [-> | Hb]; [assumption | now apply HW].
  - eapply Forall_impl; [|exact He]. intros kv. apply HW.
Qed.

Lemma replay_Forall (P : string * value -> Prop) l :
  forall o, Forall P o -> Forall P l -> Forall P (replay l o).
Proof.
  induction l as [|[k v] l IH]; intros o Ho Hl; [assumption|].
  inversion Hl; subst. rewrite replay_cons. apply IH; [|assumption].
  unfold replayEntry. cbn [fst snd].
  destruct (isUndefined v); [assumption | now apply Forall_setProp].
Qed.

Lemma passesThrough_plain v : plainValue v = true -> passesThrough v = true.
Proof. unfold plainValue. intros H. now apply andb_true_iff in H as [H _]. Qed.

(** *** The populate loop on plain values *)

Lemma In_setProp {A : Type} (k : string) (v : A) (ps : list (string * A)) kv :
  In kv (setProp k v ps) -> kv = (k, v) \/ In kv ps.
Proof.
  induction ps as [|[k' v'] t IH]; simpl.
  - intros [H | []]. now left.
  - destruct (k =? k') eqn:E; simpl.
    + intros [H | H]; [now left | right; now right].
    + intros [H | H]; [right; now left|].
      destruct (IH H) as [H' | H']; [now left | right; now right].
Qed.

Lemma keys_setProp_sub {A : Type} (k : string) (v : A) (ps : list (string * A)) f :
  In f (keys (setProp k v ps)) -> f = k \/ In f (keys ps).
Proof.
  unfold keys. rewrite !in_map_iff. intros [kv [Hf Hin]].
  destruct (In_setProp k v ps kv Hin) as [-> | H]; [now left|].
  right. now exists kv.
Qed.

Lemma keys_setProp_sup {A : Type} (k : string) (v : A) (ps : list (string * A)) f :
  In f (keys ps) -> In f (keys (setProp k v ps)).
Proof.
  induction ps as [|[k' v'] t IH]; simpl; [contradiction|].
  destruct (k =? k') eqn:E; simpl.
  - apply String.eqb_eq in E. subst k'. trivial.
  - intros [H | H]; [now left | right; now apply IH].
Qed.

(** A member of [Object.prototype] called on a plain value returns a
    plain value. *)
Lemma objectPrototypeCall_wire name v r :
  wireValue v = true ->
  objectPrototypeCall name v = Returns r -> wireValue r = true.
Proof.
  intros Hv. unfold objectPrototypeCall.
  destruct (name =? "toString"); [intros H; now injection H as <-|].
  destruct (name =? "constructor").
  { intros H. injection H as <-.
    destruct v; try discriminate Hv; try reflexivity; exact Hv. }
  destruct (name =? "isPrototypeOf").
  { destruct (isObject v); [discriminate|]. intros H. now injection H as <-. }
  destruct (name =? "__proto__"); [discriminate|].
  destruct (name =? "toLocaleString"); discriminate.
Qed.

Section SteadyTransforms.

Variable isDev : bool.
Variable aliases : aliasTable.
Variable transforms : transformTable.
Variable classFields : list string.

Hypothesis transforms_steady : Forall (fun ft => steady (snd ft)) transforms.

Lemma registered_steady f t : lookup f transforms = Some t -> steady t.
Proof.
  intros H. apply lookup_Some_In in H.
  rewrite Forall_forall in transforms_steady.
  exact (transforms_steady (f, t) H).
Qed.

(** On a plain value the pipeline returns and assigns a plain value,
    which the transform registered for the field, if any, keeps. *)
Lemma pipeline_wire this t v :
  wireValue v = true ->
  exists x,
    completionOf (pipeline isDev transforms this t v) = Returned
    /\ instanceOf (pipeline isDev transforms this t v) = assign this t x
    /\ wireValue x = true
    /\ (forall tr, lookup t transforms = Some tr -> keeps tr x).
Proof.
  intros Hv. unfold pipeline.
  destruct (transformFor t transforms) as [f|] eqn:Hf.
  - destruct (transformFor_cases _ _ _ Hf) as [Hreg | [Hnone [_ ->]]].
    + pose proof (registered_steady t f Hreg v Hv) as Hst.
      destruct (f v) as [r | e] eqn:Hfv.
      * destruct Hst as [Hr Hk]. exists r. repeat split; try assumption.
        intros tr Htr. rewrite Hreg in Htr. now injection Htr as <-.
      * exists v.
        assert (Hkeep : forall tr, lookup t transforms = Some tr -> keeps tr v).
        { intros tr Htr. rewrite Hreg in Htr. injection Htr as <-.
          intros r Hr. rewrite Hfv in Hr. discriminate. }
        destruct (effectiveStrict this && isDev); [|now repeat split].
        destruct e; try discriminate Hst; now repeat split.
    + assert (Hkeep : forall x tr, lookup t transforms = Some tr -> keeps tr x).
      { intros x tr Htr. rewrite Hnone in Htr. discriminate. }
      destruct (objectPrototypeCall t v) as [r | e] eqn:Hc.
      * exists r. repeat split; [|apply Hkeep].
        exact (objectPrototypeCall_wire t v r Hv Hc).
      * exists v. pose proof (objectPrototypeCall_printable t v e Hc) as Hp.
        destruct (effectiveStrict this && isDev); [|repeat split; auto].
        destruct e; try discriminate Hp; repeat split; auto.
  - apply transformFor_None in Hf as [Hnone _].
    assert (Hkeep : forall tr, lookup t transforms = Some tr -> keeps tr v).
    { intros tr Htr. rewrite Hnone in Htr. discriminate. }
    exists v.
    destruct (negb (isUndefined (get this t))); [|now repeat split].
    destruct (effectiveStrict this) eqn:Hs; [|now repeat split].
    pose proof (validateType_returns isDev this t v (typeof (get this t))) as Hr.
    rewrite (stringifyThrows_payload v (or_intror Hv)), andb_false_r in Hr.
    specialize (Hr eq_refl).
    destruct (validateType isDev this t v (typeof (get this t))) as [[|e] ws];
      [now repeat split | discriminate].
Qed.

(** The loop body on a plain or undefined value: unless resolving the
    key throws, it leaves the instance alone or assigns a plain value to
    the property it writes. *)
Lemma initKey_wire this k v :
  isUndefined v = true \/ wireValue v = true ->
  let r := initKey isDev aliases transforms classFields this k v in
  instanceOf r = this
  \/ exists t x,
       instanceOf r = assign this t x
       /\ writeOf this classFields aliases k v = Normal (Some t)
       /\ wireValue x = true
       /\ (forall tr, lookup t transforms = Some tr -> keeps tr x).
Proof.
  intros Hv. cbv zeta. rewrite initKey_writeOf.
  destruct (writeOf this classFields aliases k v) as [[t|]|e] eqn:Hw;
    [|now left|now left].
  destruct (writeOf_Some _ _ _ _ _ _ Hw) as [_ [Hdef _]].
  destruct Hv as [Hv | Hv]; [congruence|].
  destruct (pipeline_wire this t v Hv) as [x [_ [Hi [Hx Hk]]]].
  right. exists t, x. now repeat split.
Qed.

(** With an alias table that has its own entry for every class field
    named like a member of [Object.prototype], the loop returns normally
    on plain values. *)
Lemma initLoop_wire_returns entries :
  existsb (inheritsMember aliases) classFields = false ->
  Forall (fun kv => isUndefined (snd kv) = true \/ wireValue (snd kv) = true)
         entries ->
  forall this,
    completionOf (initLoop isDev aliases transforms classFields this entries)
    = Returned.
Proof.
  intros Hscan Hwire this.
  destruct (initLoop_facts isDev aliases transforms classFields entries this)
    as [_ [_ Hthrow]].
  destruct (completionOf (initLoop isDev aliases transforms classFields this
                                   entries)) as [|e]; [reflexivity|].
  exfalso. rewrite Forall_forall in Hwire.
  destruct (Hthrow e eq_refl)
    as [[_ H] | [_ [_ [[_ H] | [k [v [f [t [Hin [Hl [Hd Ht]]]]]]]]]]].
  - congruence.
  - apply existsb_exists in H as [kv [Hin Hkv]].
    rewrite (stringifyThrows_payload (snd kv) (Hwire kv Hin)) in Hkv.
    discriminate.
  - destruct (Hwire (k, v) Hin) as [Hu | Hw]; simpl in *; [congruence|].
    pose proof (registered_steady f t Hl v Hw) as Hst.
    rewrite Ht in Hst. discriminate.
Qed.

(** Assigning a plain value that the transform of the field keeps: the
    pipeline returns and assigns exactly that value. *)
Lemma pipeline_kept this f x :
  wireValue x = true ->
  includes f objectPrototypeMembers = false ->
  (forall tr, lookup f transforms = Some tr -> keeps tr x) ->
  completionOf (pipeline isDev transforms this f x) = Returned
  /\ instanceOf (pipeline isDev transforms this f x) = assign this f x.
Proof.
  intros Hx Hm Hk. unfold pipeline.
  destruct (transformFor f transforms) as [tr|] eqn:Hf.
  - destruct (transformFor_cases _ _ _ Hf) as [Hreg | [_ [Hmem _]]];
      [|congruence].
    pose proof (registered_steady f tr Hreg x Hx) as Hst.
    destruct (tr x) as [r | e] eqn:Hv.
    + rewrite (Hk tr Hreg r Hv). now split.
    + destruct (effectiveStrict this && isDev); [|now split].
      destruct e; try discriminate Hst; now split.
  - destruct (negb (isUndefined (get this f))); [|now split].
    destruct (effectiveStrict this) eqn:Hs; [|now split].
    pose proof (validateType_returns isDev this f x (typeof (get this f))) as Hr.
    rewrite (stringifyThrows_payload x (or_intror Hx)), andb_false_r in Hr.
    specialize (Hr eq_refl).
    destruct (validateType isDev this f x (typeof (get this f))) as [[|e] ws];
      [now split | discriminate].
Qed.

End SteadyTransforms.

(** *** Names that survive the round trip *)

Lemma camelReplace_changed s :
  (camelReplace s <> s -> hasUpper (camelReplace s) = true)
  /\ forall c, camelReplace (String c s) <> String c s ->
               hasUpper (camelReplace (String c s)) = true.
Proof.
  induction s as [|l r [IH1 IH2]].
  - split; [intros H; now exfalso | intros c H; now exfalso].
  - split; [apply IH2|]. intros c.
    destruct (isUnderscore c && isLower l) eqn:E.
    + rewrite (camelReplace_cons_match c l r E). intros _.
      apply andb_true_iff in E as [_ Hl].
      destruct (upper_char_facts l Hl) as [_ [_ [Hu _]]].
      simpl. now rewrite Hu.
    + rewrite (camelReplace_cons_nomatch c (String l r) E). intros H.
      cbn [hasUpper]. rewrite IH2; [apply orb_true_r|].
      intros Heq. apply H. now rewrite Heq.
Qed.

(** A key that [toCamelCase] changes gets a capital letter. *)
Lemma toCamelCase_changed_hasUpper k :
  toCamelCase k <> k -> hasUpper (toCamelCase k) = true.
Proof.
  destruct k as [|c rest]; [intros H; now exfalso|].
  unfold toCamelCase. apply (proj2 (camelReplace_changed rest)).
Qed.

Lemma hasUpper_snake_differs f : hasUpper f = true -> toSnakeCase f <> f.
Proof.
  intros H He. pose proof (toSnakeCase_no_upper f) as Hn.
  rewrite He in Hn. congruence.
Qed.

Lemma lookup_of_key {A : Type} (k : string) (ps : list (string * A)) :
  In k (keys ps) -> exists v, lookup k ps = Some v /\ In (k, v) ps.
Proof.
  induction ps as [|[k' v'] t IH]; simpl; [contradiction|].
  destruct (k =? k') eqn:E.
  - apply String.eqb_eq in E. subst k'. intros _. exists v'. split; [|now left].
    reflexivity.
  - intros [H | H]; [subst; now rewrite String.eqb_refl in E|].
    destruct (IH H) as [v [Hl Hin]]. exists v. split; [assumption | now right].
Qed.

Lemma updates_In o0 upd f d :
  updates o0 upd -> In (f, d) o0 ->
  exists x, In (f, x) upd /\ (x = d \/ wireValue x = true).
Proof.
  induction 1 as [|[k a] [k' b] o0 upd [Hk Hb] Hu IH]; simpl;
    [contradiction|].
  simpl in Hk, Hb. subst k'.
  intros [H | H].
  - injection H as -> ->. exists b. split; [now left | assumption].
  - destruct (IH H) as [x [Hin Hx]]. exists x. split; [now right | assumption].
Qed.

Lemma roundTripName_spec declared aliases f :
  roundTripName declared aliases f = true ->
  plainCamelCase f = true
  /\ includes f objectPrototypeMembers = false
  /\ (includes f declared = true ->
      toSnakeCase f = f \/ includes (toSnakeCase f) declared = false)
  /\ (includes f declared = false ->
      includes (toSnakeCase f) declared = false
      /\ existsb (fun entry => includes (fst entry) declared
                               && includes (toSnakeCase f) (snd entry))
                 aliases = false).
Proof.
  unfold roundTripName. intros H.
  apply andb_true_iff in H as [H H3]. apply andb_true_iff in H as [H1 H2].
  apply negb_true_iff in H2. split; [assumption|]. split; [assumption|].
  destruct (includes f declared); split; intros Hd; try discriminate.
  - apply orb_true_iff in H3 as [H3 | H3].
    + left. now apply String.eqb_eq.
    + right. now apply negb_true_iff.
  - apply andb_true_iff in H3 as [Ha Hb].
    apply negb_true_iff in Ha. apply negb_true_iff in Hb. now split.
Qed.

(** Names that survive the round trip have distinct snake_case
    spellings. *)
Lemma NoDup_snake_keys ks :
  (forall f, In f ks -> plainCamelCase f = true) ->
  NoDup ks -> NoDup (map toSnakeCase ks).
Proof.
  induction ks as [|k ks IH]; simpl; intros Hp Hnd; [constructor|].
  inversion Hnd as [|? ? Hnotin Hnd']; subst.
  constructor; [|apply IH; [intros f Hf; apply Hp; now right | assumption]].
  intros Hin. apply in_map_iff in Hin as [k' [Heq Hin]].
  pose proof (plainCamelCase_roundtrip k (Hp k (or_introl eq_refl))) as Hk.
  pose proof (plainCamelCase_roundtrip k' (Hp k' (or_intror Hin))) as Hk'.
  rewrite Heq, Hk in Hk'. subst k'. contradiction.
Qed.

(** A target other than the empty string, when no class field has the
    empty name: it is a class field, or the camelCase projection of the
    key, which then differs from the key, is not bound to a function and
    is in no alias list of a class field. *)
Lemma resolved_field_or_new this k classFields (aliases : aliasTable) t :
  includes "" classFields = false ->
  resolved this k classFields aliases = Some t -> t <> "" ->
  In t classFields
  \/ (t = toCamelCase k /\ t <> k /\ isFunction (get this t) = false
      /\ existsb (fun entry : string * list string =>
                    includes (fst entry) classFields
                    && includes t (snd entry)) aliases = false).
Proof.
  intros Hempty Hr Hne.
  assert (Hcase : forall u,
             findMatchingFieldWithoutScan this k classFields aliases = Some u ->
             In u classFields
             \/ (u = toCamelCase k /\ u <> k /\ isFunction (get this u) = false
                 /\ existsb (fun entry : string * list string =>
                               includes (fst entry) classFields
                               && includes u (snd entry)) aliases = false)).
  { intros u Hu.
    destruct (withoutScan_cases _ _ _ _ _ Hu) as [Hin | [H1 [H2 [_ [H4 H5]]]]];
      [now left | right]. repeat split; try assumption.
    unfold reachesScan in H5. apply andb_true_iff in H5 as [_ H5].
    apply negb_true_iff in H5.
    destruct (existsb _ aliases) eqn:E in |- *; [|reflexivity].
    apply existsb_exists in E as [entry [Hin E]].
    assert (Hx : existsb (fun entry : string * list string =>
                   includes (fst entry) classFields
                   && (includes k (snd entry)
                       || includes (toCamelCase k) (snd entry))) aliases = true).
    { apply existsb_exists. exists entry. split; [assumption|].
      apply andb_true_iff in E as [E1 E2]. rewrite E1, <- H1, E2.
      now rewrite orb_true_r. }
    congruence. }
  destruct (resolved_inv this k classFields aliases t Hr Hne)
    as [Hf | [Hf _]]; [exact (Hcase t Hf)|].
  exfalso. destruct (Hcase "" Hf) as [Hin | [H1 [H2 _]]].
  - apply includes_In in Hin. congruence.
  - symmetry in H1. apply toCamelCase_empty in H1. congruence.
Qed.

(** *** Populating, projecting and populating again *)

Section RoundTrip.

Variable isDev : bool.
Variable fresh : FlexDto.
Variable payload : props.
Variable options : option InternalOptions.

Let this1 : FlexDto := withOpts fresh (optionsOrEmpty options).
Let T : transformTable := mergedTransforms this1.
Let A : aliasTable := mergedAliases this1.
Let F0 : list string := getClassFields this1.
Let populated := init isDev fresh (VObject payload) options.
Let again := init isDev fresh (toPlain true (instanceOf populated)) options.

Hypothesis own_nodup : NoDup (keys (own fresh)).
Hypothesis proto_methods :
  forallb (fun kv => isFunction (snd kv)) (proto fresh) = true.
Hypothesis own_plain :
  forallb (fun kv => plainValue (snd kv)) (own fresh) = true.
Hypothesis payload_wire :
  forallb (fun kv => isUndefined (snd kv) || wireValue (snd kv)) payload = true.
Hypothesis transforms_steady : Forall (fun ft => steady (snd ft)) T.
Hypothesis defaults_kept :
  forall f t d,
    lookup f T = Some t -> lookup f (own fresh) = Some d -> keeps t d.
Hypothesis names_round_trip :
  forallb (roundTripName F0 A) (getClassFields (instanceOf populated)) = true.

Let o0 : props := own fresh.
Let o1 : props := own (instanceOf populated).
Let F1 : props := filter isFieldEntry o1.

Lemma proto_methods_Forall :
  Forall (fun kv => isFunction (snd kv) = true) (proto fresh).
Proof. apply Forall_forall. now apply forallb_forall. Qed.

Lemma payload_Forall :
  Forall (fun kv => isUndefined (snd kv) = true \/ wireValue (snd kv) = true)
         payload.
Proof.
  apply Forall_forall. intros kv Hin.
  rewrite forallb_forall in payload_wire.
  specialize (payload_wire kv Hin).
  now apply orb_true_iff in payload_wire.
Qed.

Lemma populated_loop : populated = initLoop isDev A T F0 this1 payload.
Proof. reflexivity. Qed.

(** First pass: the populated instance holds the properties of the fresh
    one, each kept or replaced by a plain value, followed by new
    properties with plain values; every value is kept by the transform
    registered for its property. *)
Lemma populated_values :
  extends o0 o1
  /\ proto (instanceOf populated) = proto fresh
  /\ (forall f x tr, In (f, x) o1 -> lookup f T = Some tr -> keeps tr x).
Proof.
  unfold o1. rewrite populated_loop.
  apply (initLoop_invariant_entries isDev A T F0
           (fun st => extends o0 (own st)
                      /\ proto st = proto fresh
                      /\ (forall f x tr, In (f, x) (own st) ->
                                         lookup f T = Some tr -> keeps tr x))).
  - intros st k v Hin [He [Hp Hk]].
    pose proof payload_Forall as Hpay. rewrite Forall_forall in Hpay.
    destruct (initKey_wire isDev A T F0 transforms_steady st k v
                (Hpay (k, v) Hin))
      as [-> | [t [x [-> [_ [Hx Hkx]]]]]]; [now repeat split|].
    simpl. split; [now apply extends_setProp|]. split; [assumption|].
    intros f y tr Hy Htr.
    destruct (In_setProp t x (own st) (f, y) Hy) as [Heq | Hold].
    + injection Heq as -> ->. now apply Hkx.
    + exact (Hk f y tr Hold Htr).
  - split; [now apply extends_refl|]. split; [reflexivity|].
    intros f x tr Hin Htr. apply (defaults_kept f tr x Htr).
    now apply lookup_In.
Qed.

Lemma o1_nodup : NoDup (keys o1).
Proof.
  destruct populated_values as [[upd [ext [_ [_ [_ H]]]]] _]. exact H.
Qed.

Lemma o1_plain : Forall (fun kv => plainValue (snd kv) = true) o1.
Proof.
  destruct populated_values as [He _].
  apply (extends_Forall (fun v => plainValue v = true) (own fresh) o1);
    [exact wireValue_plain | | exact He].
  apply Forall_forall. now apply forallb_forall.
Qed.

Lemma o1_passes : Forall (fun kv => passesThrough (snd kv) = true) o1.
Proof.
  eapply Forall_impl; [|exact o1_plain]. intros kv. apply passesThrough_plain.
Qed.

Lemma F0_own : F0 = keys (filter isFieldEntry o0).
Proof.
  exact (getClassFieldsOf_own o0 (proto fresh) own_nodup proto_methods_Forall).
Qed.

Lemma populated_class_fields :
  getClassFields (instanceOf populated) = keys F1.
Proof.
  destruct populated_values as [_ [Hp _]].
  unfold getClassFields. rewrite Hp.
  exact (getClassFieldsOf_own o1 (proto fresh) o1_nodup proto_methods_Forall).
Qed.

Lemma F1_names f : In f (keys F1) -> roundTripName F0 A f = true.
Proof.
  intros Hin. pose proof names_round_trip as Hr.
  rewrite populated_class_fields, forallb_forall in Hr. now apply Hr.
Qed.

(** The class fields of the fresh instance are fields of the populated
    one. *)
Lemma F0_sub f : In f F0 -> In f (keys F1).
Proof.
  rewrite F0_own. unfold keys at 1. rewrite in_map_iff.
  intros [[k d] [Hk Hin]]. simpl in Hk. subst k.
  apply filter_In in Hin as [Hin Hfe].
  destruct populated_values as [[upd [ext [Ho [Hu _]]]] _].
  destruct (updates_In o0 upd f d Hu Hin) as [x [Hx Hcase]].
  unfold F1, keys. apply in_map_iff. exists (f, x). split; [reflexivity|].
  apply filter_In. split.
  - fold o1 in Ho. rewrite Ho. apply in_or_app. now left.
  - unfold isFieldEntry in *. simpl in *.
    apply andb_true_iff in Hfe as [Hfu Hff]. rewrite Hfu. simpl.
    destruct Hcase as [-> | Hw]; [assumption|].
    now rewrite (wireValue_not_function x Hw).
Qed.

Lemma F0_names f : In f F0 -> roundTripName F0 A f = true.
Proof. intros H. apply F1_names. now apply F0_sub. Qed.

Lemma F0_no_empty : includes "" F0 = false.
Proof.
  destruct (includes "" F0) eqn:E; [|reflexivity].
  apply includes_In in E. apply F0_names in E.
  apply roundTripName_spec in E as [E _]. discriminate.
Qed.

Lemma F0_ordinary : existsb (inheritsMember A) F0 = false.
Proof.
  apply ordinaryNames_inherit. unfold ordinaryNames.
  apply forallb_forall. intros f Hin. apply negb_true_iff.
  now destruct (roundTripName_spec _ _ _ (F0_names f Hin)) as [_ [H _]].
Qed.

Lemma populated_returned : completionOf populated = Returned.
Proof.
  rewrite populated_loop.
  exact (initLoop_wire_returns isDev A T F0 transforms_steady payload
           F0_ordinary payload_Forall this1).
Qed.

(** A class field of the fresh instance is an own property whose value
    is not a function. *)
Lemma F0_value f :
  In f F0 -> In f (keys o0) /\ isFunction (get this1 f) = false.
Proof.
  rewrite F0_own. intros Hin. split; [exact (keys_filter_In _ f o0 Hin)|].
  unfold keys in Hin. apply in_map_iff in Hin as [[k d] [Hk Hin]].
  simpl in Hk. subst k. apply filter_In in Hin as [Hin Hfe].
  unfold get. simpl.
  rewrite (readProp_own (own fresh) (proto fresh) own_nodup f d Hin).
  unfold isFieldEntry in Hfe. simpl in Hfe.
  apply andb_true_iff in Hfe as [_ Hf]. now apply negb_true_iff.
Qed.

(** Second pass: a property that [init] has added is the camelCase
    projection of a key that [toCamelCase] changes, it is not bound to a
    function on the fresh instance and is in no alias list of a class
    field; a function-valued property of the fresh instance is never
    assigned. *)
Lemma populated_names :
  (forall f, In f (keys o1) ->
     In f (keys o0)
     \/ (toSnakeCase f <> f /\ isFunction (get this1 f) = false
         /\ existsb (fun entry : string * list string =>
                       includes (fst entry) F0 && includes f (snd entry)) A
            = false))
  /\ (forall f, In f (keys o0) -> isFunction (get this1 f) = true ->
                lookup f o1 = lookup f o0).
Proof.
  set (D := fun st : FlexDto =>
              forall f, In f (keys (own st)) ->
                In f (keys o0)
                \/ (toSnakeCase f <> f /\ isFunction (get this1 f) = false
                    /\ existsb (fun entry : string * list string =>
                                  includes (fst entry) F0
                                  && includes f (snd entry)) A = false)).
  set (E := fun st : FlexDto =>
              forall f, In f (keys o0) -> isFunction (get this1 f) = true ->
                        lookup f (own st) = lookup f o0).
  set (S := fun st : FlexDto =>
              (forall f, In f (keys o0) -> In f (keys (own st)))
              /\ proto st = proto fresh).
  assert (Hinv : D (instanceOf populated) /\ E (instanceOf populated)
                 /\ S (instanceOf populated)).
  { rewrite populated_loop.
    apply (initLoop_invariant isDev A T F0 (fun st => D st /\ E st /\ S st)).
    - intros st k v [HD [HE [HS Hp]]].
      destruct (initKey_facts isDev A T F0 st k v)
        as [[-> | [t [v' [-> Hw]]]] _]; [now repeat split|].
      destruct (writeOf_Some _ _ _ _ _ _ Hw) as [_ [_ [_ [Hr Hs]]]].
      destruct (shouldAssign_true t k Hs) as [Hne _].
      assert (Hget : forall c, In c (keys o0) ->
                               isFunction (get this1 c) = true ->
                               get st c = get this1 c).
      { intros c Hc Hf. unfold get, readProp. rewrite Hp.
        now rewrite (HE c Hc Hf). }
      assert (Hdiff : forall c, In c (keys o0) ->
                                isFunction (get this1 c) = true -> t <> c).
      { intros c Hc Hf ->.
        destruct (resolved_field_or_new st k F0 A c F0_no_empty Hr Hne)
          as [Hin | [_ [_ [Hnf _]]]].
        - destruct (F0_value c Hin) as [_ Hv]. congruence.
        - rewrite (Hget c Hc Hf) in Hnf. congruence. }
      split; [|split; [|split]].
      + intros f Hf. simpl in Hf.
        destruct (keys_setProp_sub t v' (own st) f Hf) as [-> | Hold];
          [|now apply HD].
        destruct (resolved_field_or_new st k F0 A t F0_no_empty Hr Hne)
          as [Hin | [Hc [Hk [Hnf Hal]]]].
        * left. exact (proj1 (F0_value t Hin)).
        * destruct (in_dec string_dec t (keys (own st))) as [Hown | Hnew];
            [now apply HD|].
          right. split; [|split; [|assumption]].
          -- apply hasUpper_snake_differs. rewrite Hc.
             apply toCamelCase_changed_hasUpper. now rewrite <- Hc.
          -- assert (Hn0 : ~ In t (keys o0)) by (intros H0; apply Hnew; now apply HS).
             assert (Hsame : get st t = get this1 t).
             { unfold get, readProp. rewrite Hp.
               rewrite (lookup_None t (own st) Hnew).
               change (own this1) with (own fresh).
               change (proto this1) with (proto fresh).
               now rewrite (lookup_None t (own fresh) Hn0). }
             now rewrite <- Hsame.
      + intros f Hf Hfun. simpl.
        rewrite lookup_setProp_other; [now apply HE|].
        now apply Hdiff.
      + intros f Hf. simpl. apply keys_setProp_sup. now apply HS.
      + exact Hp.
    - split; [|split; [|split]].
      + intros f Hf. now left.
      + intros f _ _. reflexivity.
      + intros f Hf. exact Hf.
      + reflexivity. }
  destruct Hinv as [HD [HE _]]. split; [exact HD | exact HE].
Qed.

(** Every field name of the populated instance is resolved back from its
    snake_case spelling by the fresh instance, and assigned. *)
Lemma F1_recovered f :
  In f (keys F1) ->
  startsWithUnderscore (toSnakeCase f) = false
  /\ resolved this1 (toSnakeCase f) F0 A = Some f
  /\ shouldAssign (Some f) (toSnakeCase f) = true
  /\ includes f objectPrototypeMembers = false.
Proof.
  intros Hin.
  destruct (roundTripName_spec _ _ _ (F1_names f Hin))
    as [Hcamel [Hmem [Hdecl Hnew]]].
  assert (Hpat : camelCasePattern f = true).
  { unfold plainCamelCase in Hcamel.
    now apply andb_true_iff in Hcamel as [H _]. }
  destruct (camelCasePattern_fixed f Hpat) as [_ [Hu Hus]].
  pose proof (plainCamelCase_roundtrip f Hcamel) as Hround.
  assert (Hne : f <> "") by (intros ->; discriminate).
  split; [assumption|]. split; [|split; [|assumption]].
  - apply resolved_found; [|assumption].
    unfold findMatchingFieldWithoutScan. rewrite Hround.
    destruct (includes f F0) eqn:Hd.
    + destruct (Hdecl eq_refl) as [-> | ->]; [now rewrite Hd | reflexivity].
    + destruct (Hnew eq_refl) as [Hs Hal]. rewrite Hs.
      assert (Hprop : In f (keys o1)) by exact (keys_filter_In _ f o1 Hin).
      destruct populated_names as [HD HE].
      assert (Hfacts : toSnakeCase f <> f /\ isFunction (get this1 f) = false
                       /\ existsb (fun entry : string * list string =>
                                     includes (fst entry) F0
                                     && includes f (snd entry)) A = false).
      { destruct (HD f Hprop) as [H0 | H]; [|exact H]. exfalso.
        destruct (lookup_of_key f o0 H0) as [d [Hl Hind]].
        assert (Hfd : isFunction d = true).
        { destruct (isFunction d) eqn:Efd; [reflexivity|]. exfalso.
          assert (Hf0 : In f F0).
          { rewrite F0_own. unfold keys. apply in_map_iff. exists (f, d).
            split; [reflexivity|]. apply filter_In. split; [assumption|].
            unfold isFieldEntry. simpl. now rewrite Hu, Efd. }
          apply includes_In in Hf0. congruence. }
        assert (Hg : isFunction (get this1 f) = true).
        { unfold get. simpl.
          now rewrite (readProp_own (own fresh) (proto fresh) own_nodup f d Hind). }
        pose proof (HE f H0 Hg) as Hsame. fold o0 in Hl. rewrite Hl in Hsame.
        unfold keys, F1 in Hin. apply in_map_iff in Hin as [[k x] [Hk Hx]].
        simpl in Hk. subst k. apply filter_In in Hx as [Hx Hfe].
        rewrite (lookup_In f x o1 o1_nodup Hx) in Hsame.
        injection Hsame as ->.
        unfold isFieldEntry in Hfe. simpl in Hfe. rewrite Hfd in Hfe.
        now rewrite andb_false_r in Hfe. }
      destruct Hfacts as [Hdiff [Hnf Hal']].
      rewrite find_none_of_existsb.
      * rewrite (eqb_false_of_neq f "" Hne).
        rewrite (eqb_false_of_neq f (toSnakeCase f)
                   (fun H => Hdiff (eq_sym H))).
        rewrite Hu. simpl. change (get this1 f) with (get this1 f).
        now rewrite Hnf.
      * destruct (existsb _ A) eqn:Ex in |- *; [|reflexivity].
        apply existsb_exists in Ex as [entry [Hen Hp]].
        apply andb_true_iff in Hp as [Hp1 Hp2].
        apply orb_true_iff in Hp2 as [Hp2 | Hp2].
        -- assert (existsb (fun entry : string * list string =>
                              includes (fst entry) F0
                              && includes (toSnakeCase f) (snd entry)) A = true).
           { apply existsb_exists. exists entry. split; [assumption|].
             now rewrite Hp1, Hp2. }
           congruence.
        -- assert (existsb (fun entry : string * list string =>
                              includes (fst entry) F0
                              && includes f (snd entry)) A = true).
           { apply existsb_exists. exists entry. split; [assumption|].
             now rewrite Hp1, Hp2. }
           congruence.
  - unfold shouldAssign. rewrite (eqb_false_of_neq f "" Hne), Hu, Hround.
    now rewrite String.eqb_refl.
Qed.

Lemma projection_snake :
  toPlain true (instanceOf populated)
  = VObject (map (fun kv => (toSnakeCase (fst kv), snd kv)) F1).
Proof.
  destruct populated_values as [_ [Hp _]].
  unfold toPlain, asValue. rewrite Hp.
  apply (toPlainValue_fields o1 (proto fresh) o1_nodup proto_methods_Forall
           o1_passes true).
  apply NoDup_snake_keys.
  - intros f Hf. now destruct (roundTripName_spec _ _ _ (F1_names f Hf)).
  - apply NoDup_keys_filter. exact o1_nodup.
Qed.

Lemma projection_camel :
  toPlain false (instanceOf populated) = VObject F1.
Proof.
  destruct populated_values as [_ [Hp _]].
  unfold toPlain, asValue. rewrite Hp.
  rewrite (toPlainValue_fields o1 (proto fresh) o1_nodup proto_methods_Forall
             o1_passes false).
  - f_equal. unfold F1. rewrite <- (map_id (filter isFieldEntry o1)) at 2.
    apply map_ext. now intros [k v].
  - rewrite map_id. apply NoDup_keys_filter. exact o1_nodup.
Qed.

(** Populating from the projected entries assigns each defined entry to
    the property it came from. *)
Lemma initLoop_replay F :
  forall st,
    Forall (fun kv => In (fst kv) (keys F1)
                      /\ plainValue (snd kv) = true
                      /\ isFunction (snd kv) = false
                      /\ (forall tr, lookup (fst kv) T = Some tr ->
                                     keeps tr (snd kv))) F ->
    (forall c, isFunction (get this1 c) = false ->
               isFunction (get st c) = false) ->
    let r := initLoop isDev A T F0 st
                      (map (fun kv => (toSnakeCase (fst kv), snd kv)) F) in
    completionOf r = Returned
    /\ own (instanceOf r) = replay F (own st)
    /\ proto (instanceOf r) = proto st.
Proof.
  induction F as [|[k v] F IH]; intros st HF Hst; [repeat split|].
  inversion HF as [|? ? [Hin [Hplain [Hnf Hkeep]]] HF']; subst.
  simpl in Hin, Hplain, Hnf, Hkeep.
  destruct (F1_recovered k Hin) as [Hu [Hr [Hs Hmem]]].
  destruct (shouldAssign_true k (toSnakeCase k) Hs) as [Hne _].
  cbn [map fst snd].
  assert (Hstep :
            completionOf (initKey isDev A T F0 st (toSnakeCase k) v) = Returned
            /\ instanceOf (initKey isDev A T F0 st (toSnakeCase k) v)
               = if isUndefined v then st else assign st k v).
  { rewrite initKey_writeOf. unfold writeOf. rewrite Hu.
    destruct (isUndefined v) eqn:Hv; [now split|].
    rewrite (targetOf_normal st (toSnakeCase k) F0 A F0_ordinary).
    rewrite (resolved_stable this1 st (toSnakeCase k) F0 A k (Hst _) Hne Hr).
    rewrite Hs.
    apply (pipeline_kept isDev T transforms_steady st k v);
      [|assumption|assumption].
    unfold wireValue. now rewrite Hv, Hnf, Hplain. }
  destruct Hstep as [Hc Hi].
  destruct (initLoop_cons isDev A T F0 st (toSnakeCase k) v
              (map (fun kv => (toSnakeCase (fst kv), snd kv)) F) Hc)
    as [Hc' Hi'].
  cbv zeta. rewrite Hc', Hi'.
  set (next := instanceOf (initKey isDev A T F0 st (toSnakeCase k) v)) in *.
  assert (Hnext : own next = replayEntry (own st) (k, v)
                  /\ proto next = proto st
                  /\ (forall c, isFunction (get this1 c) = false ->
                                isFunction (get next c) = false)).
  { rewrite Hi. unfold replayEntry. cbn [fst snd].
    destruct (isUndefined v); [repeat split; assumption|].
    repeat split. intros c Hc0. rewrite get_assign.
    destruct (c =? k); [assumption | now apply Hst]. }
  destruct Hnext as [Ho [Hp Hst']].
  destruct (IH next HF' Hst') as [H1 [H2 H3]].
  repeat split; [assumption | | now rewrite H3].
  rewrite H2, Ho. reflexivity.
Qed.

Lemma again_facts :
  completionOf again = Returned
  /\ own (instanceOf again) = replay F1 (own fresh)
  /\ proto (instanceOf again) = proto fresh.
Proof.
  unfold again. rewrite projection_snake.
  change (init isDev fresh
               (VObject (map (fun kv => (toSnakeCase (fst kv), snd kv)) F1))
               options)
    with (initLoop isDev A T F0 this1
                   (map (fun kv => (toSnakeCase (fst kv), snd kv)) F1)).
  apply (initLoop_replay F1 this1); [|trivial].
  apply Forall_forall. intros [k v] Hin. cbn [fst snd].
  pose proof Hin as Hin'. apply filter_In in Hin' as [Ho Hfe].
  split; [|split; [|split]].
  - unfold keys. apply in_map_iff. now exists (k, v).
  - pose proof o1_plain as Hp. rewrite Forall_forall in Hp.
    exact (Hp (k, v) Ho).
  - unfold isFieldEntry in Hfe. apply andb_true_iff in Hfe as [_ Hf].
    now apply negb_true_iff in Hf.
  - intros tr Htr. destruct populated_values as [_ [_ Hk]].
    exact (Hk k v tr Ho Htr).
Qed.

Lemma round_trip :
  completionOf populated = Returned
  /\ completionOf again = Returned
  /\ toPlain false (instanceOf again) = toPlain false (instanceOf populated).
Proof.
  destruct populated_values as [He _].
  destruct again_facts as [Hc2 [Ho2 Hp2]].
  destruct (replay_fields (own fresh) o1 He) as [Hf Hnd].
  fold F1 in Hf, Hnd.
  split; [exact populated_returned|]. split; [assumption|].
  rewrite projection_camel.
  unfold toPlain, asValue. rewrite Ho2, Hp2.
  rewrite (toPlainValue_fields (replay F1 (own fresh)) (proto fresh) Hnd
             proto_methods_Forall).
  - rewrite Hf. f_equal. rewrite <- (map_id F1) at 2.
    apply map_ext. now intros [k v].
  - apply replay_Forall.
    + apply Forall_forall. intros kv Hin. apply passesThrough_plain.
      rewrite forallb_forall in own_plain. now apply own_plain.
    + apply Forall_forall. intros kv Hin. apply filter_In in Hin as [Hin _].
      pose proof o1_passes as Hp. rewrite Forall_forall in Hp. now apply Hp.
  - rewrite map_id. now apply NoDup_keys_filter.
Qed.

End RoundTrip.



Lemma noNegative_steady : steady noNegative.
Proof.
  intros v Hv. unfold noNegative.
  destruct v as [| | b | n | n | s | name | items | ps | cls o p | w];
    try (split; [exact Hv | intros r H; now injection H as <-]).
  destruct (n <? 0)%Z eqn:E.
  - split; [reflexivity | intros r H; now injection H as <-].
  - split; [exact Hv|]. intros r H. simpl in H. rewrite E in H.
    now injection H as <-.
Qed.

Lemma cart_keys_nodup : NoDup (keys (own Cart)).
Proof. repeat constructor; simpl; intuition discriminate. Qed.

Lemma cart_transforms_steady :
  Forall (fun ft => steady (snd ft))
         (mergedTransforms (withOpts Cart (optionsOrEmpty cartOptions))).
Proof. constructor; [exact noNegative_steady | constructor]. Qed.

Lemma cart_default_kept :
  forall f t d,
    lookup f (mergedTransforms (withOpts Cart (optionsOrEmpty cartOptions)))
    = Some t ->
    lookup f (own Cart) = Some d -> keeps t d.
Proof.
  intros f t d. simpl. destruct (f =? "itemCount"); [|discriminate].
  intros Ht Hd. injection Ht as <-. injection Hd as <-.
  intros r H. now injection H as <-.
Qed.


(** The projections of that round trip. *)
Example cart_round_trip :
  let populated :=
    init true Cart
         (VObject [("item_count", VNumber (-5)); ("nick_name", VString "kim");
                   ("note", VUndefined)]) cartOptions in
  toPlain true (instanceOf populated)
  = VObject [("item_count", VNumber 0); ("nick_name", VString "kim")]
  /\ toPlain false (instanceOf populated)
     = VObject [("itemCount", VNumber 0); ("nickName", VString "kim")].
Proof. repeat split. Qed.

(* ====================================================================== *)
(** ** Field resolution: further properties *)
(* ====================================================================== *)

(** X8. The scan of rule 4 never selects a field: a class field whose
    alias list holds the key (or its camelCase projection) is already
    found by the forward alias match of rule 3.  So [findMatchingField]
    returns what rules 1, 2, 3 and 5 alone give, with one exception: when
    rules 1 to 3 find nothing and some class field for which the alias
    table has no entry of its own is named like a member of
    [Object.prototype], the scan calls [includes] on the inherited member
    and [findMatchingField] throws a TypeError. *)
Theorem reverse_alias_scan_never_decides :
  forall (this : FlexDto) (dataKey : string) (classFields : list string)
         (aliases : aliasTable),
    findMatchingField this dataKey classFields aliases
    = if reachesScan dataKey classFields aliases
         && existsb (inheritsMember aliases) classFields
      then Abrupt includesTypeError
      else Normal (findMatchingFieldWithoutScan this dataKey classFields aliases).
Proof. exact findMatchingField_scan. Qed.

(** X9. The target [init] computes for a data key is a class field, or
    the camelCase projection of the key (then different from the key and
    not bound to a function); with the class fields of an instance, it
    never begins with an underscore. *)
Theorem target_is_field_or_projection :
  forall (this snapshot : FlexDto) (k : string) (aliases : aliasTable)
         (t : string),
    targetOf this k (getClassFields snapshot) aliases = Normal (Some t) ->
    startsWithUnderscore t = false
    /\ (In t (getClassFields snapshot)
        \/ (t = toCamelCase k /\ t <> k /\ isFunction (get this t) = false)).
Proof.
  intros this snapshot k aliases t H.
  apply targetOf_returns in H. symmetry in H.
  destruct (resolved_cases this k _ aliases t H) as [Hin | [Hc [Hne [Hu Hf]]]].
  - split; [|now left].
    apply getClassFieldsOf_In in Hin. now destruct Hin.
  - split; [assumption | right; repeat split; assumption].
Qed.

Lemma target_is_field_or_projection_witness :
  startsWithUnderscore "paymentId" = false
  /\ (In "paymentId" (getClassFields Payment)
      \/ ("paymentId" = toCamelCase "pay_id" /\ "paymentId" <> "pay_id"
          /\ isFunction (get Payment "paymentId") = false)).
Proof.
  exact (target_is_field_or_projection Payment Payment "pay_id"
           [("paymentId", ["pay_id"; "payId"; "id"])] "paymentId" eq_refl).
Defined.

(* ====================================================================== *)
(** ** The populate operation: frame, bounds and failure *)
(* ====================================================================== *)

Lemma keys_setProp_ext {A : Type} (k : string) (v : A) (ps : list (string * A)) :
  exists ext, keys (setProp k v ps) = keys ps ++ ext.
Proof.
  destruct (in_dec string_dec k (keys ps)) as [Hin | Hnotin].
  - exists []. rewrite app_nil_r. now apply keys_setProp_in.
  - exists [k]. rewrite (setProp_notin k v ps Hnotin).
    unfold keys. now rewrite map_app.
Qed.

(** X10. What [init] writes.  Of the own properties whose names begin
    with an underscore it writes [_opts] and no other: [_opts] is set to
    the options given (to [{}] when none are given) as soon as the data
    is found to be an object, and is left alone otherwise.  Whatever the
    data, the options and the transforms, also when [init] throws,
    [_strictMode], every other own property with such a name, the
    prototype chain, the class name and the decorator tables are as
    before, and the existing own properties keep their place: the keys
    after [init] are the keys before, followed by the new ones. *)
Theorem init_frame :
  forall (isDev : bool) (this : FlexDto) (data : value)
         (options : option InternalOptions),
    let after := instanceOf (init isDev this data options) in
    _opts after
    = (if truthy data && (typeof data =? "object")
       then optionsOrEmpty options else _opts this)
    /\ _strictMode after = _strictMode this
    /\ (forall k, startsWithUnderscore k = true ->
                  lookup k (own after) = lookup k (own this))
    /\ (exists added, keys (own after) = keys (own this) ++ added)
    /\ proto after = proto this
    /\ className after = className this
    /\ aliasMetadata after = aliasMetadata this
    /\ transformMetadata after = transformMetadata this.
Proof.
  intros isDev this data options. cbv zeta. unfold init.
  destruct (truthy data); simpl;
    [|split_all; try reflexivity; exists []; now rewrite app_nil_r].
  destruct (typeof data =? "object"); simpl;
    [|split_all; try reflexivity; exists []; now rewrite app_nil_r].
  set (this1 := withOpts this (optionsOrEmpty options)).
  apply (initLoop_invariant isDev (mergedAliases this1) (mergedTransforms this1)
           (getClassFields this1)
           (fun st =>
              _opts st = optionsOrEmpty options
              /\ _strictMode st = _strictMode this
              /\ (forall k, startsWithUnderscore k = true ->
                            lookup k (own st) = lookup k (own this))
              /\ (exists added, keys (own st) = keys (own this) ++ added)
              /\ proto st = proto this
              /\ className st = className this
              /\ aliasMetadata st = aliasMetadata this
              /\ transformMetadata st = transformMetadata this)).
  - intros st k v HP.
    destruct (initKey_facts isDev (mergedAliases this1) (mergedTransforms this1)
                (getClassFields this1) st k v)
      as [[Hi | [t [v' [Hi Hw]]]] _]; rewrite Hi; [assumption|].
    destruct HP as [Ho [Hs [Hpriv [[added Hkeys] [Hp [Hc [Ha Ht]]]]]]].
    destruct (writeOf_Some _ _ _ _ _ _ Hw) as [_ [_ [_ [_ Hsa]]]].
    destruct (shouldAssign_true t k Hsa) as [_ [Hu _]].
    split_all; try assumption.
    + intros k' Hk'. simpl. rewrite lookup_setProp_other; [now apply Hpriv|].
      intros ->. congruence.
    + simpl. destruct (keys_setProp_ext t v' (own st)) as [ext Hext].
      exists (added ++ ext). now rewrite Hext, Hkeys, app_assoc.
  - split_all; try reflexivity. exists []. now rewrite app_nil_r.
Qed.

(** X11. [init] emits at most one warning per own key of the payload. *)
Theorem warnings_bounded_by_payload :
  forall (isDev : bool) (this : FlexDto) (data : value)
         (options : option InternalOptions),
    (length (warningsOf (init isDev this data options))
     <= length (ownEntries data))%nat.
Proof.
  intros isDev this data options.
  exact (proj1 (init_facts isDev this data options)).
Qed.





Lemma initLoop_untargeted isDev aliases transforms classFields f entries :
  forall this,
    forallb (fun kv => negb (mayTarget aliases (fst kv) f)) entries = true ->
    lookup f (own (instanceOf
                     (initLoop isDev aliases transforms classFields this entries)))
    = lookup f (own this).
Proof.
  induction entries as [|[k v] rest IH]; intros this H; [reflexivity|].
  simpl in H. apply andb_true_iff in H as [Hk Hrest].
  apply negb_true_iff in Hk. simpl initLoop.
  assert (Hstep : lookup f (own (instanceOf
                    (initKey isDev aliases transforms classFields this k v)))
                  = lookup f (own this)).
  { destruct (initKey_facts isDev aliases transforms classFields this k v)
      as [[Hi | [t [v' [Hi Hw]]]] _]; rewrite Hi; [reflexivity|].
    destruct (writeOf_Some _ _ _ _ _ _ Hw) as [_ [_ [_ [Ht _]]]].
    apply resolved_mayTarget in Ht. simpl.
    apply lookup_setProp_other. intros ->. congruence. }
  destruct (initKey isDev aliases transforms classFields this k v)
    as [[[|e] this'] ws]; unfold instanceOf in *; simpl in *; [|assumption].
  specialize (IH this' Hrest).
  destruct (initLoop isDev aliases transforms classFields this' rest)
    as [[c this''] ws']. simpl in *. now rewrite IH.
Qed.

(** X14. A field that no payload key can be resolved to keeps its value:
    if [f] is none of the payload keys, none of their camelCase
    projections, and owns no alias list (in the merged table) that holds
    a payload key or its projection, then [init] leaves [f] as it was
    (absent, if it was absent). *)
Theorem init_leaves_untargeted_field :
  forall (isDev : bool) (this : FlexDto) (data : value)
         (options : option InternalOptions) (f : string),
    forallb (fun kv =>
               negb (mayTarget
                       (mergedAliases (withOpts this (optionsOrEmpty options)))
                       (fst kv) f))
            (ownEntries data) = true ->
    lookup f (own (instanceOf (init isDev this data options)))
    = lookup f (own this).
Proof.
  intros isDev this data options f H. unfold init.
  destruct (negb (truthy data) || negb (typeof data =? "object"));
    [reflexivity|].
  now rewrite initLoop_untargeted.
Qed.

Lemma init_leaves_untargeted_field_witness :
  lookup "userName"
         (own (instanceOf (init true User
                                (VObject [("user_id", VString "U1");
                                          ("extra_key", VNumber 1)]) strictOn)))
  = lookup "userName" (own User).
Proof.
  exact (init_leaves_untargeted_field true User
           (VObject [("user_id", VString "U1"); ("extra_key", VNumber 1)])
           strictOn "userName" eq_refl).
Defined.

Lemma unknownPlainKey_dropped isDev aliases transforms classFields this k v :
  existsb (inheritsMember aliases) classFields = false ->
  unknownPlainKey classFields aliases k = true ->
  initKey isDev aliases transforms classFields this k v = (Returned, this, []).
Proof.
  unfold unknownPlainKey. intros Hscan H.
  apply andb_true_iff in H as [H Hal]. apply andb_true_iff in H as [Hc Hcf].
  apply String.eqb_eq in Hc. apply negb_true_iff in Hcf.
  apply negb_true_iff in Hal.
  assert (Hf : findMatchingFieldWithoutScan this k classFields aliases = None).
  { unfold findMatchingFieldWithoutScan. rewrite Hc, Hcf.
    destruct (find _ aliases) as [entry|] eqn:H3.
    { apply find_some in H3 as [Hin H3].
      assert (existsb (fun entry => includes (fst entry) classFields
                                    && includes k (snd entry)) aliases = true).
      { apply existsb_exists. exists entry. split; [assumption|].
        now rewrite orb_diag in H3. }
      congruence. }
    rewrite String.eqb_refl. simpl. now rewrite andb_false_r. }
  rewrite initKey_writeOf. unfold writeOf.
  rewrite (targetOf_normal this k classFields aliases Hscan).
  rewrite resolved_withoutScan, Hf; [|rewrite Hf; discriminate].
  destruct (startsWithUnderscore k), (isUndefined v); reflexivity.
Qed.

(** X15. Keys that [toCamelCase] leaves unchanged (camelCase keys, in
    particular), that are no class fields and that no alias list of a
    class field holds, are dropped: when the alias table has an entry of
    its own for every class field named like a member of
    [Object.prototype] (so that the reverse alias scan, which such keys
    reach, does not throw), a payload made of such keys leaves the
    instance as it was, apart from storing the options, and emits no
    warning. *)
Theorem unknown_plain_keys_dropped :
  forall (isDev : bool) (this : FlexDto) (payload : props)
         (options : option InternalOptions),
    let this1 := withOpts this (optionsOrEmpty options) in
    existsb (inheritsMember (mergedAliases this1)) (getClassFields this1)
    = false ->
    forallb (fun kv => unknownPlainKey (getClassFields this1)
                                       (mergedAliases this1) (fst kv))
            payload = true ->
    init isDev this (VObject payload) options = (Returned, this1, []).
Proof.
  intros isDev this payload options this1 Hscan H. unfold init. simpl.
  fold this1. generalize dependent H.
  generalize (mergedTransforms this1) as transforms.
  induction payload as [|[k v] rest IH]; intros transforms H; [reflexivity|].
  simpl in H. apply andb_true_iff in H as [Hk Hrest]. simpl.
  rewrite (unknownPlainKey_dropped isDev _ transforms _ this1 k v Hscan Hk).
  now rewrite (IH transforms Hrest).
Qed.

Lemma unknown_plain_keys_dropped_witness :
  init true User (VObject [("nickName", VString "kim"); ("age", VNumber 3)])
       strictOn
  = (Returned, withOpts User (optionsOrEmpty strictOn), []).
Proof.
  exact (unknown_plain_keys_dropped true User
           [("nickName", VString "kim"); ("age", VNumber 3)] strictOn
           eq_refl eq_refl).
Defined.

(** X16. A snake_case key of an undeclared name is not dropped: when the
    key (not beginning with an underscore, with a defined value) is
    changed by [toCamelCase], neither the key nor its projection is a
    class field, no alias list of a class field holds either, the
    reverse alias scan does not throw, and the projection is not yet a
    property of the instance and has no transform, [init] creates the
    property named by the projection, after the existing ones, and
    assigns the raw value to it, without a warning. *)
Theorem undeclared_snake_key_creates_property :
  forall (isDev : bool) (this : FlexDto) (options : option InternalOptions)
         (k : string) (v : value),
    let this1 := withOpts this (optionsOrEmpty options) in
    let camel := toCamelCase k in
    let r := init isDev this (VObject [(k, v)]) options in
    startsWithUnderscore k = false ->
    isUndefined v = false ->
    camel <> k ->
    includes k (getClassFields this1) = false ->
    includes camel (getClassFields this1) = false ->
    existsb (fun entry => includes (fst entry) (getClassFields this1)
                          && (includes k (snd entry) || includes camel (snd entry)))
            (mergedAliases this1) = false ->
    existsb (inheritsMember (mergedAliases this1)) (getClassFields this1)
    = false ->
    get this camel = VUndefined ->
    transformFor camel (mergedTransforms this1) = None ->
    completionOf r = Returned
    /\ own (instanceOf r) = own this ++ [(camel, v)]
    /\ get (instanceOf r) camel = v
    /\ warningsOf r = [].
Proof.
  intros isDev this options k v this1 camel r Hk Hv Hne Hcf Hcc Hal Hscan
         Hget Htr.
  subst r. rewrite init_single_key. fold this1.
  assert (Hnonempty : camel <> "").
  { intros He. apply toCamelCase_empty in He. subst k. now apply Hne. }
  assert (Hu : startsWithUnderscore camel = false)
    by exact (toCamelCase_keeps_first k Hk).
  assert (Hf : findMatchingFieldWithoutScan this1 k (getClassFields this1)
                                            (mergedAliases this1) = Some camel).
  { unfold findMatchingFieldWithoutScan. fold camel. rewrite Hcf, Hcc.
    rewrite (find_none_of_existsb _ _ Hal).
    rewrite (eqb_false_of_neq _ _ Hnonempty), (eqb_false_of_neq _ _ Hne), Hu.
    simpl. change (get this1 camel) with (get this camel).
    now rewrite Hget. }
  rewrite initKey_writeOf. unfold writeOf.
  rewrite Hk, Hv, (targetOf_normal _ _ _ _ Hscan).
  rewrite (resolved_found _ _ _ _ _ Hf Hnonempty).
  unfold shouldAssign. fold camel.
  rewrite (eqb_false_of_neq _ _ Hnonempty), String.eqb_refl, Hu. simpl.
  unfold pipeline. rewrite Htr.
  change (get this1 camel) with (get this camel). rewrite Hget. simpl.
  unfold instanceOf, warningsOf, completionOf; simpl. split_all;
    try reflexivity.
  - apply setProp_notin. intros Hin.
    destruct (lookup_of_key camel (own this) Hin) as [x [Hl _]].
    assert (Hx : x = VUndefined).
    { unfold get, readProp in Hget. now rewrite Hl in Hget. }
    subst x.
    pose proof (own_property_is_class_field this1 camel VUndefined Hl
                  eq_refl Hu) as Hfield.
    congruence.
  - apply (get_assign_same this1).
Qed.

Lemma undeclared_snake_key_creates_property_witness :
  let r := init true User (VObject [("nick_name", VString "kim")]) strictOn in
  completionOf r = Returned
  /\ own (instanceOf r) = own User ++ [("nickName", VString "kim")]
  /\ get (instanceOf r) "nickName" = VString "kim"
  /\ warningsOf r = [].
Proof.
  exact (undeclared_snake_key_creates_property true User strictOn
           "nick_name" (VString "kim")
           eq_refl eq_refl ltac:(discriminate) eq_refl eq_refl eq_refl
           eq_refl eq_refl eq_refl).
Defined.

(** X17. An alias that contains an underscore does not populate its
    field: when the key [k] contains an underscore, is listed among the
    aliases of the class field [f], and neither [k] nor its camelCase
    projection is a class field (no class field having the empty name),
    [init] with [{ k: v }] assigns nothing at all. *)
Theorem underscore_alias_assigns_nothing :
  forall (isDev : bool) (this : FlexDto) (options : option InternalOptions)
         (k f : string) (names : list string) (v : value),
    let this1 := withOpts this (optionsOrEmpty options) in
    includesUnderscore k = true ->
    includes k (getClassFields this1) = false ->
    includes (toCamelCase k) (getClassFields this1) = false ->
    includes "" (getClassFields this1) = false ->
    includes f (getClassFields this1) = true ->
    lookup f (mergedAliases this1) = Some names ->
    includes k names = true ->
    init isDev this (VObject [(k, v)]) options = (Returned, this1, []).
Proof.
  intros isDev this options k f names v this1 Hu Hcf Hcc Hempty Hf Hl Hin.
  rewrite init_single_key. fold this1.
  rewrite initKey_writeOf. unfold writeOf.
  destruct (startsWithUnderscore k); [reflexivity|].
  destruct (isUndefined v); [reflexivity|].
  assert (Hforward :
            existsb (fun entry : string * list string =>
                       includes (fst entry) (getClassFields this1)
                       && (includes k (snd entry)
                           || includes (toCamelCase k) (snd entry)))
                    (mergedAliases this1) = true).
  { apply existsb_exists. exists (f, names).
    split; [now apply lookup_Some_In|]. simpl. now rewrite Hf, Hin. }
  assert (Hfind : exists entry : string * list string,
             findMatchingFieldWithoutScan this1 k (getClassFields this1)
                                          (mergedAliases this1)
             = Some (fst entry)
             /\ includes (fst entry) (getClassFields this1) = true).
  { unfold findMatchingFieldWithoutScan. rewrite Hcf, Hcc.
    destruct (find _ (mergedAliases this1)) as [entry|] eqn:H3.
    - exists entry. split; [reflexivity|].
      apply find_some in H3 as [_ H3]. now apply andb_true_iff in H3 as [H3 _].
    - apply find_none_existsb in H3. congruence. }
  destruct Hfind as [entry [Hfm Hentry]].
  assert (Hne : fst entry <> "") by (intros He; rewrite He in Hentry; congruence).
  rewrite targetOf_before_scan.
  2:{ unfold reachesScan. rewrite Hforward. now rewrite andb_false_r. }
  rewrite (resolved_found _ _ _ _ _ Hfm Hne).
  unfold shouldAssign. rewrite Hu.
  assert (Hdiff : (fst entry =? toCamelCase k) = false).
  { apply eqb_false_of_neq. intros He. rewrite He in Hentry. congruence. }
  rewrite Hdiff. simpl. now rewrite andb_false_r.
Qed.

Lemma underscore_alias_assigns_nothing_witness :
  init false Payment (VObject [("pay_id", VString "P001")]) paymentOptions
  = (Returned, withOpts Payment (optionsOrEmpty paymentOptions), []).
Proof.
  exact (underscore_alias_assigns_nothing false Payment paymentOptions
           "pay_id" "paymentId" ["pay_id"; "payId"; "id"] (VString "P001")
           eq_refl eq_refl eq_refl eq_refl eq_refl eq_refl eq_refl).
Defined.

(** *** Classes without a field named like a member of [Object.prototype] *)

Lemma member_is_base f :
  includes f objectPrototypeMembers = true ->
  startsWithUnderscore f = false ->
  includes f baseMembers = true.
Proof.
  unfold includes, objectPrototypeMembers. simpl. intros H Hu.
  repeat match goal with
         | H : _ || _ = true |- _ => apply orb_true_iff in H as [H | H]
         | H : (f =? _) = true |- _ => apply String.eqb_eq in H; subst f
         end; try reflexivity; discriminate.
Qed.

(** On such an instance, the methods inherited from [Object.prototype]
    are not shadowed by a value that is not a function. *)
Lemma ordinary_methods this :
  ordinaryNames (getClassFields this) = true ->
  forall f, includes f objectPrototypeMembers = true ->
            startsWithUnderscore f = false -> f <> "constructor" ->
            isFunction (get this f) = true.
Proof.
  intros Hord f Hm Hu Hc.
  destruct (isFunction (get this f)) eqn:E; [reflexivity|]. exfalso.
  assert (Hin : In f (getClassFields this)).
  { apply getClassFieldsOf_In. split; [assumption|].
    unfold get, readProp in E.
    destruct (lookup f (own this)) as [x|] eqn:Ho.
    - left. split.
      + apply lookup_Some_In in Ho. change f with (fst (f, x)). now apply in_map.
      + unfold readProp. now rewrite Ho.
    - destruct (lookup f (proto this)) as [x|] eqn:Hp.
      + right. split; [assumption|]. exists x.
        split; [now apply lookup_Some_In | assumption].
      + rewrite (member_is_base f Hm Hu) in E. discriminate. }
  rewrite (ordinaryNames_spec _ f Hord Hin) in Hm. discriminate.
Qed.

(** The target of a key is then no such name either. *)
Lemma target_not_member st k classFields aliases t :
  ordinaryNames classFields = true ->
  (forall f, includes f objectPrototypeMembers = true ->
             startsWithUnderscore f = false -> f <> "constructor" ->
             isFunction (get st f) = true) ->
  resolved st k classFields aliases = Some t ->
  includes t objectPrototypeMembers = false.
Proof.
  intros Hord Hinv Hr.
  destruct (resolved_cases st k classFields aliases t Hr)
    as [Hin | [Hc [Hne [Hu Hf]]]];
    [exact (ordinaryNames_spec _ t Hord Hin)|].
  destruct (includes t objectPrototypeMembers) eqn:Hm; [|reflexivity].
  exfalso.
  assert (Hup : hasUpper t = true).
  { rewrite Hc. apply toCamelCase_changed_hasUpper. now rewrite <- Hc. }
  assert (Hcons : t <> "constructor") by (intros ->; discriminate).
  rewrite (Hinv t Hm Hu Hcons) in Hf. discriminate.
Qed.

Lemma pipeline_raw isDev transforms this t v :
  transformFor t transforms = None ->
  instanceOf (pipeline isDev transforms this t v) = this
  \/ instanceOf (pipeline isDev transforms this t v) = assign this t v.
Proof.
  intros Hl. unfold pipeline. rewrite Hl.
  destruct (negb (isUndefined (get this t))); [|now right].
  destruct (effectiveStrict this); [|now right].
  destruct (validateType isDev this t v (typeof (get this t))) as [[|e] ws];
    [now right | now left].
Qed.

Lemma initLoop_raw isDev aliases classFields (Q : string * value -> Prop)
      entries :
  ordinaryNames classFields = true ->
  forall this,
    (forall f, includes f objectPrototypeMembers = true ->
               startsWithUnderscore f = false -> f <> "constructor" ->
               isFunction (get this f) = true) ->
    (forall k v t, In (k, v) entries -> Q (t, v)) ->
    Forall Q (own this) ->
    Forall Q (own (instanceOf (initLoop isDev aliases [] classFields this entries))).
Proof.
  intros Hord.
  induction entries as [|[k v] rest IH]; intros this Hinv Hq H0; [assumption|].
  simpl initLoop.
  assert (Hstep :
            Forall Q (own (instanceOf
                             (initKey isDev aliases [] classFields this k v)))
            /\ (forall f, includes f objectPrototypeMembers = true ->
                          startsWithUnderscore f = false -> f <> "constructor" ->
                          isFunction
                            (get (instanceOf
                                    (initKey isDev aliases [] classFields this k v))
                                 f) = true)).
  { rewrite initKey_writeOf.
    destruct (writeOf this classFields aliases k v) as [[t|]|e] eqn:Hw;
      [|now split|now split].
    destruct (writeOf_Some _ _ _ _ _ _ Hw) as [_ [_ [_ [Hr _]]]].
    pose proof (target_not_member this k classFields aliases t Hord Hinv Hr)
      as Hm.
    assert (Htr : transformFor t [] = None)
      by (apply transformFor_None; now split).
    destruct (pipeline_raw isDev [] this t v Htr) as [-> | ->];
      [now split|]. split.
    - simpl. apply Forall_setProp; [|assumption].
      apply (Hq k v t). now left.
    - intros f Hf Hu Hc. rewrite get_assign_other; [now apply Hinv|].
      intros ->. congruence. }
  destruct Hstep as [Hown Hinv'].
  destruct (initKey isDev aliases [] classFields this k v)
    as [[[|e] this'] ws]; unfold instanceOf in *; simpl in *; [|assumption].
  assert (IH' := IH this' Hinv'
                    (fun k0 v0 t0 Hin => Hq k0 v0 t0 (or_intror Hin)) Hown).
  destruct (initLoop isDev aliases [] classFields this' rest)
    as [[c this''] ws']. exact IH'.
Qed.

(** X18. Without transforms, on a class none of whose fields is named
    like a member of [Object.prototype], [init] never converts a value:
    every own property of the instance after [init] is a property it had
    before, unchanged, or holds a value of the payload as it was given,
    whether or not a type mismatch was reported. *)
Theorem init_assigns_raw_values :
  forall (isDev : bool) (this : FlexDto) (payload : props)
         (options : option InternalOptions),
    let this1 := withOpts this (optionsOrEmpty options) in
    mergedTransforms this1 = [] ->
    ordinaryNames (getClassFields this1) = true ->
    Forall (fun kv => In kv (own this) \/ In (snd kv) (map snd payload))
           (own (instanceOf (init isDev this (VObject payload) options))).
Proof.
  intros isDev this payload options this1 Htr Hord. unfold init. simpl.
  fold this1. rewrite Htr.
  apply initLoop_raw.
  - exact Hord.
  - exact (ordinary_methods this1 Hord).
  - intros k v t Hin. right. simpl.
    change v with (snd (k, v)). now apply in_map.
  - apply Forall_forall. intros kv Hin. now left.
Qed.

Lemma init_assigns_raw_values_witness :
  Forall (fun kv => In kv (own Person)
                    \/ In (snd kv) (map snd [("age", VString "30")]))
         (own (instanceOf (init true Person (VObject [("age", VString "30")])
                                strictOn))).
Proof.
  exact (init_assigns_raw_values true Person [("age", VString "30")] strictOn
           eq_refl eq_refl).
Defined.

(* ====================================================================== *)
(** ** The projection: further properties *)
(* ====================================================================== *)

Lemma lookup_map_values {A B : Type} (f : A -> B) (k : string)
      (ps : list (string * A)) :
  lookup k (map (fun kv => (fst kv, f (snd kv))) ps) = option_map f (lookup k ps).
Proof.
  induction ps as [|[k' v'] t IH]; [reflexivity|]. simpl.
  destruct (k =? k'); [reflexivity | exact IH].
Qed.

Lemma readProp_projected useSnakeCase o p key :
  readProp (map (fun kv => (fst kv, projected useSnakeCase (snd kv))) o)
           (map (fun kv => (fst kv, projected useSnakeCase (snd kv))) p) key
  = projected useSnakeCase (readProp o p key).
Proof.
  unfold readProp. rewrite !lookup_map_values.
  destruct (lookup key o) as [v|]; [reflexivity|].
  destruct (lookup key p) as [v|]; [reflexivity|]. cbn [option_map].
  destruct (includes key baseMembers); reflexivity.
Qed.

Lemma isDto_toPlainValue useSnakeCase x : isDto (toPlainValue useSnakeCase x) = false.
Proof. destruct x; reflexivity. Qed.

Lemma projected_facts useSnakeCase x :
  isFunction (projected useSnakeCase x) = isFunction x
  /\ passesThrough (projected useSnakeCase x) = true.
Proof.
  destruct x; try (split; reflexivity).
  split; [reflexivity|]. simpl. apply forallb_forall. intros y Hy.
  apply in_map_iff in Hy as [x [<- _]].
  now rewrite isDto_toPlainValue.
Qed.

Section ProjectionFold.

Variable useSnakeCase : bool.
Variables o p : props.

Let o' := map (fun kv => (fst kv, projected useSnakeCase (snd kv))) o.
Let p' := map (fun kv => (fst kv, projected useSnakeCase (snd kv))) p.

Lemma plainStep_reported result key :
  plainStep useSnakeCase o p o' p' result key
  = if reported o p key
    then setProp (outputKeyOf useSnakeCase key)
                 (projected useSnakeCase (readProp o p key)) result
    else result.
Proof.
  unfold plainStep, reported, outputKeyOf, o', p'.
  rewrite readProp_projected.
  now destruct (isFunction (readProp o p key) || startsWithUnderscore key).
Qed.

Lemma projection_fold l : forall acc,
  NoDup (map (outputKeyOf useSnakeCase) (filter (reported o p) l)) ->
  (forall key, In key (filter (reported o p) l) ->
               ~ In (outputKeyOf useSnakeCase key) (keys acc)) ->
  fold_left (plainStep useSnakeCase o p o' p') l acc
  = acc ++ map (fun key => (outputKeyOf useSnakeCase key,
                            projected useSnakeCase (readProp o p key)))
               (filter (reported o p) l).
Proof.
  induction l as [|key l IH]; intros acc Hnd Hdis; [now rewrite app_nil_r|].
  cbn [fold_left filter] in *. rewrite plainStep_reported.
  destruct (reported o p key) eqn:Hr.
  - cbn [map] in Hnd. inversion Hnd as [|? ? Hnotin Hnd']; subst.
    rewrite (setProp_notin _ _ acc (Hdis key (or_introl eq_refl))).
    rewrite IH; [cbn [map]; now rewrite <- app_assoc | assumption |].
    intros key' Hin Hacc. unfold keys in Hacc. rewrite map_app in Hacc.
    apply in_app_or in Hacc as [Hacc | [Hacc | []]].
    + exact (Hdis key' (or_intror Hin) Hacc).
    + simpl in Hacc. apply Hnotin. rewrite Hacc. now apply in_map.
  - apply IH; assumption.
Qed.

Lemma projection_entries l (Q : string * value -> Prop) :
  (forall key, reported o p key = true ->
               Q (outputKeyOf useSnakeCase key,
                  projected useSnakeCase (readProp o p key))) ->
  forall acc, Forall Q acc ->
              Forall Q (fold_left (plainStep useSnakeCase o p o' p') l acc).
Proof.
  intros HQ. induction l as [|key l IH]; intros acc Hacc; [assumption|].
  cbn [fold_left]. apply IH. rewrite plainStep_reported.
  destruct (reported o p key) eqn:Hr; [|assumption].
  apply Forall_setProp; [now apply HQ | assumption].
Qed.

End ProjectionFold.

Lemma toPlain_fold useSnakeCase this :
  toPlain useSnakeCase this
  = VObject
      (fold_left
         (plainStep useSnakeCase (own this) (proto this)
            (map (fun kv => (fst kv, projected useSnakeCase (snd kv))) (own this))
            (map (fun kv => (fst kv, projected useSnakeCase (snd kv))) (proto this)))
         (getClassFields this) []).
Proof. unfold toPlain, asValue. apply toPlainValue_dto. Qed.

Lemma NoDup_filter_strings (f : string -> bool) l : NoDup l -> NoDup (filter f l).
Proof.
  induction 1 as [|x l Hnotin Hnd IH]; simpl; [constructor|].
  destruct (f x); [|assumption]. constructor; [|assumption].
  intros Hin. apply filter_In in Hin as [Hin _]. contradiction.
Qed.

(** X19. What [toPlain] returns.  [toJSON] (that is [toPlain(false)])
    lists, in the order of the class fields and each exactly once, the
    class fields whose value is not a function, each with the projection
    of its value; [toPlain(true)] lists the same fields under their
    snake_case spellings whenever these spellings are pairwise
    different. *)
Theorem toPlain_lists_reported_fields :
  forall (this : FlexDto),
    let fields := filter (reported (own this) (proto this)) (getClassFields this) in
    toJSON this
    = VObject (map (fun key => (key, projected false (get this key))) fields)
    /\ (NoDup (map toSnakeCase fields) ->
        toPlain true this
        = VObject (map (fun key => (toSnakeCase key, projected true (get this key)))
                       fields)).
Proof.
  intros this fields. split.
  - unfold toJSON. rewrite toPlain_fold.
    rewrite (projection_fold false (own this) (proto this)
               (getClassFields this) []); [reflexivity| |intros key _ []].
    unfold outputKeyOf. rewrite map_id.
    apply NoDup_filter_strings, getClassFieldsOf_NoDup.
  - intros Hnd. rewrite toPlain_fold.
    rewrite (projection_fold true (own this) (proto this)
               (getClassFields this) []); [reflexivity| |intros key _ []].
    exact Hnd.
Qed.

(** X20. Whatever the instance, [toPlain] returns a plain object in
    which no key begins with an underscore, no value is a function, no
    value is a [FlexDto] instance and no array value holds one directly. *)
Theorem toPlain_output_is_plain :
  forall (useSnakeCase : bool) (this : FlexDto),
    exists entries,
      toPlain useSnakeCase this = VObject entries
      /\ Forall (fun kv => startsWithUnderscore (fst kv) = false
                           /\ isFunction (snd kv) = false
                           /\ passesThrough (snd kv) = true) entries.
Proof.
  intros useSnakeCase this. eexists. split; [apply toPlain_fold|].
  apply projection_entries; [|constructor].
  intros key Hr. unfold reported in Hr. apply negb_true_iff in Hr.
  apply orb_false_iff in Hr as [Hf Hu]. cbn [fst snd].
  destruct (projected_facts useSnakeCase (readProp (own this) (proto this) key))
    as [Hpf Hpp].
  split; [|split; [now rewrite Hpf | assumption]].
  unfold outputKeyOf. destruct useSnakeCase; [|assumption].
  now rewrite toSnakeCase_first.
Qed.

(* ====================================================================== *)
(** ** Type validation *)
(* ====================================================================== *)

(** For a value that [init] assigns, the compatibility test of
    [validateType] is the comparison of the two [typeof] tags: the
    clauses for [null] and [undefined] never add anything. *)
Lemma compatible_iff_same_typeof v expected :
  isUndefined v = false ->
  (typeof v =? expected)
  || ((expected =? "object")
      && ((typeof v =? "object") || (typeof v =? "undefined") || isNull v))
  = (typeof v =? expected).
Proof.
  intros Hv. destruct (typeof v =? expected) eqn:E; [reflexivity|]. simpl.
  destruct (expected =? "object") eqn:Eo; [|reflexivity]. simpl.
  apply String.eqb_eq in Eo. subst expected.
  destruct v; simpl in *; try discriminate; reflexivity.
Qed.


